(** * NeuroKit2: decomposition of electrodermal activity (eda_decompose.py)

    A shallow embedding of [neurokit2/eda/eda_decompose.py] and the
    properties of it that the specification states.

    Conventions of the embedding.
    - A Python/NumPy float is an exact rational or one of the three IEEE
      special values ([fp]); rounding, overflow and signed zeros of binary
      floating point are left out.  Scalar keyword parameters ([tau0],
      [alpha], ...) are finite rationals ([Qc]).  Where a result of the
      source depends on the rounding (the knot spacing of line 176) the
      binary64 computation is written out as well ([float_knot_samples])
      and the properties are stated for the sampling rates on which the
      two agree ([rate_bound]).
    - A method name is a string of ASCII characters ([ascii_only]).
    - A Python exception is a value of [exn]; a computation that may raise
      returns a [result].
    - [cvxopt.solvers.options] is the only global mutable state: a dict,
      modelled as a [gmap string optval] threaded through the calls.
    - [signal_smooth], [signal_filter] (package [neurokit2.signal]) and the
      two [cvxopt.solvers] entry points are external: they are section
      variables. *)

From Stdlib Require Import ZArith QArith Qcanon Qround List Ascii String Bool Lia Lqa.
From Stdlib Require Import PrimFloat SpecFloat FloatOps Uint63.
From stdpp Require Import base option list gmap strings.

Open Scope Z_scope.

(** ** Exceptions and fallible computations *)

Inductive exn : Type :=
  | ValueError
  | TypeError
  | ImportError
  | ZeroDivisionError
  | OverflowError
  | ArithmeticError.

Inductive result (A : Type) : Type :=
  | Ok (a : A)
  | Raise (e : exn).
Arguments Ok {A} a.
Arguments Raise {A} e.

Definition rbind {A B : Type} (r : result A) (k : A -> result B) : result B :=
  match r with
  | Ok a => k a
  | Raise e => Raise e
  end.

(** The error taxonomy of the specification, and the Python exception class
    that stands for each kind in this code base.  The source has no
    exception class for a numerical failure. *)
Inductive error_kind : Type :=
  | InvalidArgument
  | DependencyMissing
  | NumericalFailure.

Definition kind_of (e : exn) : option error_kind :=
  match e with
  | ValueError => Some InvalidArgument
  | ImportError => Some DependencyMissing
  | _ => None
  end.

(** ** Numbers *)

Inductive fp : Type :=
  | Fin (q : Qc)
  | PInf
  | NInf
  | NaN.

Definition Qc_eqb (x y : Qc) : bool := Qeq_bool x y.
Definition Qc_ltb (x y : Qc) : bool := negb (Qle_bool y x).

Definition qsign (q : Qc) : comparison := (Qcompare q 0).

Definition fneg (a : fp) : fp :=
  match a with
  | Fin q => Fin (- q)%Qc
  | PInf => NInf
  | NInf => PInf
  | NaN => NaN
  end.

Definition fadd (a b : fp) : fp :=
  match a, b with
  | NaN, _ | _, NaN => NaN
  | Fin x, Fin y => Fin (x + y)%Qc
  | PInf, NInf | NInf, PInf => NaN
  | PInf, _ | _, PInf => PInf
  | NInf, _ | _, NInf => NInf
  end.

Definition fsub (a b : fp) : fp := fadd a (fneg b).

(** An infinity times a finite value: the sign rule, and [inf * 0 = nan]. *)
Definition inf_times (positive : bool) (q : Qc) : fp :=
  match qsign q with
  | Eq => NaN
  | Gt => if positive then PInf else NInf
  | Lt => if positive then NInf else PInf
  end.

Definition fmul (a b : fp) : fp :=
  match a, b with
  | NaN, _ | _, NaN => NaN
  | Fin x, Fin y => Fin (x * y)%Qc
  | PInf, Fin y => inf_times true y
  | NInf, Fin y => inf_times false y
  | Fin x, PInf => inf_times true x
  | Fin x, NInf => inf_times false x
  | PInf, PInf | NInf, NInf => PInf
  | PInf, NInf | NInf, PInf => NInf
  end.

(** NumPy's [true_divide] of two finite values: a zero divisor gives an
    infinity or nan (with a warning), never an exception. *)
Definition np_divide (x y : Qc) : fp :=
  if Qc_eqb y 0 then
    match qsign x with
    | Eq => NaN
    | Gt => PInf
    | Lt => NInf
    end
  else Fin (x / y)%Qc.

(** Python's [/] on scalars raises on a zero divisor. *)
Definition py_div (x y : Qc) : result Qc :=
  if Qc_eqb y 0 then Raise ZeroDivisionError else Ok (x / y)%Qc.

(** Python's two-argument [min] and [max] return the first argument unless
    the second is strictly smaller (resp. larger). *)
Definition py_min (a b : Qc) : Qc := if Qc_ltb b a then b else a.
Definition py_max (a b : Qc) : Qc := if Qc_ltb a b then b else a.

(** Python's [round] on a float: to the nearest integer, ties to even. *)
Definition py_round (q : Qc) : Z :=
  let f := Qfloor q in
  let r := (q - Q2Qc (inject_Z f))%Qc in
  let half := Q2Qc (1 # 2) in
  if Qc_ltb r half then f
  else if Qc_ltb half r then f + 1
  else if Z.even f then f else f + 1.

Definition Qc_of_nat (n : nat) : Qc := Q2Qc (inject_Z (Z.of_nat n)).
Definition Qc_of_int (z : Z) : Qc := Q2Qc (inject_Z z).

(** ** Vectors and matrices

    A cvxopt matrix is a list of rows whose entries are [Some v] (a stored
    value) or [None] (a position a sparse matrix does not store).  A dense
    matrix stores every position.  Arithmetic on sparse operands only
    touches stored positions, as cvxopt's does. *)

Definition vec := list fp.
Definition mat := list (list (option fp)).

Definition oadd (a b : option fp) : option fp :=
  match a, b with
  | None, _ => b
  | _, None => a
  | Some x, Some y => Some (fadd x y)
  end.

Definition omul (a b : option fp) : option fp :=
  match a, b with
  | Some x, Some y => Some (fmul x y)
  | _, _ => None
  end.

Definition stored (o : option fp) : fp := default (Fin 0%Qc) o.

Definition dot (r c : list (option fp)) : option fp :=
  fold_left oadd (zip_with omul r c) None.

Definition mcols (m : mat) : nat :=
  match m with
  | [] => O
  | r :: _ => length r
  end.

Definition column (j : nat) (m : mat) : list (option fp) :=
  map (fun r => nth j r None) m.

Definition mtrans (m : mat) : mat :=
  map (fun j => column j m) (seq 0 (mcols m)).

(** Product with a sparse result: a position is stored when some pair of
    stored entries contributes to it. *)
Definition mmul (a b : mat) : mat :=
  map (fun r => map (fun j => dot r (column j b)) (seq 0 (mcols b))) a.

Definition densify (m : mat) : mat := map (map (fun o => Some (stored o))) m.

(** Product with a dense result (one operand is dense). *)
Definition mmul_dense (a b : mat) : mat := densify (mmul a b).

Definition madd (a b : mat) : mat := zip_with (zip_with oadd) a b.
Definition mneg (a : mat) : mat := map (map (fmap fneg)) a.
Definition mscale (k : fp) (a : mat) : mat := map (map (fmap (fmul k))) a.
Definition msub (a b : mat) : mat := madd a (mneg b).

Definition col_of_vec (v : vec) : mat := map (fun x => [Some x]) v.

(** [_cvx(m, n)]: the empty sparse matrix of that size. *)
Definition _cvx (m n : nat) : mat := repeat (repeat None n) m.

Definition const_mat (v : fp) (m n : nat) : mat := repeat (repeat (Some v) n) m.

(** [cvxopt.spmatrix(1.0, range(k), range(k))]: the sparse identity. *)
Definition sp_eye (k : nat) : mat :=
  map (fun i => map (fun j => if Nat.eqb i j then Some (Fin 1%Qc) else None)
                    (seq 0 k)) (seq 0 k).

(** Blocks stacked vertically, and block columns laid side by side:
    [cvxopt.sparse] and [cvxopt.matrix] take a list of block columns. *)
Definition vstack (blocks : list mat) : mat := concat blocks.

Fixpoint hstack (cols : list mat) : mat :=
  match cols with
  | [] => []
  | [c] => c
  | c :: rest => zip_with (@app (option fp)) c (hstack rest)
  end.

Definition block_matrix (block_columns : list (list mat)) : mat :=
  hstack (map vstack block_columns).

(** *** Sparse matrices built from triplets *)

Record spmatrix : Type := {
  sp_entries : list (Z * Z * fp);   (* (row, column, value) *)
  sp_rows : nat;
  sp_cols : nat
}.

(** [cvxopt.spmatrix(V, I, J, size)]. *)
Definition spmatrix_sized (V : list fp) (I J : list Z) (size : nat * nat) : spmatrix :=
  {| sp_entries := combine (combine I J) V; sp_rows := fst size; sp_cols := snd size |}.

Definition zmax_list (l : list Z) : Z := fold_right Z.max (-1) l.

(** [cvxopt.spmatrix(V, I, J)]: the size is the least one that holds every
    index. *)
Definition spmatrix_inferred (V : list fp) (I J : list Z) : spmatrix :=
  {| sp_entries := combine (combine I J) V;
     sp_rows := Z.to_nat (zmax_list I + 1);
     sp_cols := Z.to_nat (zmax_list J + 1) |}.

(** The value stored at a position; repeated triplets add up. *)
Definition lookup_step (i j : Z) (acc : option fp) (e : Z * Z * fp) : option fp :=
  match e with
  | (r, c, v) => if (r =? i) && (c =? j) then oadd acc (Some v) else acc
  end.

Definition sp_lookup (A : spmatrix) (i j : Z) : option fp :=
  fold_left (lookup_step i j) (sp_entries A) None.

Definition sp_mat (A : spmatrix) : mat :=
  map (fun i => map (fun j => sp_lookup A (Z.of_nat i) (Z.of_nat j))
                    (seq 0 (sp_cols A)))
      (seq 0 (sp_rows A)).

(** Matrix times column vector; cvxopt raises [TypeError] when the
    dimensions do not agree. *)
Definition times (m : mat) (x : vec) : vec :=
  map (fun r => stored (dot r (map Some x))) m.

Definition mat_vec (ncols : nat) (m : mat) (x : vec) : result vec :=
  if Nat.eqb ncols (length x) then Ok (times m x) else Raise TypeError.

Definition sp_mul_vec (A : spmatrix) (x : vec) : result vec :=
  mat_vec (sp_cols A) (sp_mat A) x.

(** Element-wise sum and difference of two column vectors of one length. *)
Definition vec_add (a b : vec) : result vec :=
  if Nat.eqb (length a) (length b) then Ok (zip_with fadd a b) else Raise TypeError.

Definition vec_sub (a b : vec) : result vec :=
  if Nat.eqb (length a) (length b) then Ok (zip_with fsub a b) else Raise TypeError.

(** ** NumPy helpers *)

Definition rmap {A B : Type} (f : A -> B) (r : result A) : result B :=
  rbind r (fun a => Ok (f a)).

(** [np.arange(a, b)] over integers. *)
Definition arange (a b : Z) : list Z :=
  map (fun k => a + Z.of_nat k) (seq 0 (Z.to_nat (b - a))).

(** [np.arange(s, 0., -1.)]: [s, s-1, ..., 1]. *)
Definition arange_down (s : Z) : list Z :=
  map (fun k => s - Z.of_nat k) (seq 0 (Z.to_nat s)).

(** [np.arange(0, n, s)] for a positive step: [0, s, 2s, ...] below [n]. *)
Definition arange_step (n s : Z) : list Z :=
  map (fun k => Z.of_nat k * s) (seq 0 (Z.to_nat ((n + s - 1) / s))).

(** [np.tile(row, (k, 1))]: [k] copies of the row; a negative count is
    rejected. *)
Definition np_tile {A : Type} (row : list A) (k : Z) : result (list (list A)) :=
  if k <? 0 then Raise ValueError else Ok (repeat row (Z.to_nat k)).

Definition qsum (l : list Qc) : Qc := fold_right Qcplus 0%Qc l.

(** Entry of a sequence at an integer position, zero outside it. *)
Definition at_or_zero (v : list Qc) (i : Z) : Qc :=
  if (0 <=? i) && (i <? Z.of_nat (length v))
  then nth (Z.to_nat i) v 0%Qc else 0%Qc.

(** [np.convolve(a, v, 'full')]: entry [k] is the sum of [a[m] * v[k-m]];
    an empty operand is rejected. *)
Definition convolution (a v : list Qc) : list Qc :=
  map (fun k =>
         qsum (map (fun m => (nth m a 0 * at_or_zero v (Z.of_nat k - Z.of_nat m))%Qc)
                   (seq 0 (length a))))
      (seq 0 (length a + length v - 1)).

Definition np_convolve (a v : list Qc) : result (list Qc) :=
  match a, v with
  | [], _ | _, [] => Raise ValueError
  | _, _ => Ok (convolution a v)
  end.

(** Python's [max] of a non-empty sequence keeps the first largest item. *)
Definition py_max_list (hd : Qc) (tl : list Qc) : Qc :=
  fold_left (fun acc x => if Qc_ltb acc x then x else acc) tl hd.

(** ** The cvxEDA model matrices *)

(** Lines 163-168: the Bateman ARMA coefficients. *)
Definition bateman_a1 (tau0 tau1 : Qc) : result Qc := py_div 1%Qc (py_min tau1 tau0).
Definition bateman_a0 (tau0 tau1 : Qc) : result Qc := py_div 1%Qc (py_max tau1 tau0).

Definition ar_numerators (a1 a0 frequency : Qc) : list Qc :=
  [ ((a1 * frequency + 2) * (a0 * frequency + 2))%Qc;
    (2 * a1 * a0 * frequency ^ 2 - Q2Qc 8)%Qc;
    ((a1 * frequency - 2) * (a0 * frequency - 2))%Qc ].

Definition ar_denominator (a1 a0 frequency : Qc) : Qc :=
  ((a1 - a0) * frequency ^ 2)%Qc.

Definition bateman_ar (tau0 tau1 frequency : Qc) : result (list fp) :=
  rbind (bateman_a1 tau0 tau1) (fun a1 =>
  rbind (bateman_a0 tau0 tau1) (fun a0 =>
  Ok (map (fun num => np_divide num (ar_denominator a1 a0 frequency))
          (ar_numerators a1 a0 frequency)))).

Definition ma : list fp := [Fin 1%Qc; Fin 2%Qc; Fin (Q2Qc 1)].

(** Lines 171-173: the three taps on every row [i] of [arange(2, n)], at
    columns [i], [i-1], [i-2]. *)
Definition arma_matrix (taps : list fp) (n : nat) : result spmatrix :=
  let i := arange 2 (Z.of_nat n) in
  rbind (np_tile taps (Z.of_nat n - 2)) (fun V =>
  Ok (spmatrix_sized (concat V)
        (concat (map (fun r => [r; r; r]) i))
        (concat (map (fun r => [r; r - 1; r - 2]) i))
        (n, n))).

(** Lines 176-179: the spline kernel for a knot spacing of [s] samples. *)
Definition order1_spline (s : Z) : list Qc :=
  map Qc_of_int (arange 1 s ++ arange_down s).

Definition normalise (spl : list Qc) : list fp :=
  match spl with
  | [] => []
  | hd :: tl => map (fun v => np_divide v (py_max_list hd tl)) spl
  end.

Definition spline_kernel (s : Z) : result (list fp) :=
  let spl := order1_spline s in
  rmap normalise (np_convolve spl spl).

(** Lines 181-186: the matrix of spline regressors.  [cells] lists the
    entries of [i], [j], [p] in row-major order, as boolean-mask indexing
    does. *)
Definition spline_cells (spl : list fp) (n : nat) (s : Z) : list (Z * Z * fp) :=
  let len := Z.of_nat (length spl) in
  let offsets := arange (- (len / 2)) ((len + 1) / 2) in
  let knots := arange_step (Z.of_nat n) s in
  concat (map (fun rp : Z * fp =>
                 map (fun ck : nat * Z => (fst rp + snd ck, Z.of_nat (fst ck), snd rp))
                     (combine (seq 0 (length knots)) knots))
              (combine offsets spl)).

Definition spline_nB (n : nat) (s : Z) : nat := length (arange_step (Z.of_nat n) s).

Definition valid_cell (n : nat) (c : Z * Z * fp) : bool :=
  (0 <=? fst (fst c)) && (fst (fst c) <? Z.of_nat n).

Definition spline_matrix (spl : list fp) (n : nat) (s : Z) : spmatrix :=
  let kept := List.filter (valid_cell n) (spline_cells spl n s) in
  spmatrix_inferred (map snd kept) (map (fun c => fst (fst c)) kept)
                    (map (fun c => snd (fst c)) kept).

(** Line 189: the trend columns, ones and a ramp from [1/n] to [1]. *)
Definition trend_matrix (n : nat) : mat :=
  map (fun k => [Some (Fin 1%Qc); Some (np_divide (Qc_of_int k) (Qc_of_nat n))])
      (arange 1 (Z.of_nat n + 1)).

Record cvx_model : Type := {
  mdl_n : nat;
  mdl_A : spmatrix;
  mdl_M : spmatrix;
  mdl_B : spmatrix;
  mdl_nB : nat;
  mdl_C : mat;
  mdl_nC : nat
}.

(** Lines 157-190 of [_eda_decompose_cvxeda], in the order of the source. *)
Definition cvxeda_model (eda_signal : vec) (sampling_rate : Z)
    (tau0 tau1 delta_knot : Qc) : result cvx_model :=
  rbind (py_div 1%Qc (Qc_of_int sampling_rate)) (fun frequency =>
  let n := length eda_signal in
  rbind (bateman_ar tau0 tau1 frequency) (fun ar =>
  rbind (arma_matrix ar n) (fun A =>
  rbind (arma_matrix ma n) (fun M =>
  rbind (py_div delta_knot frequency) (fun knot_samples =>
  let delta_knot_s := py_round knot_samples in
  rbind (spline_kernel delta_knot_s) (fun spl =>
  let C := trend_matrix n in
  Ok {| mdl_n := n; mdl_A := A; mdl_M := M;
        mdl_B := spline_matrix spl n delta_knot_s;
        mdl_nB := spline_nB n delta_knot_s;
        mdl_C := C; mdl_nC := mcols C |})))))).

(** *** The knot spacing in binary64 arithmetic

    Line 157 divides two Python ints, which gives the float nearest to the
    quotient; line 176 divides two floats and rounds the quotient to the
    nearest int, ties to even.  For a sampling rate below [2^53] the first
    is the binary64 quotient of the two ints as floats.  A rate so large
    that [1/sampling_rate] is the float zero makes line 176 raise
    [ZeroDivisionError]. *)
Definition float_of_int (z : Z) : float :=
  if z <? 0 then PrimFloat.opp (PrimFloat.of_uint63 (Uint63.of_Z (- z)))
  else PrimFloat.of_uint63 (Uint63.of_Z z).

(** [round(x)] of a float: the float is [m * 2^e] for two integers, and the
    nearest integer is taken, the even one when two are as near. *)
Definition round_half_even (m k : Z) : Z :=
  let unit := 2 ^ k in
  let f := m / unit in
  let r := m mod unit in
  if 2 * r <? unit then f
  else if unit <? 2 * r then f + 1
  else if Z.even f then f else f + 1.

Definition float_round (x : float) : result Z :=
  match Prim2SF x with
  | S754_zero _ => Ok 0
  | S754_finite s m e =>
      let z := if s then Z.neg m else Z.pos m in
      Ok (if e <? 0 then round_half_even z (- e) else z * 2 ^ e)
  | S754_infinity _ => Raise OverflowError
  | S754_nan => Raise ValueError
  end.

(** [int(round(delta_knot / frequency))] with [delta_knot = 10.] and
    [frequency = 1/sampling_rate], for a non-zero rate. *)
Definition float_knot_samples (sampling_rate : Z) : result Z :=
  let frequency := PrimFloat.div (float_of_int 1) (float_of_int sampling_rate) in
  if PrimFloat.eqb frequency PrimFloat.zero then Raise ZeroDivisionError
  else float_round (PrimFloat.div (float_of_int 10) frequency).

(** The sampling rates for which the properties that depend on the knot
    spacing are stated: up to this rate the binary64 spacing is the exact
    one ([knot_samples_in_binary64]). *)
Definition rate_bound : Z := 20000.

(** Whether [f] holds of the [count] integers from [r] on. *)
Fixpoint forall_from (count : nat) (r : Z) (f : Z -> bool) : bool :=
  match count with
  | O => true
  | S k => f r && forall_from k (r + 1) f
  end.

(** Whether the binary64 knot spacing at the rates [r] and [-r] is ten
    times the rate. *)
Definition knot_samples_exact (r : Z) : bool :=
  match float_knot_samples r, float_knot_samples (- r) with
  | Ok s, Ok s' => (s =? 10 * r) && (s' =? 10 * - r)
  | _, _ => false
  end.

(** ** The solver interface *)

Inductive optval : Type :=
  | OptFloat (q : Qc)
  | OptBool (b : bool)
  | OptInt (z : Z)
  | OptStr (s : string).

(** The dict [cvxopt.solvers.options]. *)
Abbreviation options := (gmap string optval).

Definition dict_update (d new : options) : options := new ∪ d.
Definition dict_clear (d : options) : options := ∅.

Inductive solver_status : Type :=
  | Optimal
  | Unknown
  | PrimalInfeasible
  | DualInfeasible.

(** The dict a cvxopt solver returns: [res['status']], [res['x']] and
    [res['primal objective']]; the last two are [None] for some statuses. *)
Record solution : Type := {
  sol_status : solver_status;
  sol_x : option vec;
  sol_primal_objective : option fp
}.

Inductive solver_outcome : Type :=
  | Returns (res : solution)
  | Raises (e : exn).

Record qp_problem : Type := {
  qp_H : mat; qp_f : mat; qp_G : mat; qp_h : mat; qp_solver : option string
}.

Record cone_problem : Type := {
  cp_c : mat; cp_G : mat; cp_h : mat;
  cp_dims_l : nat; cp_dims_q : list nat; cp_dims_s : list nat
}.

Definition row_times_sp (k : fp) (n : nat) (A : mat) : mat :=
  mtrans (mmul_dense (const_mat k 1 n) A).

(** Lines 213-217: the quadratic program. *)
Definition qp_encoding (m : cvx_model) (eda : vec) (alpha gamma : Qc)
    (solver : option string) : qp_problem :=
  let n := mdl_n m in
  let A := sp_mat (mdl_A m) in
  let M := sp_mat (mdl_M m) in
  let B := sp_mat (mdl_B m) in
  let C := mdl_C m in
  let nB := mdl_nB m in
  let y := col_of_vec eda in
  let Mt := mtrans M in
  let Ct := mtrans C in
  let Bt := mtrans B in
  let H := block_matrix
             [ [mmul Mt M; mmul_dense Ct M; mmul Bt M];
               [mmul_dense Mt C; mmul_dense Ct C; mmul_dense Bt C];
               [mmul Mt B; mmul_dense Ct B;
                madd (mmul Bt B) (mscale (Fin gamma) (sp_eye nB))] ] in
  let f := vstack
             [ msub (row_times_sp (Fin alpha) n A) (mmul_dense Mt y);
               mneg (mmul_dense Ct y);
               mneg (mmul_dense Bt y) ] in
  let A_size := {| sp_entries := map (fun e => (fst e, fneg (snd e))) (sp_entries (mdl_A m));
                   sp_rows := n; sp_cols := length f |} in
  {| qp_H := H; qp_f := f; qp_G := sp_mat A_size;
     qp_h := const_mat (Fin 0%Qc) n 1; qp_solver := solver |}.

Definition scalar (q : Qc) : mat := [[Some (Fin q)]].

(** Lines 202-209: the cone program. *)
Definition cone_encoding (m : cvx_model) (eda : vec) (alpha gamma : Qc) : cone_problem :=
  let n := mdl_n m in
  let A := sp_mat (mdl_A m) in
  let M := sp_mat (mdl_M m) in
  let B := sp_mat (mdl_B m) in
  let C := mdl_C m in
  let nB := mdl_nB m in
  let nC := mdl_nC m in
  let half := Q2Qc (1 # 2) in
  let G := block_matrix
             [ [mneg A; _cvx 2 n; M; _cvx (nB + 2) n];
               [_cvx (n + 2) nC; C; _cvx (nB + 2) nC];
               [_cvx n 1; scalar (- 1)%Qc; scalar 1%Qc; _cvx (n + nB + 2) 1];
               [_cvx (2 * n + 2) 1; scalar (- 1)%Qc; scalar 1%Qc; _cvx nB 1];
               [_cvx (n + 2) nB; B; _cvx 2 nB; sp_eye nB] ] in
  let h := densify (vstack [ _cvx n 1; scalar half; scalar half; col_of_vec eda;
                             scalar half; scalar half; _cvx nB 1 ]) in
  let c := densify (vstack [ row_times_sp (Fin alpha) n A; _cvx nC 1; scalar 1%Qc;
                             scalar gamma; _cvx nB 1 ]) in
  {| cp_c := c; cp_G := G; cp_h := h;
     cp_dims_l := n; cp_dims_q := [(n + 2)%nat; (nB + 2)%nat]; cp_dims_s := [] |}.

(** ** Decoding the solution (lines 222-231) *)

(** [x[-k:]]: the last [k] entries; all of [x] when [k = 0]. *)
Definition slice_last (k : nat) (x : vec) : vec :=
  if Nat.eqb k 0 then x else drop (length x - k) x.

(** [x[a:b]]. *)
Definition slice (a b : nat) (x : vec) : vec := take (b - a) (drop a x).

Definition DataFrame := list (string * vec).

(** [pd.DataFrame(dict)] rejects columns of different lengths. *)
Definition pd_DataFrame (tonic phasic : vec) : result DataFrame :=
  if Nat.eqb (length tonic) (length phasic)
  then Ok [("EDA_Tonic"%string, tonic); ("EDA_Phasic"%string, phasic)]
  else Raise ValueError.

Record decoded : Type := {
  dec_tonic : vec;
  dec_phasic : vec;
  dec_smna_driver : vec;
  dec_residuals : vec
}.

Definition cvxeda_decode (m : cvx_model) (eda x : vec) : result decoded :=
  let n := mdl_n m in
  let tonic_splines := slice_last (mdl_nB m) x in
  let drift := slice n (n + mdl_nC m) x in
  rbind (sp_mul_vec (mdl_B m) tonic_splines) (fun Bl =>
  rbind (mat_vec (mdl_nC m) (mdl_C m) drift) (fun Cd =>
  rbind (vec_add Bl Cd) (fun tonic =>
  let q := slice 0 n x in
  rbind (sp_mul_vec (mdl_A m) q) (fun smna_driver =>
  rbind (sp_mul_vec (mdl_M m) q) (fun phasic =>
  rbind (vec_sub eda phasic) (fun r =>
  rbind (vec_sub r tonic) (fun residuals =>
  Ok {| dec_tonic := tonic; dec_phasic := phasic;
        dec_smna_driver := smna_driver; dec_residuals := residuals |}))))))).

(** ** Method names *)

Definition lower_ascii (c : ascii) : ascii :=
  let k := nat_of_ascii c in
  if (Nat.leb 65 k && Nat.leb k 90)%bool then ascii_of_nat (k + 32) else c.

(** [str.lower] on a name made of ASCII characters.  Python lower-cases
    the letters outside ASCII as well, and one of them, the Kelvin sign
    U+212A, becomes the ASCII letter [k]: on a name that [ascii_only] does
    not accept this function is not [str.lower], and the properties of the
    dispatcher that depend on it are stated for ASCII names. *)
Fixpoint lower (s : string) : string :=
  match s with
  | EmptyString => EmptyString
  | String c rest => String (lower_ascii c) (lower rest)
  end.

Definition ascii_only (s : string) : bool :=
  forallb (fun c => Nat.ltb (nat_of_ascii c) 128) (list_ascii_of_string s).

Definition is_upper (c : ascii) : bool :=
  (Nat.leb 65 (nat_of_ascii c) && Nat.leb (nat_of_ascii c) 90)%bool.

(** The same character, or the capital and the small form of one letter. *)
Definition same_letter (c d : ascii) : bool :=
  (Ascii.eqb c d
   || (is_upper c && Nat.eqb (nat_of_ascii d) (nat_of_ascii c + 32))
   || (is_upper d && Nat.eqb (nat_of_ascii c) (nat_of_ascii d + 32)))%bool.

(** Two names that differ in the case of their letters at most. *)
Fixpoint same_up_to_case (s t : string) : bool :=
  match s, t with
  | EmptyString, EmptyString => true
  | String c s', String d t' => (same_letter c d && same_up_to_case s' t')%bool
  | _, _ => false
  end.

Definition method_in (m : string) (names : list string) : bool :=
  existsb (String.eqb m) names.

Definition known_methods : list string :=
  ["cvxeda"; "median"; "smoothmedian"; "highpass"; "biopac"; "acqknowledge"]%string.

(** NumPy's broadcasting subtraction of two one-dimensional arrays. *)
Definition np_subtract (a b : vec) : result vec :=
  if Nat.eqb (length a) (length b) then Ok (zip_with fsub a b)
  else match a, b with
       | [x], _ => Ok (map (fun y => fsub x y) b)
       | _, [y] => Ok (map (fun x => fsub x y) a)
       | _, _ => Raise ValueError
       end.

(** ** The decomposition functions *)

(** A computation over the global solver options that may raise: the
    options it leaves behind are part of its outcome in both cases. *)
Definition with_options (A : Type) : Type := options -> result A * options.

Section Decompose.

(** Whether [import cvxopt] succeeds. *)
Variable cvxopt_installed : bool.

(** [cvxopt.solvers.qp] and [cvxopt.solvers.conelp]: they read the global
    options and do not change them. *)
Variable solvers_qp : options -> qp_problem -> solver_outcome.
Variable solvers_conelp : options -> cone_problem -> solver_outcome.

(** [signal_smooth(signal, kernel=, size=)] and
    [signal_filter(signal, sampling_rate=, lowcut=, highcut=, method=)]. *)
Variable signal_smooth : vec -> string -> Z -> result vec.
Variable signal_filter : vec -> Z -> option Qc -> option Qc -> string -> result vec.

Definition _eda_decompose_mediansmooth (eda_signal : vec) (sampling_rate : Z)
    (smoothing_factor : Z) : result DataFrame :=
  let size := smoothing_factor * sampling_rate in
  rbind (signal_smooth eda_signal "median" size) (fun tonic =>
  rbind (np_subtract eda_signal tonic) (fun phasic =>
  pd_DataFrame tonic phasic)).

Definition cutoff : Qc := Q2Qc (5 # 100).

Definition _eda_decompose_highpass (eda_signal : vec) (sampling_rate : Z)
    : result DataFrame :=
  rbind (signal_filter eda_signal sampling_rate (Some cutoff) None "butter") (fun phasic =>
  rbind (signal_filter eda_signal sampling_rate None (Some cutoff) "butter") (fun tonic =>
  pd_DataFrame tonic phasic)).

(** Lines 198-199: the settings the solver runs under. *)
Definition solver_settings (reltol : Qc) : options :=
  <["reltol"%string := OptFloat reltol]> (<["show_progress"%string := OptBool false]> ∅).

(** Lines 200-218: the solver call and the objective value [obj]. *)
Definition cvxeda_solve (m : cvx_model) (eda : vec) (alpha gamma : Qc)
    (solver : option string) (opts : options) : result solution :=
  if bool_decide (solver = Some "conelp"%string) then
    match solvers_conelp opts (cone_encoding m eda alpha gamma) with
    | Raises e => Raise e
    | Returns res => Ok res
    end
  else
    match solvers_qp opts (qp_encoding m eda alpha gamma solver) with
    | Raises e => Raise e
    | Returns res =>
        match sol_primal_objective res with
        | None => Raise TypeError
        | Some _ => Ok res
        end
    end.

Definition _eda_decompose_cvxeda (eda_signal : vec) (sampling_rate : Z)
    (tau0 tau1 delta_knot alpha gamma : Qc) (solver : option string)
    (reltol : Qc) : with_options DataFrame :=
  fun opts =>
    if negb cvxopt_installed then (Raise ImportError, opts) else
    match cvxeda_model eda_signal sampling_rate tau0 tau1 delta_knot with
    | Raise e => (Raise e, opts)
    | Ok m =>
        let old_options := opts in
        let opts := dict_update (dict_clear opts) (solver_settings reltol) in
        match cvxeda_solve m eda_signal alpha gamma solver opts with
        | Raise e => (Raise e, opts)
        | Ok res =>
            let opts := dict_update (dict_clear opts) old_options in
            match sol_x res with
            | None => (Raise TypeError, opts)
            | Some x =>
                (rbind (cvxeda_decode m eda_signal x) (fun d =>
                 pd_DataFrame (dec_tonic d) (dec_phasic d)), opts)
            end
        end
    end.

(** The keyword defaults of [_eda_decompose_cvxeda] (line 117). *)
Definition default_tau0 : Qc := Q2Qc 2.
Definition default_tau1 : Qc := Q2Qc (7 # 10).
Definition default_delta_knot : Qc := Q2Qc 10.
Definition default_alpha : Qc := Q2Qc (8 # 10000).
Definition default_gamma : Qc := Q2Qc (1 # 100).
Definition default_reltol : Qc := Q2Qc (1 # 1000000000).
Definition default_solver : option string := None.
Definition default_smoothing_factor : Z := 4.

Definition eda_decompose (eda_signal : vec) (sampling_rate : Z) (method : string)
    : with_options DataFrame :=
  fun opts =>
    let method := lower method in
    if String.eqb method "cvxeda" then
      _eda_decompose_cvxeda eda_signal sampling_rate default_tau0 default_tau1
        default_delta_knot default_alpha default_gamma default_solver
        default_reltol opts
    else if method_in method ["median"; "smoothmedian"]%string then
      (_eda_decompose_mediansmooth eda_signal sampling_rate default_smoothing_factor, opts)
    else if method_in method ["highpass"; "biopac"; "acqknowledge"]%string then
      (_eda_decompose_highpass eda_signal sampling_rate, opts)
    else (Raise ValueError, opts).

End Decompose.

(** ** Notions used to state the properties *)

(** A model whose matrices have the shapes the source builds them with. *)
Record well_shaped (m : cvx_model) : Prop := {
  ws_n : (2 <= mdl_n m)%nat;
  ws_A : sp_rows (mdl_A m) = mdl_n m /\ sp_cols (mdl_A m) = mdl_n m;
  ws_M : sp_rows (mdl_M m) = mdl_n m /\ sp_cols (mdl_M m) = mdl_n m;
  ws_B : sp_rows (mdl_B m) = mdl_n m /\ sp_cols (mdl_B m) = mdl_nB m;
  ws_nB : (1 <= mdl_nB m)%nat;
  ws_C : length (mdl_C m) = mdl_n m;
  ws_nC : mdl_nC m = 2%nat;
  ws_C_cols : mcols (mdl_C m) = mdl_nC m
}.

(** The three signals and the residual the decoding step computes from a
    solution vector [x], with its slices written from the front. *)
Definition decoded_from (m : cvx_model) (eda x : vec) : decoded :=
  let n := mdl_n m in
  let q := take n x in
  let d := take 2 (drop n x) in
  let l := drop (n + 2) x in
  let tonic := zip_with fadd (times (sp_mat (mdl_B m)) l) (times (mdl_C m) d) in
  let phasic := times (sp_mat (mdl_M m)) q in
  {| dec_tonic := tonic;
     dec_phasic := phasic;
     dec_smna_driver := times (sp_mat (mdl_A m)) q;
     dec_residuals := zip_with fsub (zip_with fsub eda phasic) tonic |}.

(** The same with the spline coefficients [l] given apart. *)
Definition decoded_with (m : cvx_model) (eda x l : vec) : decoded :=
  let n := mdl_n m in
  let q := take n x in
  let d := take 2 (drop n x) in
  let tonic := zip_with fadd (times (sp_mat (mdl_B m)) l) (times (mdl_C m) d) in
  let phasic := times (sp_mat (mdl_M m)) q in
  {| dec_tonic := tonic;
     dec_phasic := phasic;
     dec_smna_driver := times (sp_mat (mdl_A m)) q;
     dec_residuals := zip_with fsub (zip_with fsub eda phasic) tonic |}.

Definition not_finite (x : fp) : Prop := x = PInf \/ x = NInf \/ x = NaN.

(** What the quadratic-program solve of lines 217-218 ends with when it
    does not return to line 219: the exception of the solver, or the
    [TypeError] of line 218 when the solver returned no objective value. *)
Definition qp_failure (o : solver_outcome) : option exn :=
  match o with
  | Raises e => Some e
  | Returns res =>
      match sol_primal_objective res with
      | None => Some TypeError
      | Some _ => None
      end
  end.

Definition is_fin_le_1 (x : fp) : Prop :=
  exists q, x = Fin q /\ (q <= 1)%Qc.

(** The triplets of one row of an ARMA matrix. *)
Definition row_taps (t0 t1 t2 : fp) (r : Z) : list (Z * Z * fp) :=
  [(r, r, t0); (r, r - 1, t1); (r, r - 2, t2)].

(** The value the band holds at row [i], column [j]. *)
Definition band_value (t0 t1 t2 : fp) (i j : Z) : option fp :=
  if j =? i then Some t0
  else if j =? i - 1 then Some t1
  else if j =? i - 2 then Some t2
  else None.

(** An [n] by [n] matrix whose rows from the third on hold the three taps
    on the diagonal and the two sub-diagonals, and whose first two rows hold
    nothing. *)
Definition banded (n : nat) (t0 t1 t2 : fp) (A : spmatrix) : Prop :=
  sp_rows A = n /\ sp_cols A = n
  /\ forall i j : Z,
       sp_lookup A i j =
         if (2 <=? i) && (i <? Z.of_nat n) then band_value t0 t1 t2 i j else None.

(** ** Sample collaborators for closed examples *)

(** A solver that stops at its iteration limit and returns the zero vector
    as its last iterate, with status [Unknown]. *)
Definition zeros_solution (st : solver_status) (k : nat) : solution :=
  {| sol_status := st;
     sol_x := Some (repeat (Fin 0%Qc) k);
     sol_primal_objective := Some (Fin 0%Qc) |}.

Definition qp_stalls (_ : options) (p : qp_problem) : solver_outcome :=
  Returns (zeros_solution Unknown (length (qp_f p))).

Definition qp_converges (_ : options) (p : qp_problem) : solver_outcome :=
  Returns (zeros_solution Optimal (length (qp_f p))).

(** A solver that looks at the program before it gives up.  As cvxopt
    does, it raises [ArithmeticError] for a program with an entry that is
    not finite and [ValueError] for one in which a variable occurs neither
    in [H] nor in [G] (the rank condition of [cvxopt.solvers.qp] fails);
    for any other program it stops at its starting point, the zero vector,
    with status [Unknown]. *)
Definition not_finite_cell (c : option fp) : bool :=
  match c with
  | Some (Fin _) | None => false
  | Some _ => true
  end.

Definition zero_cell (c : option fp) : bool :=
  match c with
  | None => true
  | Some (Fin q) => Qc_eqb q 0
  | Some _ => false
  end.

Definition zero_column (j : nat) (X : mat) : bool :=
  forallb (fun row => zero_cell (nth j row None)) X.

Definition qp_cautious (_ : options) (p : qp_problem) : solver_outcome :=
  if existsb (existsb not_finite_cell) (qp_H p ++ qp_f p ++ qp_G p ++ qp_h p)
  then Raises ArithmeticError
  else if existsb (fun j => zero_column j (qp_H p) && zero_column j (qp_G p))
                  (seq 0 (length (qp_f p)))
  then Raises ValueError
  else Returns (zeros_solution Unknown (length (qp_f p))).

Definition conelp_stalls (_ : options) (p : cone_problem) : solver_outcome :=
  Returns (zeros_solution Unknown (length (cp_c p))).

(** A cone solver that returns the vector [0, 1, 2, ...], one entry per
    variable. *)
Definition conelp_counts (_ : options) (p : cone_problem) : solver_outcome :=
  Returns {| sol_status := Optimal;
             sol_x := Some (map (fun k => Fin (Qc_of_nat k)) (seq 0 (length (cp_c p))));
             sol_primal_objective := Some (Fin 0%Qc) |}.

(** A smoother that returns the running value of the first sample. *)
Definition smooth_flat (v : vec) (_ : string) (_ : Z) : result vec :=
  Ok (map (fun _ => hd (Fin 0%Qc) v) v).

(** A crude filter pair: with [lowcut] (high-pass) the first difference of
    the signal, with [highcut] (low-pass) the mean of each sample and its
    predecessor.  The first sample has itself as predecessor. *)
Definition with_previous (v : vec) : list (fp * fp) :=
  zip v (hd (Fin 0%Qc) v :: v).

Definition filter_crude (v : vec) (_ : Z) (lowcut highcut : option Qc) (_ : string)
    : result vec :=
  match lowcut, highcut with
  | Some _, _ => Ok (map (fun p => fsub (fst p) (snd p)) (with_previous v))
  | None, _ => Ok (map (fun p => fmul (Fin (Q2Qc (1 # 2))) (fadd (fst p) (snd p)))
                       (with_previous v))
  end.

Definition fin (z : Z) : fp := Fin (Qc_of_int z).

Definition sample_signal : vec := map fin [1; 2; 4; 3].

Definition two_samples : vec := map fin [1; 2].

Definition zero_table (n : nat) : DataFrame :=
  [("EDA_Tonic"%string, repeat (Fin 0%Qc) n); ("EDA_Phasic"%string, repeat (Fin 0%Qc) n)].

(** A matrix of [r] rows that all have [c] entries. *)
Definition has_shape (r c : nat) (m : mat) : Prop :=
  length m = r /\ Forall (fun row => length row = c) m.

(** The entry of a matrix at row [i], column [j], if it is stored. *)
Definition entry (m : mat) (i j : nat) : option fp := nth j (nth i m []) None.

(** The cell of the spline matrix for one kernel tap, of offset [o] and
    value [v], and the knot of column [c]. *)
Definition tap_row (o : Z) (v : fp) (s : Z) (c : nat) : Z * Z * fp :=
  (o + Z.of_nat c * s, Z.of_nat c, v).

(** The sum of [g] over the [len] integers from [lo] on. *)
Definition window_sum (g : Z -> Qc) (lo : Z) (len : nat) : Qc :=
  qsum (map (fun t => g (lo + Z.of_nat t)) (seq 0 len)).

(** ** The multi-modal wrapper ([bio/bio_process.py])

    [bio_process] hands each channel to the processing function of its
    modality and puts the tables and the information dicts they return
    together.  The pandas operations it uses and the functions it imports
    from the other packages of [neurokit2] are external: they are the
    fields of two records.  A channel is a value of type [series], a table
    one of type [frame], and [value] is what an information dict holds. *)

Record pandas (series frame : Type) : Type := {
  frame_keys : frame -> list string;              (* data.keys() *)
  frame_column : frame -> string -> series;       (* data[name] *)
  frame_select : frame -> list string -> frame;   (* data[names] *)
  reset_index : frame -> frame;                   (* keep.reset_index(drop=True) *)
  pd_concat : frame -> frame -> frame;            (* pd.concat([a, b], axis=1) *)
  empty_frame : frame                             (* pd.DataFrame({}) *)
}.
Arguments frame_keys {series frame}.
Arguments frame_column {series frame}.
Arguments frame_select {series frame}.
Arguments reset_index {series frame}.
Arguments pd_concat {series frame}.
Arguments empty_frame {series frame}.

Record processors (series frame value : Type) : Type := {
  as_vector : series -> result series;
  ecg_process : series -> Z -> result (frame * gmap string value);
  rsp_process : series -> Z -> result (frame * gmap string value);
  eda_process : series -> Z -> result (frame * gmap string value);
  emg_process : series -> Z -> result (frame * gmap string value);
  ppg_process : series -> Z -> result (frame * gmap string value);
  eog_process : series -> Z -> result (frame * gmap string value);
  hrv_rsa : frame -> frame -> Z -> result frame;
  int_value : Z -> value                          (* an int as a dict value *)
}.
Arguments as_vector {series frame value}.
Arguments ecg_process {series frame value}.
Arguments rsp_process {series frame value}.
Arguments eda_process {series frame value}.
Arguments emg_process {series frame value}.
Arguments ppg_process {series frame value}.
Arguments eog_process {series frame value}.
Arguments hrv_rsa {series frame value}.
Arguments int_value {series frame value}.

(** The first argument of [bio_process] is a channel or a whole table. *)
Inductive first_argument (series frame : Type) : Type :=
  | Channel (s : series)
  | Table (data : frame).
Arguments Channel {series frame} s.
Arguments Table {series frame} data.

(** The channels and the extra columns in hand once the first argument has
    been looked at (lines 130-165). *)
Record bio_channels (series frame : Type) : Type := {
  ch_ecg : option series;
  ch_rsp : option series;
  ch_eda : option series;
  ch_emg : option series;
  ch_ppg : option series;
  ch_eog : option series;
  ch_keep : option frame
}.
Arguments ch_ecg {series frame}.
Arguments ch_rsp {series frame}.
Arguments ch_eda {series frame}.
Arguments ch_emg {series frame}.
Arguments ch_ppg {series frame}.
Arguments ch_eog {series frame}.
Arguments ch_keep {series frame}.

Definition channel_columns : list string :=
  ["ECG"; "EKG"; "RSP"; "EDA"; "EMG"; "PPG"; "EOG"]%string.

Section BioProcess.

Variables series frame value : Type.
Variable pd : pandas series frame.
Variable nk : processors series frame value.

Definition column_if_present (data : frame) (name : string) : option series :=
  if method_in name (frame_keys pd data) then Some (frame_column pd data name) else None.

Definition bio_unpack (ecg : option (first_argument series frame))
    (rsp eda emg ppg eog : option series) (keep : option frame)
    : bio_channels series frame :=
  match ecg with
  | Some (Table data) =>
      let keep_keys :=
        List.filter (fun key => negb (method_in key channel_columns)) (frame_keys pd data) in
      {| ch_rsp := column_if_present data "RSP";
         ch_eda := column_if_present data "EDA";
         ch_emg := column_if_present data "EMG";
         ch_ecg := if method_in "ECG"%string (frame_keys pd data)
                   then Some (frame_column pd data "ECG")
                   else if method_in "EKG"%string (frame_keys pd data)
                        then Some (frame_column pd data "EKG")
                        else None;
         ch_ppg := column_if_present data "PPG";
         ch_eog := column_if_present data "EOG";
         ch_keep := if negb (Nat.eqb (length keep_keys) 0)
                    then Some (frame_select pd data keep_keys) else None |}
  | Some (Channel s) =>
      {| ch_ecg := Some s; ch_rsp := rsp; ch_eda := eda; ch_emg := emg;
         ch_ppg := ppg; ch_eog := eog; ch_keep := keep |}
  | None =>
      {| ch_ecg := None; ch_rsp := rsp; ch_eda := eda; ch_emg := emg;
         ch_ppg := ppg; ch_eog := eog; ch_keep := keep |}
  end.

(** One of the six blocks of lines 168-207: a channel that is there is
    turned into a vector and processed, its information is merged into
    [bio_info] and its table is appended to [bio_df]. *)
Definition bio_step (process : series -> Z -> result (frame * gmap string value))
    (channel : option series) (sampling_rate : Z)
    (state : frame * gmap string value)
    : result (option frame * (frame * gmap string value)) :=
  match channel with
  | None => Ok (None, state)
  | Some x =>
      rbind (as_vector nk x) (fun v =>
      rbind (process v sampling_rate) (fun out =>
      Ok (Some (fst out), (pd_concat pd (fst state) (fst out), snd out ∪ snd state))))
  end.

Definition bio_process (ecg : option (first_argument series frame))
    (rsp eda emg ppg eog : option series) (keep : option frame) (sampling_rate : Z)
    : result (frame * gmap string value) :=
  let ch := bio_unpack ecg rsp eda emg ppg eog keep in
  rbind (bio_step (ecg_process nk) (ch_ecg ch) sampling_rate (empty_frame pd, ∅)) (fun r1 =>
  rbind (bio_step (rsp_process nk) (ch_rsp ch) sampling_rate (snd r1)) (fun r2 =>
  rbind (bio_step (eda_process nk) (ch_eda ch) sampling_rate (snd r2)) (fun r3 =>
  rbind (bio_step (emg_process nk) (ch_emg ch) sampling_rate (snd r3)) (fun r4 =>
  rbind (bio_step (ppg_process nk) (ch_ppg ch) sampling_rate (snd r4)) (fun r5 =>
  rbind (bio_step (eog_process nk) (ch_eog ch) sampling_rate (snd r5)) (fun r6 =>
  let bio_df :=
    match ch_keep ch with
    | Some keep => pd_concat pd (fst (snd r6)) (reset_index pd keep)
    | None => fst (snd r6)
    end in
  let bio_info := snd (snd r6) in
  rbind (match fst r1, fst r2 with
         | Some ecg_signals, Some rsp_signals =>
             rbind (hrv_rsa nk ecg_signals rsp_signals sampling_rate) (fun rsa =>
             Ok (pd_concat pd bio_df rsa))
         | _, _ => Ok bio_df
         end) (fun bio_df =>
  Ok (bio_df, <["sampling_rate"%string := int_value nk sampling_rate]> bio_info)))))))).

(** What a channel contributes when it is there and its processing
    succeeds: the columns of its table and its information. *)
Definition channel_output (process : series -> Z -> result (frame * gmap string value))
    (channel : option series) (sampling_rate : Z) : option (frame * gmap string value) :=
  match channel with
  | None => None
  | Some x =>
      match rbind (as_vector nk x) (fun v => process v sampling_rate) with
      | Ok out => Some out
      | Raise _ => None
      end
  end.

Definition output_keys (out : option (frame * gmap string value)) : list string :=
  match out with
  | Some o => frame_keys pd (fst o)
  | None => []
  end.

Definition output_info (out : option (frame * gmap string value)) : gmap string value :=
  match out with
  | Some o => snd o
  | None => ∅
  end.

End BioProcess.

Arguments column_if_present {series frame} pd data name.
Arguments bio_unpack {series frame} pd ecg rsp eda emg ppg eog keep.
Arguments bio_step {series frame value} pd nk process channel sampling_rate state.
Arguments bio_process {series frame value} pd nk ecg rsp eda emg ppg eog keep sampling_rate.
Arguments channel_output {series frame value} nk process channel sampling_rate.
Arguments output_keys {series frame value} pd out.
Arguments output_info {frame value} out.

(** [bio_df] and [bio_info] after the block of a channel whose output is
    [out]. *)
Definition bio_after {series frame value : Type} (pd : pandas series frame)
    (out : option (frame * gmap string value)) (state : frame * gmap string value)
    : frame * gmap string value :=
  match out with
  | Some o => (pd_concat pd (fst state) (fst o), snd o ∪ snd state)
  | None => state
  end.

(** The RSA table, when both the ECG and the RSP tables are there. *)
Definition rsa_output {series frame value : Type} (nk : processors series frame value)
    (ecg_out rsp_out : option (frame * gmap string value)) (sampling_rate : Z)
    : option (result frame) :=
  match ecg_out, rsp_out with
  | Some e, Some r => Some (hrv_rsa nk (fst e) (fst r) sampling_rate)
  | _, _ => None
  end.

(** *** Sample tables and processors

    Tables as association lists of columns of integers. *)
Definition sample_pandas : pandas (list Z) (list (string * list Z)) :=
  {| frame_keys := map fst;
     frame_column := fun data name =>
       match List.find (fun c => String.eqb name (fst c)) data with
       | Some c => snd c
       | None => []
       end;
     frame_select := fun data names =>
       List.filter (fun c => method_in (fst c) names) data;
     reset_index := fun keep => keep;
     pd_concat := fun a b => a ++ b;
     empty_frame := [] |}.

Definition sample_process (label : string) (x : list Z) (sampling_rate : Z)
    : result (list (string * list Z) * gmap string Z) :=
  match x with
  | [] => Raise ValueError
  | _ :: _ =>
      Ok ([(label, x)],
          <["sampling_rate"%string := 0]> {[ label := Z.of_nat (length x) ]})
  end.

Definition sample_processors : processors (list Z) (list (string * list Z)) Z :=
  {| as_vector := fun x => Ok x;
     ecg_process := sample_process "ECG_Clean";
     rsp_process := sample_process "RSP_Clean";
     eda_process := sample_process "EDA_Clean";
     emg_process := sample_process "EMG_Clean";
     ppg_process := sample_process "PPG_Clean";
     eog_process := sample_process "EOG_Clean";
     hrv_rsa := fun e r _ => Ok [("RSA_P2T"%string, [0])];
     int_value := fun z => z |}.

Definition sample_table : list (string * list Z) :=
  [("EKG", [1; 2]); ("Photosensor", [5; 6]); ("RSP", [3; 4]); ("ECG", [7; 8])]%string.

(** * Properties *)

(** Closed equations between values that hold rationals: both sides are
    evaluated and the rationals compared as fractions. *)
Ltac same_values :=
  vm_compute;
  repeat first [ apply Qc_is_canon; reflexivity | reflexivity | progress f_equal ].

(** ** Numbers: reflection of the boolean tests *)

Lemma Qc_eqb_true (x y : Qc) : Qc_eqb x y = true <-> x = y.
Proof.
  unfold Qc_eqb. rewrite Qeq_bool_iff. split.
  - apply Qc_is_canon.
  - intros ->. reflexivity.
Qed.

Lemma Qc_eqb_false (x y : Qc) : Qc_eqb x y = false <-> x <> y.
Proof.
  rewrite <- Qc_eqb_true. destruct (Qc_eqb x y); split; congruence.
Qed.

Lemma Qc_ltb_true (x y : Qc) : Qc_ltb x y = true <-> (x < y)%Qc.
Proof.
  unfold Qc_ltb, Qclt. rewrite negb_true_iff.
  split.
  - intros H. apply Qnot_le_lt. intros Hle.
    apply Qle_bool_iff in Hle. congruence.
  - intros H. destruct (Qle_bool y x) eqn:E; [|reflexivity].
    apply Qle_bool_iff in E. exfalso. exact (Qlt_not_le _ _ H E).
Qed.

Lemma Qc_ltb_false (x y : Qc) : Qc_ltb x y = false <-> (y <= x)%Qc.
Proof.
  unfold Qc_ltb, Qcle. rewrite negb_false_iff. apply Qle_bool_iff.
Qed.

Lemma py_div_ok (x y : Qc) : y <> 0%Qc -> py_div x y = Ok (x / y)%Qc.
Proof.
  intros H. unfold py_div. apply Qc_eqb_false in H. now rewrite H.
Qed.

Lemma py_div_zero (x : Qc) : py_div x 0%Qc = Raise ZeroDivisionError.
Proof. reflexivity. Qed.

Lemma np_divide_fin (x y : Qc) : y <> 0%Qc -> np_divide x y = Fin (x / y)%Qc.
Proof.
  intros H. unfold np_divide. apply Qc_eqb_false in H. now rewrite H.
Qed.

(** ** The dispatcher *)

Section DispatcherProperties.

Variable cvxopt_installed : bool.
Variable solvers_qp : options -> qp_problem -> solver_outcome.
Variable solvers_conelp : options -> cone_problem -> solver_outcome.
Variable signal_smooth : vec -> string -> Z -> result vec.
Variable signal_filter : vec -> Z -> option Qc -> option Qc -> string -> result vec.

Local Abbreviation decompose :=
  (eda_decompose cvxopt_installed solvers_qp solvers_conelp signal_smooth signal_filter).

Lemma method_in_In (m : string) (names : list string) :
  method_in m names = true <-> In m names.
Proof.
  unfold method_in. rewrite existsb_exists. split.
  - intros (x & Hx & Heq). apply String.eqb_eq in Heq. now subst.
  - intros H. exists m. split; [exact H | apply String.eqb_refl].
Qed.

Lemma method_not_in (m : string) (names : list string) :
  ~ In m names -> method_in m names = false.
Proof.
  intros H. destruct (method_in m names) eqn:E; [|reflexivity].
  apply method_in_In in E. contradiction.
Qed.

(** C4.  A method name made of ASCII characters that is none of the six
    recognised ones after lower-casing makes [eda_decompose] raise
    [ValueError] (the InvalidArgument kind).  Nothing else happens: the
    outcome is the same for every signal, sampling rate, backend and
    solver, no table is returned and the solver options are left as they
    were. *)
Theorem unknown_method_raises (eda_signal : vec) (sampling_rate : Z)
    (method : string) (opts : options) :
  ascii_only method = true ->
  ~ In (lower method) known_methods ->
  decompose eda_signal sampling_rate method opts = (Raise ValueError, opts)
  /\ kind_of ValueError = Some InvalidArgument.
Proof.
  intros _ Hnot. split; [|reflexivity].
  unfold decompose, eda_decompose.
  assert (Hc : String.eqb (lower method) "cvxeda" = false).
  { apply String.eqb_neq. intros E. apply Hnot. rewrite E. simpl. auto. }
  rewrite Hc.
  rewrite (method_not_in (lower method) ["median"; "smoothmedian"]%string).
  2:{ intros [E|[E|[]]]; apply Hnot; rewrite <- E; simpl; auto. }
  rewrite (method_not_in (lower method) ["highpass"; "biopac"; "acqknowledge"]%string).
  2:{ intros [E|[E|[E|[]]]]; apply Hnot; rewrite <- E; simpl; auto 7. }
  reflexivity.
Qed.

End DispatcherProperties.

(** [unknown_method_raises] at the method name of scenario 4. *)
Lemma unknown_method_raises_witness :
  ascii_only "unknown_method" = true
  /\ ~ In (lower "unknown_method") known_methods
  /\ (eda_decompose true qp_converges conelp_stalls smooth_flat filter_crude
        sample_signal 1000 "unknown_method" ∅ = (Raise ValueError, ∅)
      /\ kind_of ValueError = Some InvalidArgument).
Proof.
  assert (Ha : ascii_only "unknown_method" = true) by reflexivity.
  assert (H : ~ In (lower "unknown_method") known_methods).
  { simpl. intros [E|[E|[E|[E|[E|[E|[]]]]]]]; discriminate E. }
  split; [exact Ha|]. split; [exact H|].
  exact (unknown_method_raises true qp_converges conelp_stalls smooth_flat filter_crude
           sample_signal 1000 "unknown_method" ∅ Ha H).
Defined.

(** ** The filter-based methods *)

Lemma length_zip_with_eq {A B C : Type} (f : A -> B -> C) (a : list A) (b : list B) :
  length a = length b -> length (zip_with f a b) = length a.
Proof.
  revert b. induction a as [|x a IH]; intros [|y b] H; simpl in *; try congruence.
  f_equal. apply IH. congruence.
Qed.


Section FilterProperties.

Variable cvxopt_installed : bool.
Variable solvers_qp : options -> qp_problem -> solver_outcome.
Variable solvers_conelp : options -> cone_problem -> solver_outcome.
Variable signal_smooth : vec -> string -> Z -> result vec.
Variable signal_filter : vec -> Z -> option Qc -> option Qc -> string -> result vec.

Local Abbreviation decompose :=
  (eda_decompose cvxopt_installed solvers_qp solvers_conelp signal_smooth signal_filter).

Lemma np_subtract_same_length (a b : vec) :
  length a = length b -> np_subtract a b = Ok (zip_with fsub a b).
Proof.
  intros H. unfold np_subtract. rewrite H, Nat.eqb_refl. reflexivity.
Qed.

Lemma pd_DataFrame_ok (tonic phasic : vec) :
  length tonic = length phasic ->
  pd_DataFrame tonic phasic =
    Ok [("EDA_Tonic"%string, tonic); ("EDA_Phasic"%string, phasic)].
Proof.
  intros H. unfold pd_DataFrame. rewrite H, Nat.eqb_refl. reflexivity.
Qed.

(** The median variant for any smoothing factor: the smoother is asked for
    a median kernel of [smoothing_factor * sampling_rate] samples, its
    output is the tonic column, and the phasic column is the signal minus
    that output, sample by sample. *)
Lemma mediansmooth_result (eda_signal tonic : vec) (sampling_rate smoothing_factor : Z) :
  signal_smooth eda_signal "median" (smoothing_factor * sampling_rate) = Ok tonic ->
  length tonic = length eda_signal ->
  _eda_decompose_mediansmooth signal_smooth eda_signal sampling_rate smoothing_factor =
    Ok [("EDA_Tonic"%string, tonic);
        ("EDA_Phasic"%string, zip_with fsub eda_signal tonic)].
Proof.
  intros Hs Hlen. unfold _eda_decompose_mediansmooth. rewrite Hs. simpl.
  rewrite np_subtract_same_length by congruence. simpl.
  apply pd_DataFrame_ok.
  rewrite length_zip_with_eq; congruence.
Qed.

(** C9.  With a median-variant method name, the tonic column is what the
    median smoother returns for a window of [4 * sampling_rate] samples
    (in general [smoothing_factor * sampling_rate]), and every phasic
    sample is the signal sample minus the tonic sample. *)
Theorem median_variant_result (eda_signal tonic : vec) (sampling_rate : Z)
    (method : string) (opts : options) :
  In (lower method) ["median"; "smoothmedian"]%string ->
  signal_smooth eda_signal "median" (4 * sampling_rate) = Ok tonic ->
  length tonic = length eda_signal ->
  decompose eda_signal sampling_rate method opts =
    (Ok [("EDA_Tonic"%string, tonic);
         ("EDA_Phasic"%string, zip_with fsub eda_signal tonic)], opts)
  /\ (forall smoothing_factor tonic',
        signal_smooth eda_signal "median" (smoothing_factor * sampling_rate) = Ok tonic' ->
        length tonic' = length eda_signal ->
        _eda_decompose_mediansmooth signal_smooth eda_signal sampling_rate
          smoothing_factor =
          Ok [("EDA_Tonic"%string, tonic');
              ("EDA_Phasic"%string, zip_with fsub eda_signal tonic')]).
Proof.
  intros Hm Hs Hlen. split.
  - unfold decompose, eda_decompose.
    assert (Hc : String.eqb (lower method) "cvxeda" = false).
    { apply String.eqb_neq. intros E. rewrite E in Hm.
      destruct Hm as [H|[H|[]]]; discriminate H. }
    rewrite Hc.
    apply method_in_In in Hm. rewrite Hm.
    unfold default_smoothing_factor.
    now rewrite (mediansmooth_result eda_signal tonic sampling_rate 4 Hs Hlen).
  - intros k t Ht Hl. now apply mediansmooth_result.
Qed.

(** The filter variant: both columns are outputs of the filter applied to
    the raw signal, the tonic one with [highcut = 0.05] and the phasic one
    with [lowcut = 0.05]. *)
Lemma highpass_result (eda_signal tonic phasic : vec) (sampling_rate : Z) :
  signal_filter eda_signal sampling_rate (Some cutoff) None "butter" = Ok phasic ->
  signal_filter eda_signal sampling_rate None (Some cutoff) "butter" = Ok tonic ->
  length tonic = length phasic ->
  _eda_decompose_highpass signal_filter eda_signal sampling_rate =
    Ok [("EDA_Tonic"%string, tonic); ("EDA_Phasic"%string, phasic)].
Proof.
  intros Hp Ht Hlen. unfold _eda_decompose_highpass. rewrite Hp. simpl.
  rewrite Ht. simpl. now apply pd_DataFrame_ok.
Qed.

(** C8, as amended.  With a filter-variant method name, Tonic is the
    low-pass output (cut-off 0.05 Hz) and Phasic is the high-pass output
    (same cut-off), each computed from the raw signal; Phasic equals
    Signal - Tonic exactly when the two filter outputs add up to the
    signal, which the code does not enforce. *)
Theorem filter_variant_result (eda_signal tonic phasic : vec) (sampling_rate : Z)
    (method : string) (opts : options) :
  In (lower method) ["highpass"; "biopac"; "acqknowledge"]%string ->
  signal_filter eda_signal sampling_rate (Some (Q2Qc (5 # 100))) None "butter" = Ok phasic ->
  signal_filter eda_signal sampling_rate None (Some (Q2Qc (5 # 100))) "butter" = Ok tonic ->
  length tonic = length phasic ->
  decompose eda_signal sampling_rate method opts =
    (Ok [("EDA_Tonic"%string, tonic); ("EDA_Phasic"%string, phasic)], opts).
Proof.
  intros Hm Hp Ht Hlen. unfold decompose, eda_decompose.
  assert (Hc : String.eqb (lower method) "cvxeda" = false).
  { apply String.eqb_neq. intros E. rewrite E in Hm.
    destruct Hm as [H|[H|[H|[]]]]; discriminate H. }
  rewrite Hc.
  rewrite (method_not_in (lower method) ["median"; "smoothmedian"]%string).
  2:{ intros [E|[E|[]]]; rewrite <- E in Hm;
      destruct Hm as [H|[H|[H|[]]]]; discriminate H. }
  apply method_in_In in Hm. rewrite Hm.
  now rewrite (highpass_result eda_signal tonic phasic sampling_rate Hp Ht Hlen).
Qed.

End FilterProperties.

(** ** Shapes of the model matrices *)

Lemma length_arange (a b : Z) : length (arange a b) = Z.to_nat (b - a).
Proof. unfold arange. now rewrite length_map, length_seq. Qed.

Lemma length_sp_mat (A : spmatrix) : length (sp_mat A) = sp_rows A.
Proof. unfold sp_mat. now rewrite length_map, length_seq. Qed.

Lemma length_trend_matrix (n : nat) : length (trend_matrix n) = n.
Proof. unfold trend_matrix. rewrite length_map, length_arange. lia. Qed.

Lemma mcols_trend_matrix (n : nat) : (1 <= n)%nat -> mcols (trend_matrix n) = 2%nat.
Proof.
  intros Hn. unfold trend_matrix, arange.
  replace (Z.to_nat (Z.of_nat n + 1 - 1)) with (S (n - 1)) by lia.
  reflexivity.
Qed.

Lemma mat_vec_ok (k : nat) (m : mat) (x : vec) :
  k = length x ->
  mat_vec k m x = Ok (times m x).
Proof. intros ->. unfold mat_vec. now rewrite Nat.eqb_refl. Qed.

Lemma arma_matrix_inv (taps : list fp) (n : nat) (A : spmatrix) :
  arma_matrix taps n = Ok A ->
  (2 <= n)%nat /\ sp_rows A = n /\ sp_cols A = n.
Proof.
  unfold arma_matrix, np_tile. destruct (Z.of_nat n - 2 <? 0) eqn:E; simpl.
  - discriminate.
  - intros H. injection H as <-. simpl. apply Z.ltb_ge in E. lia.
Qed.

Lemma arma_matrix_ok (taps : list fp) (n : nat) :
  (2 <= n)%nat -> exists A, arma_matrix taps n = Ok A.
Proof.
  intros Hn. unfold arma_matrix, np_tile.
  destruct (Z.of_nat n - 2 <? 0) eqn:E.
  - apply Z.ltb_lt in E. lia.
  - simpl. eauto.
Qed.

Lemma length_times (m : mat) (x : vec) : length (times m x) = length m.
Proof. unfold times. apply length_map. Qed.

Lemma sp_mul_vec_ok (A : spmatrix) (x : vec) :
  sp_cols A = length x -> sp_mul_vec A x = Ok (times (sp_mat A) x).
Proof. intros H. unfold sp_mul_vec. now apply mat_vec_ok. Qed.

Lemma vec_add_ok (a b : vec) :
  length a = length b -> vec_add a b = Ok (zip_with fadd a b).
Proof. intros H. unfold vec_add. now rewrite H, Nat.eqb_refl. Qed.

Lemma vec_sub_ok (a b : vec) :
  length a = length b -> vec_sub a b = Ok (zip_with fsub a b).
Proof. intros H. unfold vec_sub. now rewrite H, Nat.eqb_refl. Qed.


Lemma slice_last_drop (k : nat) (x : vec) (n : nat) :
  (1 <= k)%nat -> length x = (n + k)%nat -> slice_last k x = drop n x.
Proof.
  intros Hk Hx. unfold slice_last.
  destruct (Nat.eqb_spec k 0); [lia|].
  f_equal. lia.
Qed.

(** The cone program has two auxiliary variables between the trend and the
    spline coefficients; [x[-nB:]] skips them. *)
Lemma slice_last_cone (m : cvx_model) (x : vec) :
  (1 <= mdl_nB m)%nat ->
  length x = (mdl_n m + 2 + 2 + mdl_nB m)%nat ->
  slice_last (mdl_nB m) x = drop (mdl_n m + 4) x.
Proof. intros HnB Hx. apply slice_last_drop; [exact HnB | lia]. Qed.

Lemma cvxeda_decode_ok (m : cvx_model) (eda x : vec) :
  well_shaped m ->
  length eda = mdl_n m ->
  length x = (mdl_n m + 2 + mdl_nB m)%nat ->
  cvxeda_decode m eda x = Ok (decoded_from m eda x).
Proof.
  intros [Hn [HA1 HA2] [HM1 HM2] [HB1 HB2] HnB HC HnC _] Heda Hx.
  unfold cvxeda_decode, decoded_from.
  rewrite HnC.
  rewrite (slice_last_drop (mdl_nB m) x (mdl_n m + 2)) by lia.
  unfold slice.
  replace (mdl_n m + 2 - mdl_n m)%nat with 2%nat by lia.
  rewrite Nat.sub_0_r. rewrite drop_0.
  rewrite sp_mul_vec_ok by (rewrite length_drop; lia). simpl.
  rewrite mat_vec_ok by (rewrite length_take, length_drop; lia). simpl.
  rewrite vec_add_ok by (rewrite !length_times, length_sp_mat; congruence). simpl.
  rewrite sp_mul_vec_ok by (rewrite length_take; lia). simpl.
  rewrite sp_mul_vec_ok by (rewrite length_take; lia). simpl.
  rewrite vec_sub_ok by (rewrite length_times, length_sp_mat; congruence). simpl.
  rewrite vec_sub_ok.
  2:{ rewrite !length_zip_with_eq; rewrite ?length_times, ?length_sp_mat; congruence. }
  reflexivity.
Qed.

(** ** The spline kernel *)

Lemma rev_map_seq {A : Type} (f : nat -> A) (n : nat) :
  rev (map f (seq 0 n)) = map (fun k => f (n - 1 - k)%nat) (seq 0 n).
Proof.
  induction n as [|n IH].
  - reflexivity.
  - rewrite seq_S at 1. rewrite map_app, rev_app_distr. simpl rev.
    simpl app. rewrite IH. simpl seq. simpl map.
    f_equal.
    + f_equal. lia.
    + rewrite <- seq_shift, map_map. apply map_ext_in.
      intros k Hk. f_equal. lia.
Qed.

Lemma qsum_app (l k : list Qc) : qsum (l ++ k) = (qsum l + qsum k)%Qc.
Proof.
  induction l as [|x l IH]; simpl.
  - now rewrite Qcplus_0_l.
  - rewrite IH. ring.
Qed.

Lemma qsum_rev (l : list Qc) : qsum (rev l) = qsum l.
Proof.
  induction l as [|x l IH]; simpl; [reflexivity|].
  rewrite qsum_app, IH. simpl. ring.
Qed.

Lemma qsum_zero (l : list Qc) : (forall x, In x l -> x = 0%Qc) -> qsum l = 0%Qc.
Proof.
  induction l as [|x l IH]; intros H; simpl; [reflexivity|].
  rewrite IH by (intros; apply H; now right).
  rewrite (H x) by now left. ring.
Qed.

Lemma length_convolution (a v : list Qc) :
  length (convolution a v) = (length a + length v - 1)%nat.
Proof. unfold convolution. now rewrite length_map, length_seq. Qed.

Lemma nth_convolution (a v : list Qc) (k : nat) :
  (k < length a + length v - 1)%nat ->
  nth k (convolution a v) 0%Qc =
    qsum (map (fun m => (nth m a 0 * at_or_zero v (Z.of_nat k - Z.of_nat m))%Qc)
              (seq 0 (length a))).
Proof.
  intros Hk. unfold convolution.
  set (F := fun k : nat => qsum _).
  rewrite (nth_indep _ 0%Qc (F O)) by now rewrite length_map, length_seq.
  rewrite (map_nth F). now rewrite seq_nth.
Qed.

Lemma nth_palindrome (a : list Qc) (m : nat) :
  rev a = a -> (m < length a)%nat ->
  nth (length a - 1 - m) a 0%Qc = nth m a 0%Qc.
Proof.
  intros Hrev Hm. rewrite <- Hrev at 3.
  rewrite rev_nth by exact Hm. f_equal. lia.
Qed.

Lemma at_or_zero_palindrome (a : list Qc) (j : Z) :
  rev a = a ->
  at_or_zero a (Z.of_nat (length a) - 1 - j) = at_or_zero a j.
Proof.
  intros Hrev. unfold at_or_zero.
  destruct ((0 <=? j) && (j <? Z.of_nat (length a))) eqn:E.
  - apply andb_true_iff in E as [E1 E2].
    apply Z.leb_le in E1. apply Z.ltb_lt in E2.
    replace ((0 <=? _) && (_ <? _)) with true.
    2:{ symmetry. apply andb_true_iff. split; [apply Z.leb_le | apply Z.ltb_lt]; lia. }
    replace (Z.to_nat (Z.of_nat (length a) - 1 - j))
      with (length a - 1 - Z.to_nat j)%nat by lia.
    apply nth_palindrome; [exact Hrev | lia].
  - replace ((0 <=? _) && (_ <? _)) with false; [reflexivity|].
    symmetry. apply andb_false_iff.
    apply andb_false_iff in E as [E|E].
    + apply Z.leb_gt in E. right. apply Z.ltb_ge. lia.
    + apply Z.ltb_ge in E. left. apply Z.leb_gt. lia.
Qed.

(** The self-convolution of a palindrome is a palindrome. *)
Lemma convolution_palindrome (a : list Qc) :
  rev a = a -> rev (convolution a a) = convolution a a.
Proof.
  intros Hrev.
  apply (nth_ext _ _ 0%Qc 0%Qc).
  - now rewrite length_rev.
  - intros k Hk. rewrite length_rev in Hk.
    rewrite rev_nth by exact Hk.
    rewrite length_convolution in *.
    rewrite !nth_convolution by lia.
    rewrite <- qsum_rev, <- map_rev.
    rewrite <- (map_id (seq 0 (length a))) at 1.
    rewrite rev_map_seq, map_map.
    f_equal. apply map_ext_in. intros m Hm. apply in_seq in Hm.
    rewrite nth_palindrome by (exact Hrev || lia).
    f_equal.
    rewrite <- (at_or_zero_palindrome a (Z.of_nat k - Z.of_nat m)) by exact Hrev.
    f_equal. lia.
Qed.

Lemma arange_down_rev (s : Z) :
  1 <= s -> arange_down s = s :: rev (arange 1 s).
Proof.
  intros Hs. unfold arange_down, arange.
  rewrite rev_map_seq.
  replace (Z.to_nat s) with (S (Z.to_nat (s - 1))) by lia.
  simpl seq. simpl map. f_equal; [lia|].
  rewrite <- seq_shift, map_map. apply map_ext_in.
  intros k Hk. apply in_seq in Hk. lia.
Qed.

Lemma order1_spline_palindrome (s : Z) :
  1 <= s -> rev (order1_spline s) = order1_spline s.
Proof.
  intros Hs. unfold order1_spline.
  rewrite <- map_rev. f_equal.
  rewrite (arange_down_rev s Hs).
  rewrite rev_app_distr. simpl. rewrite rev_involutive.
  now rewrite <- app_assoc.
Qed.

Lemma length_order1_spline (s : Z) :
  1 <= s -> length (order1_spline s) = Z.to_nat (2 * s - 1).
Proof.
  intros Hs. unfold order1_spline, arange_down.
  rewrite length_map, length_app, length_arange, length_map, length_seq. lia.
Qed.

Lemma order1_spline_empty (s : Z) : s <= 0 -> order1_spline s = [].
Proof.
  intros Hs. unfold order1_spline, arange, arange_down.
  replace (Z.to_nat (s - 1)) with O by lia.
  replace (Z.to_nat s) with O by lia. reflexivity.
Qed.

(** The order-1 spline is the tent [1, 2, ..., s, ..., 2, 1]. *)
Lemma nth_order1_spline (s : Z) (i : nat) :
  1 <= s -> (i < Z.to_nat (2 * s - 1))%nat ->
  nth i (order1_spline s) 0%Qc =
    Qc_of_int (Z.min (Z.of_nat i + 1) (2 * s - 1 - Z.of_nat i)).
Proof.
  intros Hs Hi. unfold order1_spline.
  rewrite (nth_indep _ 0%Qc (Qc_of_int 0)).
  2:{ rewrite length_map, length_app, length_arange.
      unfold arange_down. rewrite length_map, length_seq. lia. }
  rewrite (map_nth Qc_of_int). f_equal.
  destruct (Nat.lt_ge_cases i (Z.to_nat (s - 1))) as [Hlt|Hge].
  - rewrite app_nth1 by (rewrite length_arange; lia).
    unfold arange.
    rewrite (nth_indep _ 0 (1 + Z.of_nat 0)) by (rewrite length_map, length_seq; lia).
    rewrite (map_nth (fun k => 1 + Z.of_nat k)), seq_nth by lia. lia.
  - rewrite app_nth2 by (rewrite length_arange; lia).
    rewrite length_arange. unfold arange_down.
    rewrite (nth_indep _ 0 (s - Z.of_nat 0)) by (rewrite length_map, length_seq; lia).
    rewrite (map_nth (fun k => s - Z.of_nat k)), seq_nth by lia. lia.
Qed.

Lemma py_max_list_ge_acc (tl : list Qc) (hd : Qc) : (hd <= py_max_list hd tl)%Qc.
Proof.
  unfold py_max_list. revert hd.
  induction tl as [|x tl IH]; intros hd; simpl.
  - apply Qcle_refl.
  - destruct (Qc_ltb hd x) eqn:E.
    + apply Qc_ltb_true in E. eapply Qcle_trans; [apply Qclt_le_weak, E | apply IH].
    + apply IH.
Qed.

Lemma py_max_list_upper (tl : list Qc) (hd x : Qc) :
  In x (hd :: tl) -> (x <= py_max_list hd tl)%Qc.
Proof.
  unfold py_max_list. revert hd.
  induction tl as [|y tl IH]; intros hd [<-|Hin]; simpl.
  - apply Qcle_refl.
  - destruct Hin.
  - apply (py_max_list_ge_acc (y :: tl) hd).
  - destruct (Qc_ltb hd y) eqn:E.
    + apply IH. destruct Hin as [<-|Hin]; [now left | now right].
    + destruct Hin as [<-|Hin].
      * apply Qc_ltb_false in E.
        eapply Qcle_trans; [exact E | apply (py_max_list_ge_acc tl hd)].
      * apply IH. now right.
Qed.

Lemma py_max_list_in (tl : list Qc) (hd : Qc) : In (py_max_list hd tl) (hd :: tl).
Proof.
  unfold py_max_list. revert hd.
  induction tl as [|y tl IH]; intros hd; simpl.
  - now left.
  - destruct (Qc_ltb hd y).
    + right. apply IH.
    + destruct (IH hd) as [H|H]; [left | right; right]; exact H.
Qed.

Lemma Qc_of_int_1 : Qc_of_int 1 = 1%Qc.
Proof. apply Qc_is_canon. reflexivity. Qed.

Lemma hd_order1_spline (s : Z) : 1 <= s -> nth 0 (order1_spline s) 0%Qc = 1%Qc.
Proof.
  intros Hs. rewrite nth_order1_spline by lia.
  replace (Z.min _ _) with 1 by lia. apply Qc_of_int_1.
Qed.

(** The first sample of a self-convolution is the square of the first
    sample. *)
Lemma hd_convolution (a : list Qc) :
  a <> [] -> nth 0 (convolution a a) 0%Qc = (nth 0 a 0 * nth 0 a 0)%Qc.
Proof.
  intros Ha. destruct a as [|x a]; [congruence|].
  rewrite nth_convolution by (simpl; lia).
  simpl length. simpl seq. simpl map. simpl qsum.
  rewrite qsum_zero.
  - unfold at_or_zero. simpl. apply Qcplus_0_r.
  - intros y Hy. apply in_map_iff in Hy as (m & <- & Hm).
    apply in_seq in Hm. unfold at_or_zero.
    replace (0 <=? Z.of_nat 0 - Z.of_nat m) with false.
    + cbn [andb]. apply Qcmult_0_r.
    + symmetry. apply Z.leb_gt. lia.
Qed.

Lemma Qcdiv_le_1 (v m : Qc) : (0 < m)%Qc -> (v <= m)%Qc -> (v / m <= 1)%Qc.
Proof.
  intros Hm Hv.
  apply (Qcmult_lt_0_le_reg_r _ _ m Hm).
  assert (Hne : m <> 0%Qc).
  { intros E. rewrite E in Hm. exact (Qclt_not_eq _ _ Hm eq_refl). }
  unfold Qcdiv. rewrite <- Qcmult_assoc, Qcmult_inv_l by exact Hne.
  now rewrite Qcmult_1_r, Qcmult_1_l.
Qed.

Lemma Qcdiv_same (m : Qc) : m <> 0%Qc -> (m / m)%Qc = 1%Qc.
Proof. intros H. unfold Qcdiv. now apply Qcmult_inv_r. Qed.

(** Dividing by the largest sample, when the first sample is positive:
    every sample becomes a finite value at most 1, and the value 1 is
    reached. *)
Lemma normalise_peak (hd : Qc) (tl : list Qc) :
  (0 < hd)%Qc ->
  let m := py_max_list hd tl in
  normalise (hd :: tl) = map (fun v => Fin (v / m)%Qc) (hd :: tl)
  /\ Forall is_fin_le_1 (normalise (hd :: tl))
  /\ In (Fin 1%Qc) (normalise (hd :: tl)).
Proof.
  intros Hhd m.
  assert (Hm : (0 < m)%Qc).
  { eapply Qclt_le_trans; [exact Hhd | apply py_max_list_ge_acc]. }
  assert (Hne : m <> 0%Qc).
  { intros E. rewrite E in Hm. exact (Qclt_not_eq _ _ Hm eq_refl). }
  assert (Hnorm : normalise (hd :: tl) = map (fun v => Fin (v / m)%Qc) (hd :: tl)).
  { unfold normalise. apply map_ext. intros v. now apply np_divide_fin. }
  split; [exact Hnorm|]. rewrite Hnorm. split.
  - apply List.Forall_forall. intros x Hx. apply in_map_iff in Hx as (v & <- & Hv).
    exists (v / m)%Qc. split; [reflexivity|].
    apply Qcdiv_le_1; [exact Hm | now apply py_max_list_upper].
  - apply in_map_iff. exists m. split.
    + now rewrite Qcdiv_same.
    + apply py_max_list_in.
Qed.

Lemma normalise_rev (l : list Qc) : rev l = l -> rev (normalise l) = normalise l.
Proof.
  intros Hrev. destruct l as [|hd tl]; [reflexivity|].
  unfold normalise. now rewrite <- map_rev, Hrev.
Qed.

Lemma length_normalise (l : list Qc) : length (normalise l) = length l.
Proof. destruct l; [reflexivity|]. unfold normalise. apply length_map. Qed.

Lemma spline_kernel_ok (s : Z) :
  1 <= s ->
  spline_kernel s = Ok (normalise (convolution (order1_spline s) (order1_spline s))).
Proof.
  intros Hs. unfold spline_kernel, np_convolve.
  pose proof (length_order1_spline s Hs) as Hlen.
  destruct (order1_spline s) as [|x l] eqn:E.
  - simpl in Hlen. lia.
  - reflexivity.
Qed.

Lemma spline_kernel_inv (s : Z) (k : list fp) :
  spline_kernel s = Ok k ->
  1 <= s /\ length k = Z.to_nat (4 * s - 3).
Proof.
  intros H. destruct (Z.le_gt_cases 1 s) as [Hs|Hs].
  - split; [exact Hs|]. rewrite spline_kernel_ok in H by exact Hs.
    injection H as <-.
    rewrite length_normalise, length_convolution, length_order1_spline by exact Hs.
    lia.
  - unfold spline_kernel in H. rewrite order1_spline_empty in H by lia.
    discriminate H.
Qed.

(** ** The matrix of spline regressors *)

Lemma zmax_list_upper (l : list Z) (x : Z) : In x l -> x <= zmax_list l.
Proof.
  unfold zmax_list. induction l as [|y l IH]; intros Hin; [destruct Hin|].
  simpl. destruct Hin as [<-|Hin]; [lia|]. specialize (IH Hin). lia.
Qed.

Lemma zmax_list_bound (l : list Z) (m : Z) :
  -1 <= m -> (forall x, In x l -> x <= m) -> zmax_list l <= m.
Proof.
  unfold zmax_list. intros Hm. induction l as [|y l IH]; intros H; simpl; [lia|].
  assert (y <= m) by (apply H; now left).
  assert (fold_right Z.max (-1) l <= m) by (apply IH; intros; apply H; now right).
  lia.
Qed.

Lemma zmax_list_eq (l : list Z) (m : Z) :
  -1 <= m -> (forall x, In x l -> x <= m) -> In m l -> zmax_list l = m.
Proof.
  intros Hm Hall Hin.
  pose proof (zmax_list_upper l m Hin). pose proof (zmax_list_bound l m Hm Hall). lia.
Qed.

Lemma length_arange_step (n s : Z) :
  length (arange_step n s) = Z.to_nat ((n + s - 1) / s).
Proof. unfold arange_step. now rewrite length_map, length_seq. Qed.

(** The number of knots is the ceiling of [n / s]. *)
Lemma knots_ceiling (n s : Z) :
  1 <= s -> 1 <= n ->
  let q := (n + s - 1) / s in
  1 <= q /\ (q - 1) * s <= n - 1 /\ n <= q * s.
Proof.
  intros Hs Hn q.
  pose proof (Z.div_mod (n + s - 1) s ltac:(lia)) as Hdm.
  pose proof (Z.mod_pos_bound (n + s - 1) s ltac:(lia)) as Hmod.
  fold q in Hdm. nia.
Qed.

Lemma nth_arange (a b : Z) (k : nat) :
  (k < Z.to_nat (b - a))%nat -> nth k (arange a b) 0 = a + Z.of_nat k.
Proof.
  intros Hk. unfold arange.
  rewrite (nth_indep _ 0 (a + Z.of_nat 0)) by (rewrite length_map, length_seq; lia).
  rewrite (map_nth (fun k => a + Z.of_nat k)), seq_nth by lia. reflexivity.
Qed.

Lemma nth_arange_step (n s : Z) (k : nat) :
  (k < Z.to_nat ((n + s - 1) / s))%nat ->
  nth k (arange_step n s) 0 = Z.of_nat k * s.
Proof.
  intros Hk. unfold arange_step.
  rewrite (nth_indep _ 0 (Z.of_nat 0 * s)) by (rewrite length_map, length_seq; lia).
  rewrite (map_nth (fun k => Z.of_nat k * s)), seq_nth by lia. reflexivity.
Qed.

(** Kernel tap [r] of the copy centred on knot [c] is one of the cells. *)
Lemma in_spline_cells (spl : list fp) (n : nat) (s : Z) (r c : nat) :
  (r < length spl)%nat ->
  (c < spline_nB n s)%nat ->
  In (- (Z.of_nat (length spl) / 2) + Z.of_nat r + Z.of_nat c * s,
      Z.of_nat c, nth r spl NaN)
     (spline_cells spl n s).
Proof.
  intros Hr Hc. unfold spline_cells. unfold spline_nB in Hc.
  set (len := Z.of_nat (length spl)) in *.
  set (offsets := arange (- (len / 2)) ((len + 1) / 2)).
  set (knots := arange_step (Z.of_nat n) s) in *.
  assert (Hoff : length offsets = length spl).
  { unfold offsets. rewrite length_arange. unfold len.
    Z.div_mod_to_equations. lia. }
  apply in_concat.
  exists (map (fun ck : nat * Z =>
                 (- (len / 2) + Z.of_nat r + snd ck, Z.of_nat (fst ck), nth r spl NaN))
              (combine (seq 0 (length knots)) knots)).
  split.
  - apply in_map_iff. exists (- (len / 2) + Z.of_nat r, nth r spl NaN).
    split; [reflexivity|].
    replace (- (len / 2) + Z.of_nat r, nth r spl NaN)
      with (nth r (combine offsets spl) (0, NaN)).
    + apply nth_In. rewrite length_combine, Hoff. lia.
    + rewrite combine_nth by exact Hoff. f_equal.
      unfold offsets. apply nth_arange. unfold len.
      Z.div_mod_to_equations. lia.
  - apply in_map_iff. exists (c, Z.of_nat c * s). split; [reflexivity|].
    replace (c, Z.of_nat c * s)
      with (nth c (combine (seq 0 (length knots)) knots) (O, 0)).
    + apply nth_In. rewrite length_combine, length_seq. lia.
    + rewrite combine_nth by apply length_seq.
      rewrite seq_nth by exact Hc. f_equal.
      unfold knots. apply nth_arange_step.
      unfold knots in Hc. now rewrite length_arange_step in Hc.
Qed.

Lemma spline_cells_column (spl : list fp) (n : nat) (s : Z) (cell : Z * Z * fp) :
  In cell (spline_cells spl n s) ->
  0 <= snd (fst cell) < Z.of_nat (spline_nB n s).
Proof.
  unfold spline_cells, spline_nB. intros H.
  apply in_concat in H as (row & Hrow & Hcell).
  apply in_map_iff in Hrow as (rp & <- & _).
  apply in_map_iff in Hcell as (ck & <- & Hck).
  destruct ck as [c k]. apply in_combine_l in Hck. apply in_seq in Hck.
  simpl. lia.
Qed.

(** The assembled matrix has one row per sample and one column per knot. *)
Lemma spline_matrix_shape (spl : list fp) (n : nat) (s : Z) :
  1 <= s -> (1 <= n)%nat -> length spl = Z.to_nat (4 * s - 3) ->
  sp_rows (spline_matrix spl n s) = n
  /\ sp_cols (spline_matrix spl n s) = spline_nB n s
  /\ spline_nB n s = Z.to_nat ((Z.of_nat n + s - 1) / s)
  /\ (1 <= spline_nB n s)%nat.
Proof.
  intros Hs Hn Hlen.
  destruct (knots_ceiling (Z.of_nat n) s Hs ltac:(lia)) as (Hq1 & Hq2 & Hq3).
  assert (HnB : spline_nB n s = Z.to_nat ((Z.of_nat n + s - 1) / s)).
  { unfold spline_nB. apply length_arange_step. }
  set (q := (Z.of_nat n + s - 1) / s) in *.
  set (c := (spline_nB n s - 1)%nat).
  set (r := Z.to_nat (Z.of_nat n - 1 - (q - 1) * s + (2 * s - 2))).
  assert (Hhalf : Z.of_nat (length spl) / 2 = 2 * s - 2).
  { rewrite Hlen. rewrite Z2Nat.id by lia.
    replace (4 * s - 3) with (1 + (2 * s - 2) * 2) by lia.
    rewrite Z.div_add by lia. reflexivity. }
  assert (Hcell : In (Z.of_nat n - 1, Z.of_nat c, nth r spl NaN) (spline_cells spl n s)).
  { replace (Z.of_nat n - 1)
      with (- (Z.of_nat (length spl) / 2) + Z.of_nat r + Z.of_nat c * s).
    - apply in_spline_cells; unfold r, c; lia.
    - rewrite Hhalf. unfold r, c. rewrite HnB.
      replace (Z.of_nat (Z.to_nat q - 1)) with (q - 1) by lia.
      rewrite Z2Nat.id by lia. lia. }
  set (kept := List.filter (valid_cell n) (spline_cells spl n s)).
  assert (Hkept : In (Z.of_nat n - 1, Z.of_nat c, nth r spl NaN) kept).
  { apply filter_In. split; [exact Hcell|].
    unfold valid_cell. simpl. apply andb_true_iff.
    split; [apply Z.leb_le | apply Z.ltb_lt]; lia. }
  assert (Hrows : zmax_list (map (fun c => fst (fst c)) kept) = Z.of_nat n - 1).
  { apply zmax_list_eq; [lia| |].
    - intros x Hx. apply in_map_iff in Hx as (cell & <- & Hin).
      apply filter_In in Hin as [_ Hv]. unfold valid_cell in Hv.
      apply andb_true_iff in Hv as [_ Hv]. apply Z.ltb_lt in Hv. lia.
    - apply in_map_iff. eexists. split; [|exact Hkept]. reflexivity. }
  assert (Hcols : zmax_list (map (fun c => snd (fst c)) kept) = Z.of_nat c).
  { apply zmax_list_eq; [lia| |].
    - intros x Hx. apply in_map_iff in Hx as (cell & <- & Hin).
      apply filter_In in Hin as [Hin _].
      apply spline_cells_column in Hin. unfold c. lia.
    - apply in_map_iff. eexists. split; [|exact Hkept]. reflexivity. }
  unfold spline_matrix. fold kept. simpl sp_rows. simpl sp_cols.
  rewrite Hrows, Hcols.
  repeat split; try (unfold c); lia.
Qed.

(** ** The model as a whole *)

Lemma Qcinv_nonzero (x : Qc) : x <> 0%Qc -> (1 / x)%Qc <> 0%Qc.
Proof.
  intros Hx E.
  assert (H : (x * (1 / x))%Qc = 1%Qc) by (field; exact Hx).
  rewrite E, Qcmult_0_r in H. discriminate H.
Qed.

Lemma Qc_of_int_nonzero (z : Z) : z <> 0 -> Qc_of_int z <> 0%Qc.
Proof.
  intros Hz E. apply Hz.
  assert (H : (Qc_of_int z : Q) == 0%Q) by now rewrite E.
  unfold Qc_of_int in H. simpl in H. rewrite Qred_correct in H.
  unfold Qeq in H. simpl in H. lia.
Qed.

Lemma py_div_inv (x y q : Qc) :
  py_div x y = Ok q -> y <> 0%Qc /\ q = (x / y)%Qc.
Proof.
  unfold py_div. destruct (Qc_eqb y 0) eqn:E; [discriminate|].
  intros H. injection H as <-. split; [|reflexivity]. now apply Qc_eqb_false.
Qed.

(** What a successfully built model consists of. *)
Lemma cvxeda_model_inv (eda_signal : vec) (sampling_rate : Z)
    (tau0 tau1 delta_knot : Qc) (m : cvx_model) :
  cvxeda_model eda_signal sampling_rate tau0 tau1 delta_knot = Ok m ->
  exists frequency ar spl,
    let n := length eda_signal in
    let s := py_round (delta_knot / frequency)%Qc in
    sampling_rate <> 0
    /\ frequency = (1 / Qc_of_int sampling_rate)%Qc
    /\ bateman_ar tau0 tau1 frequency = Ok ar
    /\ arma_matrix ar n = Ok (mdl_A m)
    /\ arma_matrix ma n = Ok (mdl_M m)
    /\ spline_kernel s = Ok spl
    /\ mdl_n m = n
    /\ mdl_B m = spline_matrix spl n s
    /\ mdl_nB m = spline_nB n s
    /\ mdl_C m = trend_matrix n
    /\ mdl_nC m = mcols (trend_matrix n).
Proof.
  unfold cvxeda_model. intros H.
  destruct (py_div 1 (Qc_of_int sampling_rate)) as [frequency|] eqn:Hf; [|discriminate].
  simpl in H.
  destruct (bateman_ar tau0 tau1 frequency) as [ar|] eqn:Har; [|discriminate].
  simpl in H.
  destruct (arma_matrix ar (length eda_signal)) as [A|] eqn:HA; [|discriminate].
  simpl in H.
  destruct (arma_matrix ma (length eda_signal)) as [Mm|] eqn:HM; [|discriminate].
  simpl in H.
  destruct (py_div delta_knot frequency) as [ks|] eqn:Hks; [|discriminate].
  simpl in H.
  destruct (spline_kernel (py_round ks)) as [spl|] eqn:Hspl; [|discriminate].
  simpl in H. injection H as <-.
  apply py_div_inv in Hf as [Hsr ->]. apply py_div_inv in Hks as [_ ->].
  exists (1 / Qc_of_int sampling_rate)%Qc, ar, spl. simpl.
  repeat split; try assumption; try reflexivity.
  intros ->. apply Hsr. apply Qc_is_canon. reflexivity.
Qed.

Lemma cvxeda_model_well_shaped (eda_signal : vec) (sampling_rate : Z)
    (tau0 tau1 delta_knot : Qc) (m : cvx_model) :
  cvxeda_model eda_signal sampling_rate tau0 tau1 delta_knot = Ok m ->
  well_shaped m /\ mdl_n m = length eda_signal.
Proof.
  intros H.
  destruct (cvxeda_model_inv _ _ _ _ _ _ H)
    as (frequency & ar & spl & Hsr & Hf & Har & HA & HM & Hspl & Hn & HB & HnB & HC & HnC).
  apply arma_matrix_inv in HA as (Hn2 & HA1 & HA2).
  apply arma_matrix_inv in HM as (_ & HM1 & HM2).
  apply spline_kernel_inv in Hspl as (Hs & Hlen).
  destruct (spline_matrix_shape spl (length eda_signal) _ Hs ltac:(lia) Hlen)
    as (HB1 & HB2 & _ & HB4).
  split; [|exact Hn].
  constructor; rewrite ?Hn, ?HB, ?HnB, ?HC, ?HnC; auto.
  - apply length_trend_matrix.
  - apply mcols_trend_matrix. lia.
Qed.

(** The model is built whenever the sampling rate and both time constants
    are non-zero, the signal has two samples or more and the knot spacing
    rounds to one sample or more: no other condition on the time constants
    is checked. *)
Lemma bateman_ar_ok (tau0 tau1 frequency : Qc) :
  tau0 <> 0%Qc -> tau1 <> 0%Qc ->
  bateman_ar tau0 tau1 frequency =
    Ok (map (fun num => np_divide num
               (ar_denominator (1 / py_min tau1 tau0) (1 / py_max tau1 tau0) frequency))
            (ar_numerators (1 / py_min tau1 tau0) (1 / py_max tau1 tau0) frequency)).
Proof.
  intros H0 H1. unfold bateman_ar, bateman_a1, bateman_a0.
  rewrite py_div_ok by (unfold py_min; destruct (Qc_ltb tau0 tau1); assumption).
  simpl.
  rewrite py_div_ok by (unfold py_max; destruct (Qc_ltb tau1 tau0); assumption).
  reflexivity.
Qed.

Lemma cvxeda_model_ok (eda_signal : vec) (sampling_rate : Z)
    (tau0 tau1 delta_knot : Qc) :
  sampling_rate <> 0 -> tau0 <> 0%Qc -> tau1 <> 0%Qc ->
  (2 <= length eda_signal)%nat ->
  1 <= py_round (delta_knot / (1 / Qc_of_int sampling_rate))%Qc ->
  exists m, cvxeda_model eda_signal sampling_rate tau0 tau1 delta_knot = Ok m.
Proof.
  intros Hsr H0 H1 Hn Hs. unfold cvxeda_model.
  rewrite py_div_ok by now apply Qc_of_int_nonzero.
  cbn [rbind]. rewrite bateman_ar_ok by assumption. cbn [rbind].
  destruct (arma_matrix_ok
              (map (fun num => np_divide num
                      (ar_denominator (1 / py_min tau1 tau0) (1 / py_max tau1 tau0)
                         (1 / Qc_of_int sampling_rate)))
                   (ar_numerators (1 / py_min tau1 tau0) (1 / py_max tau1 tau0)
                      (1 / Qc_of_int sampling_rate)))
              (length eda_signal) Hn) as [A ->].
  cbn [rbind]. destruct (arma_matrix_ok ma (length eda_signal) Hn) as [Mm ->].
  cbn [rbind]. rewrite py_div_ok by now apply Qcinv_nonzero, Qc_of_int_nonzero.
  cbn [rbind]. rewrite spline_kernel_ok by exact Hs. cbn [rbind]. eauto.
Qed.

(** *** The knot spacing at the default of 10 seconds *)

Lemma this_Qc_of_int (z : Z) : this (Qc_of_int z) = inject_Z z.
Proof. unfold Qc_of_int. simpl. apply inject_Z_Qred. Qed.

Lemma Qc_of_int_mul (a b : Z) : Qc_of_int (a * b) = (Qc_of_int a * Qc_of_int b)%Qc.
Proof.
  apply Qc_is_canon. unfold Qcmult. simpl.
  rewrite !Qred_correct. rewrite inject_Z_mult. reflexivity.
Qed.

(** Rounding an integer value gives that integer. *)
Lemma py_round_int (z : Z) : py_round (Qc_of_int z) = z.
Proof.
  unfold py_round. rewrite this_Qc_of_int, Qfloor_Z.
  fold (Qc_of_int z).
  replace (Qc_of_int z - Qc_of_int z)%Qc with 0%Qc by ring.
  reflexivity.
Qed.

(** With the default spacing of 10 seconds a knot falls every
    [10 * sampling_rate] samples. *)
Lemma default_knot_samples (sampling_rate : Z) :
  sampling_rate <> 0 ->
  py_round (default_delta_knot / (1 / Qc_of_int sampling_rate))%Qc = 10 * sampling_rate.
Proof.
  intros Hsr.
  assert (Hne : Qc_of_int sampling_rate <> 0%Qc) by now apply Qc_of_int_nonzero.
  replace (default_delta_knot / (1 / Qc_of_int sampling_rate))%Qc
    with (Qc_of_int (10 * sampling_rate)).
  - apply py_round_int.
  - rewrite Qc_of_int_mul.
    replace (Qc_of_int 10) with default_delta_knot by (apply Qc_is_canon; reflexivity).
    field. split; [exact Hne | discriminate].
Qed.

Lemma default_time_constants_nonzero : default_tau0 <> 0%Qc /\ default_tau1 <> 0%Qc.
Proof. split; intros E; apply (f_equal this) in E; discriminate E. Qed.

Lemma forall_from_spec (count : nat) (r : Z) (f : Z -> bool) :
  forall_from count r f = true ->
  forall z, r <= z < r + Z.of_nat count -> f z = true.
Proof.
  revert r. induction count as [|k IH]; intros r H z Hz; [lia|].
  cbn [forall_from] in H. apply andb_prop in H as [Hr Hrest].
  destruct (Z.eq_dec z r) as [->|Hne]; [exact Hr|].
  apply (IH (r + 1) Hrest). lia.
Qed.

(** Up to [rate_bound] samples per second, in either direction, the knot
    spacing computed in binary64 arithmetic is the exact one: the rounding
    of the two divisions of lines 157 and 176 does not show. *)
Lemma knot_samples_checked :
  forall_from (Z.to_nat rate_bound) 1 knot_samples_exact = true.
Proof. vm_compute. reflexivity. Qed.

Lemma knot_samples_in_binary64 (sampling_rate : Z) :
  sampling_rate <> 0 -> - rate_bound <= sampling_rate <= rate_bound ->
  float_knot_samples sampling_rate =
    Ok (py_round (default_delta_knot / (1 / Qc_of_int sampling_rate))%Qc).
Proof.
  intros Hne Hb. rewrite default_knot_samples by exact Hne.
  pose proof (forall_from_spec _ _ _ knot_samples_checked) as H.
  rewrite Z2Nat.id in H by (unfold rate_bound; lia).
  destruct (Z.ltb_spec 0 sampling_rate) as [Hpos|Hneg].
  - specialize (H sampling_rate ltac:(lia)). unfold knot_samples_exact in H.
    destruct (float_knot_samples sampling_rate) as [s|]; [|discriminate H].
    destruct (float_knot_samples (- sampling_rate)) as [s'|]; [|discriminate H].
    apply andb_prop in H as [H _]. apply Z.eqb_eq in H. now subst s.
  - specialize (H (- sampling_rate) ltac:(lia)). unfold knot_samples_exact in H.
    rewrite Z.opp_involutive in H.
    destruct (float_knot_samples (- sampling_rate)) as [s|]; [|discriminate H].
    destruct (float_knot_samples sampling_rate) as [s'|]; [|discriminate H].
    apply andb_prop in H as [_ H]. apply Z.eqb_eq in H. subst s'. f_equal; lia.
Qed.

(** ** The size of the quadratic program *)

Lemma length_vstack3 (a b c : mat) :
  length (vstack [a; b; c]) = (length a + length b + length c)%nat.
Proof. unfold vstack. simpl. rewrite !length_app. simpl. lia. Qed.

Lemma length_mmul_dense (a b : mat) : length (mmul_dense a b) = length a.
Proof. unfold mmul_dense, densify, mmul. now rewrite !length_map. Qed.

Lemma length_mneg (a : mat) : length (mneg a) = length a.
Proof. unfold mneg. apply length_map. Qed.

Lemma length_mtrans (a : mat) : length (mtrans a) = mcols a.
Proof. unfold mtrans. now rewrite length_map, length_seq. Qed.

Lemma mcols_sp_mat (A : spmatrix) :
  (1 <= sp_rows A)%nat -> mcols (sp_mat A) = sp_cols A.
Proof.
  intros H. unfold sp_mat. destruct (sp_rows A) as [|k]; [lia|].
  simpl. now rewrite length_map, length_seq.
Qed.

Lemma length_row_times_sp (k : fp) (n : nat) (A : mat) :
  length (row_times_sp k n A) = mcols A.
Proof.
  unfold row_times_sp. rewrite length_mtrans.
  unfold mmul_dense, densify, mmul, const_mat. simpl.
  now rewrite !length_map, length_seq.
Qed.

(** The quadratic program has one variable per sample, two for the trend
    and one per knot. *)
Lemma length_qp_f (m : cvx_model) (eda : vec) (alpha gamma : Qc) (solver : option string) :
  well_shaped m ->
  length (qp_f (qp_encoding m eda alpha gamma solver)) = (mdl_n m + 2 + mdl_nB m)%nat.
Proof.
  intros [Hn [HA1 HA2] [HM1 HM2] [HB1 HB2] HnB HC HnC HCc].
  unfold qp_encoding. cbn [qp_f]. rewrite length_vstack3.
  unfold msub, madd. rewrite !length_mneg.
  assert (Hzip : forall a b : mat,
             length a = length b ->
             length (zip_with (zip_with oadd) a b) = length a).
  { intros a b. apply length_zip_with_eq. }
  rewrite Hzip.
  - rewrite length_row_times_sp, !length_mmul_dense, !length_mtrans.
    rewrite !mcols_sp_mat by lia.
    lia.
  - rewrite length_row_times_sp, length_mneg, length_mmul_dense, length_mtrans.
    rewrite !mcols_sp_mat by lia. congruence.
Qed.

(** ** The cvxEDA path *)

Lemma dict_restore (current saved : options) :
  dict_update (dict_clear current) saved = saved.
Proof. unfold dict_update, dict_clear. apply map_union_empty. Qed.

Lemma solver_settings_reltol (reltol : Qc) :
  solver_settings reltol !! "reltol"%string = Some (OptFloat reltol).
Proof. unfold solver_settings. apply lookup_insert_eq. Qed.

Lemma bateman_ar_zero (tau0 tau1 frequency : Qc) :
  tau0 = 0%Qc \/ tau1 = 0%Qc ->
  bateman_ar tau0 tau1 frequency = Raise ZeroDivisionError.
Proof.
  intros H. unfold bateman_ar, bateman_a1, bateman_a0, py_min, py_max.
  destruct (Qc_ltb tau0 tau1) eqn:E01; destruct (Qc_ltb tau1 tau0) eqn:E10.
  - apply Qc_ltb_true in E01, E10.
    exfalso. exact (Qclt_not_le _ _ E01 (Qclt_le_weak _ _ E10)).
  - (* tau0 < tau1: min is tau0, max is tau1 *)
    destruct H as [->| ->].
    + reflexivity.
    + unfold py_div at 1. destruct (Qc_eqb tau0 0); [reflexivity|].
      cbn [rbind]. reflexivity.
  - (* tau1 < tau0: min is tau1, max is tau0 *)
    destruct H as [->| ->].
    + unfold py_div at 1. destruct (Qc_eqb tau1 0); [reflexivity|].
      cbn [rbind]. reflexivity.
    + reflexivity.
  - (* neither is smaller: both are tau1 *)
    apply Qc_ltb_false in E01, E10.
    assert (tau0 = tau1) by now apply Qcle_antisym.
    subst tau1. assert (tau0 = 0%Qc) by now destruct H. subst tau0.
    reflexivity.
Qed.

Lemma cvxeda_decode_at (m : cvx_model) (eda x : vec) (k : nat) :
  well_shaped m ->
  length eda = mdl_n m ->
  (2 <= k)%nat ->
  length x = (mdl_n m + k + mdl_nB m)%nat ->
  cvxeda_decode m eda x = Ok (decoded_with m eda x (drop (mdl_n m + k) x)).
Proof.
  intros [Hn [HA1 HA2] [HM1 HM2] [HB1 HB2] HnB HC HnC _] Heda Hk Hx.
  unfold cvxeda_decode, decoded_with.
  rewrite HnC.
  rewrite (slice_last_drop (mdl_nB m) x (mdl_n m + k)) by lia.
  unfold slice.
  replace (mdl_n m + 2 - mdl_n m)%nat with 2%nat by lia.
  rewrite Nat.sub_0_r. rewrite drop_0.
  rewrite sp_mul_vec_ok by (rewrite length_drop; lia). simpl.
  rewrite mat_vec_ok by (rewrite length_take, length_drop; lia). simpl.
  rewrite vec_add_ok by (rewrite !length_times, length_sp_mat; congruence). simpl.
  rewrite sp_mul_vec_ok by (rewrite length_take; lia). simpl.
  rewrite sp_mul_vec_ok by (rewrite length_take; lia). simpl.
  rewrite vec_sub_ok by (rewrite length_times, length_sp_mat; congruence). simpl.
  rewrite vec_sub_ok.
  2:{ rewrite !length_zip_with_eq; rewrite ?length_times, ?length_sp_mat; congruence. }
  reflexivity.
Qed.

Lemma length_cp_c (m : cvx_model) (eda : vec) (alpha gamma : Qc) :
  well_shaped m ->
  length (cp_c (cone_encoding m eda alpha gamma)) = (mdl_n m + 2 + 2 + mdl_nB m)%nat.
Proof.
  intros [Hn [HA1 HA2] _ _ _ _ HnC _].
  unfold cone_encoding. cbn [cp_c]. unfold densify, vstack. rewrite length_map.
  simpl. rewrite !length_app, length_row_times_sp. unfold _cvx, scalar.
  rewrite !repeat_length. simpl length.
  rewrite mcols_sp_mat by lia. rewrite app_nil_r, repeat_length. lia.
Qed.

Section CvxedaProperties.

Variable cvxopt_installed : bool.
Variable solvers_qp : options -> qp_problem -> solver_outcome.
Variable solvers_conelp : options -> cone_problem -> solver_outcome.

Local Abbreviation cvxeda :=
  (_eda_decompose_cvxeda cvxopt_installed solvers_qp solvers_conelp).
Local Abbreviation solve := (cvxeda_solve solvers_qp solvers_conelp).

Variables (eda_signal : vec) (sampling_rate : Z).
Variables (tau0 tau1 delta_knot alpha gamma reltol : Qc).
Variable solver : option string.

Lemma table_of_decoded (m : cvx_model) (x : vec) :
  well_shaped m -> length eda_signal = mdl_n m ->
  length x = (mdl_n m + 2 + mdl_nB m)%nat ->
  rbind (cvxeda_decode m eda_signal x)
        (fun d => pd_DataFrame (dec_tonic d) (dec_phasic d)) =
    Ok [("EDA_Tonic"%string, dec_tonic (decoded_from m eda_signal x));
        ("EDA_Phasic"%string, dec_phasic (decoded_from m eda_signal x))].
Proof.
  intros Hws Hn Hx. rewrite cvxeda_decode_ok by assumption. cbn [rbind].
  apply pd_DataFrame_ok.
  destruct Hws as [_ _ [HM _] [HB _] _ HC _ _]. unfold decoded_from. simpl.
  rewrite length_zip_with_eq; rewrite !length_times, ?length_sp_mat; congruence.
Qed.

(** When the solver returns a vector of the size of the quadratic
    program, the table decoded from it is returned and the options are
    those found on entry. *)
Lemma cvxeda_returns (m : cvx_model) (res : solution) (x : vec) (opts : options) :
  cvxopt_installed = true ->
  cvxeda_model eda_signal sampling_rate tau0 tau1 delta_knot = Ok m ->
  solve m eda_signal alpha gamma solver (solver_settings reltol) = Ok res ->
  sol_x res = Some x ->
  length x = (mdl_n m + 2 + mdl_nB m)%nat ->
  cvxeda eda_signal sampling_rate tau0 tau1 delta_knot alpha gamma solver reltol opts =
    (Ok [("EDA_Tonic"%string, dec_tonic (decoded_from m eda_signal x));
         ("EDA_Phasic"%string, dec_phasic (decoded_from m eda_signal x))], opts).
Proof.
  intros Hi Hm Hs Hx Hlen.
  destruct (cvxeda_model_well_shaped _ _ _ _ _ _ Hm) as [Hws Hn].
  unfold cvxeda, _eda_decompose_cvxeda. rewrite Hi, Hm. cbn [negb].
  rewrite !dict_restore. fold solve. rewrite Hs, Hx.
  now rewrite table_of_decoded.
Qed.

(** When the solve raises, the exception leaves the function at once: the
    two statements that restore the options are not reached. *)
Lemma cvxeda_solve_raises (m : cvx_model) (e : exn) (opts : options) :
  cvxopt_installed = true ->
  cvxeda_model eda_signal sampling_rate tau0 tau1 delta_knot = Ok m ->
  solve m eda_signal alpha gamma solver (solver_settings reltol) = Raise e ->
  cvxeda eda_signal sampling_rate tau0 tau1 delta_knot alpha gamma solver reltol opts =
    (Raise e, solver_settings reltol).
Proof.
  intros Hi Hm Hs.
  unfold cvxeda, _eda_decompose_cvxeda. rewrite Hi, Hm. cbn [negb].
  rewrite !dict_restore. fold solve. now rewrite Hs.
Qed.

(** The options are put back whenever the solve returns. *)
Lemma options_restored_on_return (m : cvx_model) (res : solution) (opts : options) :
  cvxopt_installed = true ->
  cvxeda_model eda_signal sampling_rate tau0 tau1 delta_knot = Ok m ->
  solve m eda_signal alpha gamma solver (solver_settings reltol) = Ok res ->
  snd (cvxeda eda_signal sampling_rate tau0 tau1 delta_knot alpha gamma solver
         reltol opts) = opts.
Proof.
  intros Hi Hm Hs.
  unfold cvxeda, _eda_decompose_cvxeda. rewrite Hi, Hm. cbn [negb].
  rewrite !dict_restore. fold solve. rewrite Hs.
  now destruct (sol_x res).
Qed.

(** Before the solve is reached the options are not touched. *)
Lemma options_untouched_before_solve (e : exn) (opts : options) :
  cvxeda_model eda_signal sampling_rate tau0 tau1 delta_knot = Raise e ->
  snd (cvxeda eda_signal sampling_rate tau0 tau1 delta_knot alpha gamma solver
         reltol opts) = opts.
Proof.
  intros Hm. unfold cvxeda, _eda_decompose_cvxeda.
  destruct cvxopt_installed; cbn [negb]; [|reflexivity].
  now rewrite Hm.
Qed.

Lemma solve_qp_returns (m : cvx_model) (res : solution) (o : options) :
  solver <> Some "conelp"%string ->
  solvers_qp o (qp_encoding m eda_signal alpha gamma solver) = Returns res ->
  sol_primal_objective res <> None ->
  solve m eda_signal alpha gamma solver o = Ok res.
Proof.
  intros Hs Hr Hobj. unfold solve, cvxeda_solve.
  rewrite bool_decide_eq_false_2 by exact Hs. rewrite Hr.
  destruct (sol_primal_objective res); [reflexivity | congruence].
Qed.

Lemma solve_qp_raises (m : cvx_model) (e : exn) (o : options) :
  solver <> Some "conelp"%string ->
  solvers_qp o (qp_encoding m eda_signal alpha gamma solver) = Raises e ->
  solve m eda_signal alpha gamma solver o = Raise e.
Proof.
  intros Hs Hr. unfold solve, cvxeda_solve.
  rewrite bool_decide_eq_false_2 by exact Hs. now rewrite Hr.
Qed.

(** C1, as amended.  On the quadratic-program path the status the solver
    reports is not looked at.  Whenever the solver returns a primal
    vector of the size of the program, with whatever status, the table
    decoded from that vector is returned; when the solver raises, that
    exception reaches the caller unchanged.  No other failure is derived
    from the solver's outcome. *)
Theorem solver_status_not_inspected (m : cvx_model) (opts : options) :
  cvxopt_installed = true ->
  cvxeda_model eda_signal sampling_rate tau0 tau1 delta_knot = Ok m ->
  solver <> Some "conelp"%string ->
  (forall (st : solver_status) (res : solution) (x : vec),
      solvers_qp (solver_settings reltol)
        (qp_encoding m eda_signal alpha gamma solver) = Returns res ->
      sol_status res = st ->
      sol_primal_objective res <> None ->
      sol_x res = Some x ->
      length x = length (qp_f (qp_encoding m eda_signal alpha gamma solver)) ->
      cvxeda eda_signal sampling_rate tau0 tau1 delta_knot alpha gamma solver
        reltol opts =
        (Ok [("EDA_Tonic"%string, dec_tonic (decoded_from m eda_signal x));
             ("EDA_Phasic"%string, dec_phasic (decoded_from m eda_signal x))],
         opts))
  /\ (forall e : exn,
        solvers_qp (solver_settings reltol)
          (qp_encoding m eda_signal alpha gamma solver) = Raises e ->
        fst (cvxeda eda_signal sampling_rate tau0 tau1 delta_knot alpha gamma
               solver reltol opts) = Raise e).
Proof.
  intros Hi Hm Hs. split.
  - intros st res x Hr _ Hobj Hx Hlen.
    destruct (cvxeda_model_well_shaped _ _ _ _ _ _ Hm) as [Hws _].
    rewrite length_qp_f in Hlen by exact Hws.
    apply (cvxeda_returns m res x opts Hi Hm); [|exact Hx|exact Hlen].
    now apply solve_qp_returns.
  - intros e Hr.
    rewrite (cvxeda_solve_raises m e opts Hi Hm); [reflexivity|].
    now apply solve_qp_raises.
Qed.

(** C2, where it fails.  When the quadratic-program solver raises, the
    call ends with the options it installed for the solve, [reltol] and
    [show_progress], in place of the ones saved on entry. *)
Theorem options_not_restored_when_solver_raises (m : cvx_model) (e : exn)
    (opts : options) :
  cvxopt_installed = true ->
  cvxeda_model eda_signal sampling_rate tau0 tau1 delta_knot = Ok m ->
  solver <> Some "conelp"%string ->
  solvers_qp (solver_settings reltol)
    (qp_encoding m eda_signal alpha gamma solver) = Raises e ->
  cvxeda eda_signal sampling_rate tau0 tau1 delta_knot alpha gamma solver
    reltol opts = (Raise e, solver_settings reltol)
  /\ (opts !! "reltol"%string <> Some (OptFloat reltol) ->
      snd (cvxeda eda_signal sampling_rate tau0 tau1 delta_knot alpha gamma
             solver reltol opts) <> opts).
Proof.
  intros Hi Hm Hs Hr.
  assert (H : cvxeda eda_signal sampling_rate tau0 tau1 delta_knot alpha gamma
                solver reltol opts = (Raise e, solver_settings reltol)).
  { apply (cvxeda_solve_raises m e opts Hi Hm). now apply solve_qp_raises. }
  split; [exact H|].
  intros Hne. rewrite H. cbn [snd]. intros E. apply Hne.
  rewrite <- E. apply solver_settings_reltol.
Qed.

Lemma cvxeda_returns_with (m : cvx_model) (res : solution) (x : vec) (k : nat)
    (opts : options) :
  cvxopt_installed = true ->
  cvxeda_model eda_signal sampling_rate tau0 tau1 delta_knot = Ok m ->
  solve m eda_signal alpha gamma solver (solver_settings reltol) = Ok res ->
  sol_x res = Some x ->
  (2 <= k)%nat ->
  length x = (mdl_n m + k + mdl_nB m)%nat ->
  cvxeda eda_signal sampling_rate tau0 tau1 delta_knot alpha gamma solver reltol opts =
    (Ok [("EDA_Tonic"%string,
          dec_tonic (decoded_with m eda_signal x (drop (mdl_n m + k) x)));
         ("EDA_Phasic"%string,
          dec_phasic (decoded_with m eda_signal x (drop (mdl_n m + k) x)))], opts).
Proof.
  intros Hi Hm Hs Hx Hk Hlen.
  destruct (cvxeda_model_well_shaped _ _ _ _ _ _ Hm) as [Hws Hn].
  unfold cvxeda, _eda_decompose_cvxeda. rewrite Hi, Hm. cbn [negb].
  rewrite !dict_restore. fold solve. rewrite Hs, Hx.
  rewrite (cvxeda_decode_at m eda_signal x k) by (assumption || congruence).
  cbn [rbind]. rewrite pd_DataFrame_ok; [reflexivity|].
  destruct Hws as [_ _ [HM _] [HB _] _ HC _ _]. unfold decoded_with. simpl.
  rewrite length_zip_with_eq; rewrite !length_times, ?length_sp_mat; congruence.
Qed.

Lemma solve_conelp_returns (m : cvx_model) (res : solution) (o : options) :
  solver = Some "conelp"%string ->
  solvers_conelp o (cone_encoding m eda_signal alpha gamma) = Returns res ->
  solve m eda_signal alpha gamma solver o = Ok res.
Proof.
  intros Hs Hr. unfold solve, cvxeda_solve.
  rewrite bool_decide_eq_true_2 by exact Hs. now rewrite Hr.
Qed.

(** C5, as amended.  The solution vector [x] is cut into [q = x[0:n]],
    [d = x[n:n+2]] and [l = x[-nB:]], its last [nB] entries.  On the
    quadratic-program path [x] has [n + 2 + nB] entries and [l] is
    [x[n+2:]]; on the cone path it has [n + 2 + 2 + nB] entries, two
    auxiliary variables come before the spline coefficients, and [l] is
    [x[n+4:]], not [x[n+2:]], with which [B] cannot even be multiplied.  On
    either path the decoding step computes tonic = B l + C d,
    phasic = M q, driver = A q and residual = (y - phasic) - tonic, and the
    table returned holds the tonic and the phasic signal, in the columns
    [EDA_Tonic] and [EDA_Phasic], and nothing else. *)
Theorem solution_decoding (m : cvx_model) (res : solution) (x : vec)
    (opts : options) :
  cvxopt_installed = true ->
  cvxeda_model eda_signal sampling_rate tau0 tau1 delta_knot = Ok m ->
  sol_x res = Some x ->
  let n := mdl_n m in
  let nB := mdl_nB m in
  let q := take n x in
  let d := take 2 (drop n x) in
  let phasic := times (sp_mat (mdl_M m)) q in
  let driver := times (sp_mat (mdl_A m)) q in
  let tonic l := zip_with fadd (times (sp_mat (mdl_B m)) l) (times (mdl_C m) d) in
  let residual l := zip_with fsub (zip_with fsub eda_signal phasic) (tonic l) in
  let decoded_as l :=
    n = length eda_signal
    /\ slice 0 n x = q /\ slice n (n + mdl_nC m) x = d /\ slice_last nB x = l
    /\ cvxeda_decode m eda_signal x =
         Ok {| dec_tonic := tonic l; dec_phasic := phasic;
               dec_smna_driver := driver; dec_residuals := residual l |}
    /\ cvxeda eda_signal sampling_rate tau0 tau1 delta_knot alpha gamma solver
         reltol opts =
         (Ok [("EDA_Tonic"%string, tonic l); ("EDA_Phasic"%string, phasic)], opts) in
  (solver <> Some "conelp"%string ->
   solvers_qp (solver_settings reltol)
     (qp_encoding m eda_signal alpha gamma solver) = Returns res ->
   sol_primal_objective res <> None ->
   length x = length (qp_f (qp_encoding m eda_signal alpha gamma solver)) ->
   length x = (n + 2 + nB)%nat /\ decoded_as (drop (n + 2) x))
  /\ (solver = Some "conelp"%string ->
      solvers_conelp (solver_settings reltol)
        (cone_encoding m eda_signal alpha gamma) = Returns res ->
      length x = length (cp_c (cone_encoding m eda_signal alpha gamma)) ->
      length x = (n + 2 + 2 + nB)%nat /\ decoded_as (drop (n + 4) x)
      /\ drop (n + 2) x <> drop (n + 4) x
      /\ sp_mul_vec (mdl_B m) (drop (n + 2) x) = Raise TypeError).
Proof.
  intros Hi Hm Hx. cbv zeta.
  destruct (cvxeda_model_well_shaped _ _ _ _ _ _ Hm) as [Hws Hn].
  assert (Hslices : forall k : nat, (2 <= k)%nat ->
            length x = (mdl_n m + k + mdl_nB m)%nat ->
            slice 0 (mdl_n m) x = take (mdl_n m) x
            /\ slice (mdl_n m) (mdl_n m + mdl_nC m) x = take 2 (drop (mdl_n m) x)
            /\ slice_last (mdl_nB m) x = drop (mdl_n m + k) x).
  { intros k Hk Hlen. split; [|split].
    - unfold slice. now rewrite Nat.sub_0_r, drop_0.
    - unfold slice. rewrite (ws_nC m Hws). f_equal. lia.
    - apply slice_last_drop; [apply (ws_nB m Hws) | lia]. }
  split.
  - intros Hsolver Hr Hobj Hlen.
    rewrite length_qp_f in Hlen by exact Hws.
    assert (Hs : solve m eda_signal alpha gamma solver (solver_settings reltol) = Ok res)
      by now apply solve_qp_returns.
    destruct (Hslices 2%nat ltac:(lia) Hlen) as (S1 & S2 & S3).
    split; [exact Hlen|]. split; [exact Hn|].
    split; [exact S1|]. split; [exact S2|]. split; [exact S3|]. split.
    + now rewrite (cvxeda_decode_at m eda_signal x 2) by (assumption || lia).
    + now rewrite (cvxeda_returns_with m res x 2 opts Hi Hm Hs Hx) by (assumption || lia).
  - intros Hsolver Hr Hlen.
    rewrite length_cp_c in Hlen by exact Hws.
    assert (Hs : solve m eda_signal alpha gamma solver (solver_settings reltol) = Ok res)
      by now apply solve_conelp_returns.
    assert (Hlen4 : length x = (mdl_n m + 4 + mdl_nB m)%nat) by lia.
    destruct (Hslices 4%nat ltac:(lia) Hlen4) as (S1 & S2 & S3).
    split; [exact Hlen|]. split; [|split].
    + split; [exact Hn|].
      split; [exact S1|]. split; [exact S2|]. split; [exact S3|]. split.
      * now rewrite (cvxeda_decode_at m eda_signal x 4) by (assumption || lia).
      * now rewrite (cvxeda_returns_with m res x 4 opts Hi Hm Hs Hx) by (assumption || lia).
    + intros E. apply (f_equal (@length fp)) in E. rewrite !length_drop in E. lia.
    + unfold sp_mul_vec, mat_vec. rewrite length_drop.
      destruct (Nat.eqb_spec (sp_cols (mdl_B m)) (length x - (mdl_n m + 2))) as [E|E];
        [|reflexivity].
      destruct Hws as [_ _ _ [_ HB] _ _ _ _]. lia.
Qed.

End CvxedaProperties.

(** ** The parameters of the public cvxEDA route *)

Section FixedParameters.

Variable cvxopt_installed : bool.
Variable solvers_qp : options -> qp_problem -> solver_outcome.
Variable solvers_conelp : options -> cone_problem -> solver_outcome.
Variable signal_smooth : vec -> string -> Z -> result vec.
Variable signal_filter : vec -> Z -> option Qc -> option Qc -> string -> result vec.

Local Abbreviation decompose :=
  (eda_decompose cvxopt_installed solvers_qp solvers_conelp signal_smooth signal_filter).

(** C10.  A call of [eda_decompose] routed to cvxEDA, on a signal of two
    samples or more at a sampling rate up to [rate_bound], builds the
    model with tau0 = 2, tau1 = 0.7 and delta_knot = 10 and hands
    [cvxopt.solvers.qp] the quadratic program of that model with
    alpha = 8e-4, gamma = 1e-2 and solver = None, under the options
    reltol = 1e-9 and show_progress = False and no other; the outcome of
    the call is read off what that one solver call gives.  The cone solver
    plays no part, and [eda_decompose] takes the signal, the sampling rate
    and the method name, and nothing else. *)
Theorem cvxeda_route_fixed_parameters (eda_signal : vec) (sampling_rate : Z)
    (method : string) (opts : options) :
  lower method = "cvxeda"%string ->
  cvxopt_installed = true ->
  0 < sampling_rate <= rate_bound ->
  (2 <= length eda_signal)%nat ->
  let settings : options :=
    <["reltol"%string := OptFloat (Q2Qc (1 # 1000000000))]>
      (<["show_progress"%string := OptBool false]> ∅) in
  exists m,
    cvxeda_model eda_signal sampling_rate (Q2Qc 2) (Q2Qc (7 # 10)) (Q2Qc 10) = Ok m
    /\ decompose eda_signal sampling_rate method opts =
       match solvers_qp settings
               (qp_encoding m eda_signal (Q2Qc (8 # 10000)) (Q2Qc (1 # 100)) None) with
       | Raises e => (Raise e, settings)
       | Returns res =>
           match sol_primal_objective res, sol_x res with
           | None, _ => (Raise TypeError, settings)
           | Some _, None => (Raise TypeError, opts)
           | Some _, Some x =>
               (rbind (cvxeda_decode m eda_signal x)
                      (fun d => pd_DataFrame (dec_tonic d) (dec_phasic d)), opts)
           end
       end
    /\ (forall other_conelp,
          eda_decompose cvxopt_installed solvers_qp other_conelp signal_smooth
            signal_filter eda_signal sampling_rate method opts =
          decompose eda_signal sampling_rate method opts).
Proof.
  intros Hm Hi Hsr Hn. cbv zeta.
  destruct default_time_constants_nonzero as [H0 H1].
  assert (Hs : 1 <= py_round (default_delta_knot / (1 / Qc_of_int sampling_rate))%Qc)
    by (rewrite default_knot_samples; lia).
  destruct (cvxeda_model_ok eda_signal sampling_rate default_tau0 default_tau1
              default_delta_knot ltac:(lia) H0 H1 Hn Hs) as [m Hmod].
  exists m. split; [exact Hmod|].
  assert (Hcall : forall conelp,
            eda_decompose cvxopt_installed solvers_qp conelp signal_smooth signal_filter
              eda_signal sampling_rate method opts =
            match solvers_qp (solver_settings default_reltol)
                    (qp_encoding m eda_signal default_alpha default_gamma None) with
            | Raises e => (Raise e, solver_settings default_reltol)
            | Returns res =>
                match sol_primal_objective res, sol_x res with
                | None, _ => (Raise TypeError, solver_settings default_reltol)
                | Some _, None => (Raise TypeError, opts)
                | Some _, Some x =>
                    (rbind (cvxeda_decode m eda_signal x)
                           (fun d => pd_DataFrame (dec_tonic d) (dec_phasic d)), opts)
                end
            end).
  { intros conelp. unfold eda_decompose. rewrite Hm. simpl String.eqb. cbv iota.
    unfold _eda_decompose_cvxeda. rewrite Hi, Hmod. cbn [negb].
    rewrite !dict_restore. unfold cvxeda_solve, default_solver.
    rewrite bool_decide_eq_false_2 by discriminate.
    destruct (solvers_qp _ _) as [res|e]; [|reflexivity].
    destruct (sol_primal_objective res); [|reflexivity].
    now destruct (sol_x res). }
  split.
  - exact (Hcall solvers_conelp).
  - intros other. now rewrite !Hcall.
Qed.

End FixedParameters.

(** ** The Bateman ARMA model *)

Lemma in_arange (a b i : Z) : In i (arange a b) <-> a <= i < b.
Proof.
  unfold arange. rewrite in_map_iff. split.
  - intros (k & <- & Hk). apply in_seq in Hk. lia.
  - intros H. exists (Z.to_nat (i - a)). split; [lia|]. apply in_seq. lia.
Qed.

Lemma arma_triplets (t0 t1 t2 : fp) (rows : list Z) :
  combine (combine (concat (map (fun r => [r; r; r]) rows))
                   (concat (map (fun r => [r; r - 1; r - 2]) rows)))
          (concat (repeat [t0; t1; t2] (length rows))) =
  flat_map (row_taps t0 t1 t2) rows.
Proof.
  induction rows as [|r rows IH]; [reflexivity|].
  simpl. now rewrite IH.
Qed.

Lemma arma_matrix_entries (t0 t1 t2 : fp) (n : nat) (A : spmatrix) :
  arma_matrix [t0; t1; t2] n = Ok A ->
  sp_entries A = flat_map (row_taps t0 t1 t2) (arange 2 (Z.of_nat n)).
Proof.
  unfold arma_matrix, np_tile.
  destruct (Z.of_nat n - 2 <? 0); [discriminate|].
  cbn [rbind]. intros H. injection H as <-.
  unfold spmatrix_sized. cbn [sp_entries].
  rewrite <- arma_triplets. now rewrite length_arange.
Qed.

Lemma oadd_None_r (a : option fp) : oadd a None = a.
Proof. now destruct a. Qed.

Lemma lookup_row_other (t0 t1 t2 : fp) (i j r : Z) (acc : option fp) :
  r <> i -> fold_left (lookup_step i j) (row_taps t0 t1 t2 r) acc = acc.
Proof.
  intros Hr. apply Z.eqb_neq in Hr. simpl. now rewrite Hr.
Qed.

Lemma lookup_row_same (t0 t1 t2 : fp) (i j : Z) :
  fold_left (lookup_step i j) (row_taps t0 t1 t2 i) None = band_value t0 t1 t2 i j.
Proof.
  simpl. unfold band_value. rewrite Z.eqb_refl. cbn [andb].
  rewrite (Z.eqb_sym j i), (Z.eqb_sym j (i - 1)), (Z.eqb_sym j (i - 2)).
  destruct (Z.eqb_spec i j) as [E1|E1];
    destruct (Z.eqb_spec (i - 1) j) as [E2|E2];
    destruct (Z.eqb_spec (i - 2) j) as [E3|E3]; try lia; reflexivity.
Qed.

Lemma lookup_rows_absent (t0 t1 t2 : fp) (i j : Z) (rows : list Z) (acc : option fp) :
  ~ In i rows ->
  fold_left (lookup_step i j) (flat_map (row_taps t0 t1 t2) rows) acc = acc.
Proof.
  revert acc. induction rows as [|r rows IH]; intros acc Hin; [reflexivity|].
  cbn [flat_map]. rewrite fold_left_app.
  rewrite lookup_row_other by (intros ->; apply Hin; now left).
  apply IH. intros H. apply Hin. now right.
Qed.

Lemma lookup_rows_range (t0 t1 t2 : fp) (i j : Z) (k : nat) (a : Z) :
  fold_left (lookup_step i j)
    (flat_map (row_taps t0 t1 t2) (map (fun t => a + Z.of_nat t) (seq 0 k))) None =
  if (a <=? i) && (i <? a + Z.of_nat k) then band_value t0 t1 t2 i j else None.
Proof.
  revert a. induction k as [|k IH]; intros a.
  - cbn [seq map flat_map fold_left].
    destruct (Z.leb_spec a i); destruct (Z.ltb_spec i (a + Z.of_nat 0));
      try reflexivity; lia.
  - cbn [seq map flat_map]. rewrite fold_left_app.
    rewrite <- seq_shift, map_map.
    rewrite (map_ext (fun t => a + Z.of_nat (S t)) (fun t => (a + 1) + Z.of_nat t))
      by (intros; lia).
    replace (a + Z.of_nat 0) with a by lia.
    destruct (Z.eq_dec a i) as [->|Hne].
    + rewrite lookup_row_same. rewrite lookup_rows_absent.
      * replace ((i <=? i) && (i <? i + Z.of_nat (S k))) with true; [reflexivity|].
        symmetry. apply andb_true_iff. split; [apply Z.leb_le | apply Z.ltb_lt]; lia.
      * intros H. apply in_map_iff in H as (t & Ht & _). lia.
    + rewrite lookup_row_other by exact Hne. rewrite IH.
      destruct (Z.leb_spec a i); destruct (Z.leb_spec (a + 1) i);
        destruct (Z.ltb_spec i (a + 1 + Z.of_nat k));
        destruct (Z.ltb_spec i (a + Z.of_nat (S k))); try lia; reflexivity.
Qed.

Lemma arma_matrix_banded (t0 t1 t2 : fp) (n : nat) (A : spmatrix) :
  arma_matrix [t0; t1; t2] n = Ok A -> banded n t0 t1 t2 A.
Proof.
  intros H. destruct (arma_matrix_inv _ _ _ H) as (Hn & Hr & Hc).
  split; [exact Hr|]. split; [exact Hc|].
  intros i j. unfold sp_lookup. rewrite (arma_matrix_entries _ _ _ _ _ H).
  unfold arange. rewrite lookup_rows_range.
  replace (2 + Z.of_nat (Z.to_nat (Z.of_nat n - 2))) with (Z.of_nat n) by lia.
  reflexivity.
Qed.

Lemma Qcinv_lt_contravar (x y : Qc) : (0 < x)%Qc -> (x < y)%Qc -> (/ y < / x)%Qc.
Proof.
  intros Hx Hxy.
  assert (Hy : (0 < y)%Qc) by (eapply Qclt_trans; eassumption).
  unfold Qclt, Qcinv in *. simpl. rewrite !Qred_correct.
  exact (proj1 (Qinv_lt_contravar x y Hx Hy) Hxy).
Qed.

Lemma Qclt_nonzero (x : Qc) : (0 < x)%Qc -> x <> 0%Qc.
Proof. intros H E. rewrite E in H. exact (Qclt_not_eq _ _ H eq_refl). Qed.

(** Of two distinct constants, [py_min] and [py_max] pick the smaller and
    the larger, whatever the order of the arguments. *)
Lemma py_min_max_distinct (tau0 tau1 : Qc) :
  tau0 <> tau1 ->
  (py_min tau1 tau0 < py_max tau1 tau0)%Qc
  /\ ((py_min tau1 tau0 = tau0 /\ py_max tau1 tau0 = tau1)
      \/ (py_min tau1 tau0 = tau1 /\ py_max tau1 tau0 = tau0)).
Proof.
  intros Hne. unfold py_min, py_max.
  destruct (Qc_ltb tau0 tau1) eqn:E01; destruct (Qc_ltb tau1 tau0) eqn:E10.
  - apply Qc_ltb_true in E01, E10.
    exfalso. exact (Qclt_not_le _ _ E01 (Qclt_le_weak _ _ E10)).
  - apply Qc_ltb_true in E01. split; [exact E01 | left; split; reflexivity].
  - apply Qc_ltb_true in E10. split; [exact E10 | right; split; reflexivity].
  - apply Qc_ltb_false in E01, E10. exfalso. apply Hne. now apply Qcle_antisym.
Qed.

Lemma ar_denominator_nonzero (a1 a0 frequency : Qc) :
  (a0 < a1)%Qc -> frequency <> 0%Qc -> ar_denominator a1 a0 frequency <> 0%Qc.
Proof.
  intros Ha Hf. unfold ar_denominator. intros E.
  apply Qcmult_integral in E as [E|E].
  - apply (Qclt_not_eq _ _ Ha). symmetry.
    assert (H : a1 = (a1 - a0 + a0)%Qc) by ring. rewrite H, E. ring.
  - simpl in E. apply Qcmult_integral in E as [E|E]; [now apply Hf|].
    rewrite Qcmult_1_r in E. now apply Hf.
Qed.

(** C6.  For positive, distinct time constants and a positive sampling
    period, [a1] and [a0] are the reciprocals of the smaller and of the
    larger constant, the AR coefficients are the three stated quotients,
    the MA coefficients are 1, 2, 1, and for a signal of [n] samples (two
    or more) [A] and [M] are [n] by [n] with those taps on columns [i],
    [i-1], [i-2] of every row [i >= 2] and nothing in rows 0 and 1. *)
Theorem bateman_model (tau0 tau1 frequency : Qc) (n : nat) :
  (0 < tau0)%Qc -> (0 < tau1)%Qc -> tau0 <> tau1 -> (0 < frequency)%Qc ->
  (2 <= n)%nat ->
  exists lo hi a1 a0 A M,
    (lo < hi)%Qc
    /\ ((lo = tau0 /\ hi = tau1) \/ (lo = tau1 /\ hi = tau0))
    /\ bateman_a1 tau0 tau1 = Ok a1 /\ a1 = (1 / lo)%Qc
    /\ bateman_a0 tau0 tau1 = Ok a0 /\ a0 = (1 / hi)%Qc
    /\ (a0 < a1)%Qc
    /\ let den := ((a1 - a0) * frequency ^ 2)%Qc in
       let ar0 := Fin (((a1 * frequency + 2) * (a0 * frequency + 2)) / den)%Qc in
       let ar1 := Fin ((2 * a1 * a0 * frequency ^ 2 - Q2Qc 8) / den)%Qc in
       let ar2 := Fin (((a1 * frequency - 2) * (a0 * frequency - 2)) / den)%Qc in
       bateman_ar tau0 tau1 frequency = Ok [ar0; ar1; ar2]
       /\ ma = [Fin 1%Qc; Fin 2%Qc; Fin 1%Qc]
       /\ arma_matrix [ar0; ar1; ar2] n = Ok A
       /\ arma_matrix ma n = Ok M
       /\ banded n ar0 ar1 ar2 A
       /\ banded n (Fin 1%Qc) (Fin 2%Qc) (Fin 1%Qc) M.
Proof.
  intros H0 H1 Hne Hf Hn.
  destruct (py_min_max_distinct tau0 tau1 Hne) as [Hlt Hcases].
  set (lo := py_min tau1 tau0) in *. set (hi := py_max tau1 tau0) in *.
  assert (Hlo : (0 < lo)%Qc) by (destruct Hcases as [[-> _]|[-> _]]; assumption).
  assert (Hhi : (0 < hi)%Qc) by (eapply Qclt_trans; eassumption).
  assert (Ha : (1 / hi < 1 / lo)%Qc).
  { unfold Qcdiv. rewrite !Qcmult_1_l. now apply Qcinv_lt_contravar. }
  assert (Hden : ar_denominator (1 / lo) (1 / hi) frequency <> 0%Qc).
  { apply ar_denominator_nonzero; [exact Ha | now apply Qclt_nonzero]. }
  set (den := ar_denominator (1 / lo) (1 / hi) frequency) in *.
  set (ar0 := Fin (((1 / lo * frequency + 2) * (1 / hi * frequency + 2)) / den)%Qc).
  set (ar1 := Fin ((2 * (1 / lo) * (1 / hi) * frequency ^ 2 - Q2Qc 8) / den)%Qc).
  set (ar2 := Fin (((1 / lo * frequency - 2) * (1 / hi * frequency - 2)) / den)%Qc).
  destruct (arma_matrix_ok [ar0; ar1; ar2] n Hn) as [A HA].
  destruct (arma_matrix_ok ma n Hn) as [M HM].
  exists lo, hi, (1 / lo)%Qc, (1 / hi)%Qc, A, M.
  split; [exact Hlt|]. split; [exact Hcases|].
  split; [apply py_div_ok; now apply Qclt_nonzero|]. split; [reflexivity|].
  split; [apply py_div_ok; now apply Qclt_nonzero|]. split; [reflexivity|].
  split; [exact Ha|].
  cbv zeta. fold (ar_denominator (1 / lo) (1 / hi) frequency). fold den.
  fold ar0 ar1 ar2.
  split.
  { rewrite bateman_ar_ok by (destruct Hcases as [[E1 E2]|[E1 E2]];
                               apply Qclt_nonzero; assumption).
    fold lo hi. fold den. unfold ar_numerators. cbn [map].
    rewrite !np_divide_fin by exact Hden. reflexivity. }
  split; [apply (f_equal (fun q => [Fin 1%Qc; Fin 2%Qc; Fin q])), Qc_is_canon; reflexivity|].
  split; [exact HA|]. split; [exact HM|].
  split; [now apply arma_matrix_banded|].
  apply arma_matrix_banded. exact HM.
Qed.

(** ** The time constants *)

Section TimeConstantProperties.

Variable cvxopt_installed : bool.
Variable solvers_qp : options -> qp_problem -> solver_outcome.
Variable solvers_conelp : options -> cone_problem -> solver_outcome.

Local Abbreviation cvxeda :=
  (_eda_decompose_cvxeda cvxopt_installed solvers_qp solvers_conelp).

Variables (eda_signal : vec) (sampling_rate : Z).
Variables (tau0 tau1 alpha gamma reltol : Qc).
Variable solver : option string.

Lemma equal_constants_taps (m : cvx_model) :
  tau0 = tau1 -> tau0 <> 0%Qc ->
  cvxeda_model eda_signal sampling_rate tau0 tau1 default_delta_knot = Ok m ->
  exists t0 t1 t2,
    bateman_ar tau0 tau1 (1 / Qc_of_int sampling_rate) = Ok [t0; t1; t2]
    /\ not_finite t0 /\ not_finite t1 /\ not_finite t2
    /\ banded (length eda_signal) t0 t1 t2 (mdl_A m).
Proof.
  intros Heq H0 Hm.
  destruct (cvxeda_model_inv _ _ _ _ _ _ Hm)
    as (frequency & ar & spl & _ & Hf & Har & HA & _).
  subst tau1 frequency.
  rewrite bateman_ar_ok in Har by assumption. injection Har as <-.
  assert (Hden : ar_denominator (1 / py_min tau0 tau0) (1 / py_max tau0 tau0)
                   (1 / Qc_of_int sampling_rate) = 0%Qc).
  { unfold ar_denominator, py_min, py_max.
    destruct (Qc_ltb tau0 tau0); ring. }
  rewrite Hden in HA. unfold ar_numerators in HA. cbn [map] in HA.
  assert (Hnf : forall num, not_finite (np_divide num 0)).
  { intros num. unfold np_divide, not_finite.
    replace (Qc_eqb 0 0) with true by reflexivity.
    destruct (qsign num); auto. }
  eexists _, _, _.
  split; [rewrite bateman_ar_ok by assumption; rewrite Hden; reflexivity|].
  split; [apply Hnf|]. split; [apply Hnf|]. split; [apply Hnf|].
  now apply arma_matrix_banded.
Qed.

(** C3, as amended.  The time constants are not validated: no pair makes
    the call raise an InvalidArgument error of its own.  A time constant
    equal to zero stops the call with [ZeroDivisionError], which is not the
    InvalidArgument kind.  For any other pair, negative or equal constants
    included, the model is built and the quadratic program is handed to
    the solver; what the call gives is then what the solver gives: an
    exception it raises reaches the caller unchanged, and a vector it
    returns is decoded and returned as the table.  With equal constants the
    three AR coefficients are divided by zero, so that every tap of [A],
    and with it of the constraint matrix of the program, is [inf], [-inf]
    or [nan]. *)
Theorem time_constants_not_validated (opts : options) :
  cvxopt_installed = true ->
  0 < sampling_rate <= rate_bound ->
  (2 <= length eda_signal)%nat ->
  solver <> Some "conelp"%string ->
  (tau0 = 0%Qc \/ tau1 = 0%Qc ->
     cvxeda eda_signal sampling_rate tau0 tau1 default_delta_knot alpha gamma solver
       reltol opts = (Raise ZeroDivisionError, opts)
     /\ kind_of ZeroDivisionError <> Some InvalidArgument)
  /\ (tau0 <> 0%Qc -> tau1 <> 0%Qc ->
      exists m,
        cvxeda_model eda_signal sampling_rate tau0 tau1 default_delta_knot = Ok m
        /\ (forall e,
              qp_failure (solvers_qp (solver_settings reltol)
                            (qp_encoding m eda_signal alpha gamma solver)) = Some e ->
              cvxeda eda_signal sampling_rate tau0 tau1 default_delta_knot alpha gamma
                solver reltol opts = (Raise e, solver_settings reltol))
        /\ (forall res x,
              solvers_qp (solver_settings reltol)
                (qp_encoding m eda_signal alpha gamma solver) = Returns res ->
              sol_primal_objective res <> None ->
              sol_x res = Some x ->
              length x = length (qp_f (qp_encoding m eda_signal alpha gamma solver)) ->
              cvxeda eda_signal sampling_rate tau0 tau1 default_delta_knot alpha gamma
                solver reltol opts =
                (Ok [("EDA_Tonic"%string, dec_tonic (decoded_from m eda_signal x));
                     ("EDA_Phasic"%string, dec_phasic (decoded_from m eda_signal x))],
                 opts))
        /\ (tau0 = tau1 ->
            exists t0 t1 t2,
              bateman_ar tau0 tau1 (1 / Qc_of_int sampling_rate) = Ok [t0; t1; t2]
              /\ not_finite t0 /\ not_finite t1 /\ not_finite t2
              /\ banded (length eda_signal) t0 t1 t2 (mdl_A m))).
Proof.
  intros Hi Hsr Hn Hsolver. split.
  - intros Hz. split; [|discriminate].
    unfold _eda_decompose_cvxeda. rewrite Hi. cbn [negb].
    unfold cvxeda_model. rewrite py_div_ok by (apply Qc_of_int_nonzero; lia).
    cbn [rbind]. now rewrite bateman_ar_zero.
  - intros H0 H1.
    assert (Hs : 1 <= py_round (default_delta_knot / (1 / Qc_of_int sampling_rate))%Qc)
      by (rewrite default_knot_samples; lia).
    destruct (cvxeda_model_ok eda_signal sampling_rate tau0 tau1 default_delta_knot
                ltac:(lia) H0 H1 Hn Hs) as [m Hm].
    destruct (cvxeda_model_well_shaped _ _ _ _ _ _ Hm) as [Hws _].
    exists m. split; [exact Hm|]. split; [|split].
    + intros e He.
      apply (cvxeda_solve_raises cvxopt_installed solvers_qp solvers_conelp eda_signal
               sampling_rate tau0 tau1 default_delta_knot alpha gamma reltol solver
               m e opts Hi Hm).
      unfold cvxeda_solve. rewrite bool_decide_eq_false_2 by exact Hsolver.
      unfold qp_failure in He.
      destruct (solvers_qp _ _) as [res|e']; [|congruence].
      destruct (sol_primal_objective res); congruence.
    + intros res x Hr Hobj Hx Hlen.
      rewrite length_qp_f in Hlen by exact Hws.
      apply (cvxeda_returns cvxopt_installed solvers_qp solvers_conelp eda_signal
               sampling_rate tau0 tau1 default_delta_knot alpha gamma reltol solver
               m res x opts Hi Hm); [|exact Hx|exact Hlen].
      now apply solve_qp_returns.
    + intros Heq. now apply equal_constants_taps.
Qed.

End TimeConstantProperties.

(** ** The spline basis *)

(** C7, as amended.  For a knot spacing of [s >= 1] samples the order-1
    spline is the triangular tent [1, ..., s, ..., 1] of [2s-1] samples;
    the kernel is that tent convolved with itself and divided by its
    largest sample: a symmetric pulse of [4s-3] samples whose largest value
    is 1.  For [n >= 1] samples the matrix [B] assembled from it has [n]
    rows and a column per knot, [nB] being the ceiling of [n / s]. *)
Theorem spline_basis (s : Z) (n : nat) :
  1 <= s -> (1 <= n)%nat ->
  exists tent kernel nB,
    tent = order1_spline s
    /\ length tent = Z.to_nat (2 * s - 1)
    /\ (forall i, (i < Z.to_nat (2 * s - 1))%nat ->
          nth i tent 0%Qc = Qc_of_int (Z.min (Z.of_nat i + 1) (2 * s - 1 - Z.of_nat i)))
    /\ spline_kernel s = Ok kernel
    /\ kernel = normalise (convolution tent tent)
    /\ length kernel = Z.to_nat (4 * s - 3)
    /\ rev kernel = kernel
    /\ Forall is_fin_le_1 kernel
    /\ In (Fin 1%Qc) kernel
    /\ sp_rows (spline_matrix kernel n s) = n
    /\ sp_cols (spline_matrix kernel n s) = nB
    /\ spline_nB n s = nB
    /\ (Z.of_nat nB - 1) * s < Z.of_nat n <= Z.of_nat nB * s
    /\ (forall eda_signal sampling_rate tau0 tau1 delta_knot m,
          cvxeda_model eda_signal sampling_rate tau0 tau1 delta_knot = Ok m ->
          length eda_signal = n ->
          py_round (delta_knot / (1 / Qc_of_int sampling_rate))%Qc = s ->
          mdl_B m = spline_matrix kernel n s /\ mdl_nB m = nB).
Proof.
  intros Hs Hn.
  set (tent := order1_spline s).
  set (kernel := normalise (convolution tent tent)).
  assert (Hlen : length kernel = Z.to_nat (4 * s - 3)).
  { unfold kernel. rewrite length_normalise, length_convolution.
    unfold tent. rewrite length_order1_spline by exact Hs. lia. }
  destruct (spline_matrix_shape kernel n s Hs Hn Hlen) as (HB1 & HB2 & HB3 & HB4).
  destruct (knots_ceiling (Z.of_nat n) s Hs ltac:(lia)) as (Hq1 & Hq2 & Hq3).
  exists tent, kernel, (spline_nB n s).
  split; [reflexivity|].
  split; [now apply length_order1_spline|].
  split; [intros i Hi; now apply nth_order1_spline|].
  split; [now apply spline_kernel_ok|].
  split; [reflexivity|].
  split; [exact Hlen|].
  split; [apply normalise_rev, convolution_palindrome; now apply order1_spline_palindrome|].
  assert (Hpeak : Forall is_fin_le_1 kernel /\ In (Fin 1%Qc) kernel).
  { unfold kernel.
    assert (Hhd : nth 0 (convolution tent tent) 0%Qc = 1%Qc).
    { rewrite hd_convolution.
      - unfold tent. rewrite hd_order1_spline by exact Hs. apply Qcmult_1_l.
      - intros E. pose proof (length_order1_spline s Hs) as HL.
        fold tent in HL. rewrite E in HL. simpl in HL. lia. }
    destruct (convolution tent tent) as [|hd tl] eqn:E.
    - apply (f_equal (@length Qc)) in E. rewrite length_convolution in E.
      unfold tent in E. rewrite length_order1_spline in E by exact Hs.
      simpl in E. lia.
    - simpl in Hhd. subst hd.
      assert (Hpos : (0 < 1)%Qc) by reflexivity.
      destruct (normalise_peak 1%Qc tl Hpos) as (_ & HF & HI). now split. }
  split; [apply Hpeak|]. split; [apply Hpeak|].
  split; [exact HB1|]. split; [exact HB2|]. split; [reflexivity|].
  split; [rewrite HB3; lia|].
  intros eda_signal sampling_rate tau0 tau1 delta_knot m Hm Hlen' Hround.
  destruct (cvxeda_model_inv _ _ _ _ _ _ Hm)
    as (frequency & ar & spl & _ & Hf & _ & _ & _ & Hspl & _ & HB & HnB & _).
  subst frequency. rewrite Hround in Hspl, HB, HnB.
  rewrite spline_kernel_ok in Hspl by exact Hs. injection Hspl as <-.
  rewrite Hlen' in HB, HnB. now split.
Qed.

(** [spline_basis] at a spacing of 2 samples and 5 samples of signal. *)
Lemma spline_basis_witness :
  1 <= 2 /\ (1 <= 5)%nat
  /\ exists kernel,
       spline_kernel 2 = Ok kernel
       /\ length kernel = 5%nat
       /\ sp_rows (spline_matrix kernel 5 2) = 5%nat
       /\ sp_cols (spline_matrix kernel 5 2) = 3%nat.
Proof.
  assert (H1 : 1 <= 2) by lia.
  assert (H2 : (1 <= 5)%nat) by lia.
  split; [exact H1|]. split; [exact H2|].
  destruct (spline_basis 2 5 H1 H2)
    as (tent & kernel & nB & _ & _ & _ & Hk & _ & Hlen & _ & _ & _ & Hr & Hc & HnB & _ & _).
  exists kernel. split; [exact Hk|]. split; [exact Hlen|]. split; [exact Hr|].
  rewrite Hc, <- HnB. reflexivity.
Defined.

(** C7 as stated fails at a spacing of 2 samples: the kernel has 5 samples,
    not 2*2-1 = 3, and its samples 1/6, 2/3, 1, 2/3, 1/6 do not lie on the
    two straight edges of a tent. *)
Lemma spline_kernel_is_not_a_tent :
  spline_kernel 2 =
    Ok [Fin (Q2Qc (1 # 6)); Fin (Q2Qc (2 # 3)); Fin 1%Qc;
        Fin (Q2Qc (2 # 3)); Fin (Q2Qc (1 # 6))]
  /\ (forall kernel, spline_kernel 2 = Ok kernel ->
        length kernel <> Z.to_nat (2 * 2 - 1))
  /\ (Q2Qc (2 # 3) - Q2Qc (1 # 6) <> 1 - Q2Qc (2 # 3))%Qc.
Proof.
  assert (H : spline_kernel 2 =
            Ok [Fin (Q2Qc (1 # 6)); Fin (Q2Qc (2 # 3)); Fin 1%Qc;
                Fin (Q2Qc (2 # 3)); Fin (Q2Qc (1 # 6))]) by same_values.
  split; [exact H|]. split.
  - intros kernel Hk. rewrite H in Hk. injection Hk as <-. simpl. lia.
  - intros E. apply (f_equal this) in E. vm_compute in E. discriminate E.
Qed.

(** ** The properties at concrete inputs *)

Lemma sample_model_built :
  exists m, cvxeda_model sample_signal 1 default_tau0 default_tau1 default_delta_knot = Ok m.
Proof.
  apply cvxeda_model_ok.
  - discriminate.
  - intros E. apply (f_equal this) in E. discriminate E.
  - intros E. apply (f_equal this) in E. discriminate E.
  - simpl. lia.
  - vm_compute. discriminate.
Qed.

(** [median_variant_result] with a smoother that returns a flat line. *)
Lemma median_variant_result_witness :
  In (lower "SmoothMedian") ["median"; "smoothmedian"]%string
  /\ smooth_flat sample_signal "median" (4 * 2) = Ok (map (fun _ => fin 1) sample_signal)
  /\ eda_decompose true qp_converges conelp_stalls smooth_flat filter_crude
       sample_signal 2 "SmoothMedian" ∅ =
     (Ok [("EDA_Tonic"%string, map (fun _ => fin 1) sample_signal);
          ("EDA_Phasic"%string,
           zip_with fsub sample_signal (map (fun _ => fin 1) sample_signal))], ∅).
Proof.
  assert (H1 : In (lower "SmoothMedian") ["median"; "smoothmedian"]%string)
    by (simpl; auto).
  assert (H2 : smooth_flat sample_signal "median" (4 * 2) =
               Ok (map (fun _ => fin 1) sample_signal)) by reflexivity.
  assert (H3 : length (map (fun _ : fp => fin 1) sample_signal) = length sample_signal)
    by reflexivity.
  split; [exact H1|]. split; [exact H2|].
  exact (proj1 (median_variant_result true qp_converges conelp_stalls smooth_flat
                  filter_crude sample_signal _ 2 "SmoothMedian" ∅ H1 H2 H3)).
Defined.

(** [filter_variant_result] with the crude filter pair. *)
Lemma filter_variant_result_witness :
  In (lower "Biopac") ["highpass"; "biopac"; "acqknowledge"]%string
  /\ exists tonic phasic,
       filter_crude sample_signal 100 (Some (Q2Qc (5 # 100))) None "butter" = Ok phasic
       /\ filter_crude sample_signal 100 None (Some (Q2Qc (5 # 100))) "butter" = Ok tonic
       /\ eda_decompose true qp_converges conelp_stalls smooth_flat filter_crude
            sample_signal 100 "Biopac" ∅ =
          (Ok [("EDA_Tonic"%string, tonic); ("EDA_Phasic"%string, phasic)], ∅).
Proof.
  assert (H1 : In (lower "Biopac") ["highpass"; "biopac"; "acqknowledge"]%string)
    by (simpl; auto).
  split; [exact H1|].
  eexists. eexists.
  split; [reflexivity|]. split; [reflexivity|].
  exact (filter_variant_result true qp_converges conelp_stalls smooth_flat
           filter_crude sample_signal _ _ 100 "Biopac" ∅ H1 eq_refl eq_refl eq_refl).
Defined.

(** C8 as stated fails for the crude filter pair on the samples 1, 2, 4, 3:
    the low-pass output is 1, 3/2, 3, 7/2 and the high-pass output is
    0, 1, 2, -1, while the signal minus the low-pass output is
    0, 1/2, 1, -1/2. *)
Lemma filter_variant_phasic_is_not_the_difference :
  exists tonic phasic,
    eda_decompose true qp_converges conelp_stalls smooth_flat filter_crude
      sample_signal 100 "highpass" ∅ =
      (Ok [("EDA_Tonic"%string, tonic); ("EDA_Phasic"%string, phasic)], ∅)
    /\ tonic = [Fin 1%Qc; Fin (Q2Qc (3 # 2)); Fin (Q2Qc 3); Fin (Q2Qc (7 # 2))]
    /\ phasic = [Fin 0%Qc; Fin 1%Qc; Fin 2%Qc; Fin (- 1)%Qc]
    /\ zip_with fsub sample_signal tonic =
         [Fin 0%Qc; Fin (Q2Qc (1 # 2)); Fin 1%Qc; Fin (- Q2Qc (1 # 2))%Qc]
    /\ phasic <> zip_with fsub sample_signal tonic.
Proof.
  exists [Fin 1%Qc; Fin (Q2Qc (3 # 2)); Fin (Q2Qc 3); Fin (Q2Qc (7 # 2))].
  exists [Fin 0%Qc; Fin 1%Qc; Fin 2%Qc; Fin (- 1)%Qc].
  split; [same_values|]. split; [reflexivity|]. split; [reflexivity|].
  split; [same_values|].
  intros E. apply (f_equal (fun l => nth 1 l NaN)) in E.
  vm_compute in E. discriminate E.
Qed.

(** C1 as stated fails for a solver that gives up: it reports [Unknown] for
    every problem, and [eda_decompose] returns the table decoded from its
    last iterate. *)
Lemma stalled_solver_table_returned :
  (forall o p, exists res, qp_stalls o p = Returns res /\ sol_status res = Unknown)
  /\ eda_decompose true qp_stalls conelp_stalls smooth_flat filter_crude
       sample_signal 1 "cvxeda" ∅ = (Ok (zero_table 4), ∅).
Proof.
  split.
  - intros o p. eexists. split; reflexivity.
  - same_values.
Qed.

(** [solver_status_not_inspected] with the solver that gives up. *)
Lemma solver_status_not_inspected_witness :
  exists m,
    cvxeda_model sample_signal 1 default_tau0 default_tau1 default_delta_knot = Ok m
    /\ default_solver <> Some "conelp"%string
    /\ fst (_eda_decompose_cvxeda true qp_stalls conelp_stalls sample_signal 1
              default_tau0 default_tau1 default_delta_knot default_alpha
              default_gamma default_solver default_reltol ∅) =
       Ok [("EDA_Tonic"%string,
            dec_tonic (decoded_from m sample_signal
                         (repeat (Fin 0%Qc) (mdl_n m + 2 + mdl_nB m))));
           ("EDA_Phasic"%string,
            dec_phasic (decoded_from m sample_signal
                          (repeat (Fin 0%Qc) (mdl_n m + 2 + mdl_nB m))))].
Proof.
  destruct sample_model_built as [m Hm].
  assert (Hs : default_solver <> Some "conelp"%string) by discriminate.
  exists m. split; [exact Hm|]. split; [exact Hs|].
  destruct (cvxeda_model_well_shaped _ _ _ _ _ _ Hm) as [Hws _].
  destruct (solver_status_not_inspected true qp_stalls conelp_stalls sample_signal 1
              default_tau0 default_tau1 default_delta_knot default_alpha default_gamma
              default_reltol default_solver m ∅ eq_refl Hm Hs) as [Hret _].
  rewrite (Hret Unknown
             (zeros_solution Unknown (mdl_n m + 2 + mdl_nB m))
             (repeat (Fin 0%Qc) (mdl_n m + 2 + mdl_nB m))).
  - reflexivity.
  - unfold qp_stalls. now rewrite length_qp_f.
  - reflexivity.
  - discriminate.
  - reflexivity.
  - rewrite length_qp_f by exact Hws. apply repeat_length.
Defined.

(** [cvxeda_route_fixed_parameters] at a mixed-case spelling of the name,
    with the solver that gives up. *)
Lemma cvxeda_route_fixed_parameters_witness :
  lower "CvxEDA" = "cvxeda"%string
  /\ 0 < 1 <= rate_bound
  /\ (2 <= length sample_signal)%nat
  /\ exists m,
       cvxeda_model sample_signal 1 (Q2Qc 2) (Q2Qc (7 # 10)) (Q2Qc 10) = Ok m
       /\ eda_decompose true qp_stalls conelp_stalls smooth_flat filter_crude
            sample_signal 1 "CvxEDA" ∅ =
          match qp_stalls
                  (<["reltol"%string := OptFloat (Q2Qc (1 # 1000000000))]>
                     (<["show_progress"%string := OptBool false]> ∅))
                  (qp_encoding m sample_signal (Q2Qc (8 # 10000)) (Q2Qc (1 # 100))
                     None) with
          | Raises e =>
              (Raise e,
               <["reltol"%string := OptFloat (Q2Qc (1 # 1000000000))]>
                 (<["show_progress"%string := OptBool false]> ∅))
          | Returns res =>
              match sol_primal_objective res, sol_x res with
              | None, _ =>
                  (Raise TypeError,
                   <["reltol"%string := OptFloat (Q2Qc (1 # 1000000000))]>
                     (<["show_progress"%string := OptBool false]> ∅))
              | Some _, None => (Raise TypeError, ∅)
              | Some _, Some x =>
                  (rbind (cvxeda_decode m sample_signal x)
                         (fun d => pd_DataFrame (dec_tonic d) (dec_phasic d)), ∅)
              end
          end.
Proof.
  assert (H : lower "CvxEDA" = "cvxeda"%string) by reflexivity.
  assert (Hsr : 0 < 1 <= rate_bound) by (unfold rate_bound; lia).
  assert (Hn : (2 <= length sample_signal)%nat) by (simpl; lia).
  split; [exact H|]. split; [exact Hsr|]. split; [exact Hn|].
  destruct (cvxeda_route_fixed_parameters true qp_stalls conelp_stalls smooth_flat
              filter_crude sample_signal 1 "CvxEDA" ∅ H eq_refl Hsr Hn)
    as (m & Hm & Hcall & _).
  exists m. split; [exact Hm | exact Hcall].
Defined.

(** [options_not_restored_when_solver_raises] on a signal of two samples,
    with no option set beforehand.  [A] and [M] have no row then, the
    variables [q] occur nowhere in the program and the solver rejects it
    with [ValueError]: afterwards the options hold [reltol] and
    [show_progress]. *)
Lemma options_not_restored_when_solver_raises_witness :
  exists m,
    cvxeda_model two_samples 1 default_tau0 default_tau1 default_delta_knot = Ok m
    /\ qp_cautious (solver_settings default_reltol)
         (qp_encoding m two_samples default_alpha default_gamma default_solver) =
       Raises ValueError
    /\ eda_decompose true qp_cautious conelp_stalls smooth_flat filter_crude
         two_samples 1 "cvxeda" ∅ =
       (Raise ValueError, solver_settings default_reltol)
    /\ snd (eda_decompose true qp_cautious conelp_stalls smooth_flat filter_crude
              two_samples 1 "cvxeda" ∅) <> ∅.
Proof.
  eassert (Hm : cvxeda_model two_samples 1 default_tau0 default_tau1
                  default_delta_knot = Ok _) by (vm_compute; reflexivity).
  eexists. split; [exact Hm|].
  assert (Hs : default_solver <> Some "conelp"%string) by discriminate.
  match type of Hm with _ = Ok ?m =>
    assert (Hr : qp_cautious (solver_settings default_reltol)
                   (qp_encoding m two_samples default_alpha default_gamma
                      default_solver) = Raises ValueError)
      by (vm_compute; reflexivity)
  end.
  split; [exact Hr|].
  destruct (options_not_restored_when_solver_raises true qp_cautious conelp_stalls
              two_samples 1 default_tau0 default_tau1 default_delta_knot
              default_alpha default_gamma default_reltol default_solver _ ValueError ∅
              eq_refl Hm Hs Hr) as [Hres Hne].
  split; [exact Hres|].
  apply Hne. rewrite lookup_empty. discriminate.
Defined.

(** C3 as stated fails on each of its three cases.  With [tau0 = 0] the
    exception is [ZeroDivisionError]; with [tau0 = -2] nothing is raised
    and the table computed from the solver's vector is returned; with
    [tau0 = tau1 = 1] the coefficients are [inf, -inf, inf], the call
    itself raises nothing, and the [ArithmeticError] with which the solver
    refuses the program is what the caller gets.  None of these is an
    InvalidArgument error. *)
Lemma time_constants_not_rejected_as_invalid :
  _eda_decompose_cvxeda true qp_cautious conelp_stalls sample_signal 1
    (Q2Qc 0) (Q2Qc (7 # 10)) default_delta_knot default_alpha default_gamma
    default_solver default_reltol ∅ = (Raise ZeroDivisionError, ∅)
  /\ kind_of ZeroDivisionError <> Some InvalidArgument
  /\ _eda_decompose_cvxeda true qp_cautious conelp_stalls sample_signal 1
       (Q2Qc (-2)) (Q2Qc (7 # 10)) default_delta_knot default_alpha default_gamma
       default_solver default_reltol ∅ = (Ok (zero_table 4), ∅)
  /\ bateman_ar (Q2Qc 1) (Q2Qc 1) 1%Qc = Ok [PInf; NInf; PInf]
  /\ _eda_decompose_cvxeda true qp_cautious conelp_stalls sample_signal 1
       (Q2Qc 1) (Q2Qc 1) default_delta_knot default_alpha default_gamma
       default_solver default_reltol ∅ =
     (Raise ArithmeticError, solver_settings default_reltol)
  /\ kind_of ArithmeticError <> Some InvalidArgument.
Proof.
  split; [reflexivity|].
  split; [discriminate|].
  split; [same_values|].
  split; [reflexivity|].
  split; [vm_compute; reflexivity|].
  discriminate.
Qed.

(** [time_constants_not_validated] with both constants equal to 1. *)
Lemma time_constants_not_validated_witness :
  0 < 1 <= rate_bound
  /\ (2 <= length sample_signal)%nat
  /\ default_solver <> Some "conelp"%string
  /\ exists m t0 t1 t2,
       cvxeda_model sample_signal 1 (Q2Qc 1) (Q2Qc 1) default_delta_knot = Ok m
       /\ not_finite t0 /\ not_finite t1 /\ not_finite t2
       /\ banded 4 t0 t1 t2 (mdl_A m).
Proof.
  assert (Hsr : 0 < 1 <= rate_bound) by (unfold rate_bound; lia).
  assert (Hn : (2 <= length sample_signal)%nat) by (simpl; lia).
  assert (Hs : default_solver <> Some "conelp"%string) by discriminate.
  assert (Hne : Q2Qc 1 <> 0%Qc).
  { intros E. apply (f_equal this) in E. discriminate E. }
  split; [exact Hsr|]. split; [exact Hn|]. split; [exact Hs|].
  destruct (time_constants_not_validated true qp_cautious conelp_stalls
              sample_signal 1 (Q2Qc 1) (Q2Qc 1) default_alpha default_gamma
              default_reltol default_solver ∅ eq_refl Hsr Hn Hs)
    as (_ & Hbuilt).
  destruct (Hbuilt Hne Hne) as (m & Hm & _ & _ & Hequal).
  destruct (Hequal eq_refl) as (t0 & t1 & t2 & _ & F0 & F1 & F2 & Hband).
  exists m, t0, t1, t2. auto.
Defined.

(** [solution_decoding] with the solver that converges to the zero vector. *)
Lemma solution_decoding_witness :
  exists m x,
    cvxeda_model sample_signal 1 default_tau0 default_tau1 default_delta_knot = Ok m
    /\ length x = (mdl_n m + 2 + mdl_nB m)%nat
    /\ cvxeda_decode m sample_signal x =
         Ok {| dec_tonic := zip_with fadd (times (sp_mat (mdl_B m)) (drop (mdl_n m + 2) x))
                              (times (mdl_C m) (take 2 (drop (mdl_n m) x)));
               dec_phasic := times (sp_mat (mdl_M m)) (take (mdl_n m) x);
               dec_smna_driver := times (sp_mat (mdl_A m)) (take (mdl_n m) x);
               dec_residuals :=
                 zip_with fsub
                   (zip_with fsub sample_signal
                      (times (sp_mat (mdl_M m)) (take (mdl_n m) x)))
                   (zip_with fadd (times (sp_mat (mdl_B m)) (drop (mdl_n m + 2) x))
                      (times (mdl_C m) (take 2 (drop (mdl_n m) x)))) |}.
Proof.
  destruct sample_model_built as [m Hm].
  destruct (cvxeda_model_well_shaped _ _ _ _ _ _ Hm) as [Hws _].
  exists m, (repeat (Fin 0%Qc) (mdl_n m + 2 + mdl_nB m)).
  split; [exact Hm|]. split; [apply repeat_length|].
  assert (Hs : default_solver <> Some "conelp"%string) by discriminate.
  assert (Hr : qp_converges (solver_settings default_reltol)
                 (qp_encoding m sample_signal default_alpha default_gamma default_solver) =
               Returns (zeros_solution Optimal (mdl_n m + 2 + mdl_nB m))).
  { unfold qp_converges. now rewrite length_qp_f. }
  assert (Hobj : sol_primal_objective
                   (zeros_solution Optimal (mdl_n m + 2 + mdl_nB m)) <> None)
    by discriminate.
  assert (Hlen : length (repeat (Fin 0%Qc) (mdl_n m + 2 + mdl_nB m)) =
                 length (qp_f (qp_encoding m sample_signal default_alpha
                                 default_gamma default_solver))).
  { rewrite length_qp_f by exact Hws. apply repeat_length. }
  destruct (solution_decoding true qp_converges conelp_stalls sample_signal 1
              default_tau0 default_tau1 default_delta_knot default_alpha
              default_gamma default_reltol default_solver m
              (zeros_solution Optimal (mdl_n m + 2 + mdl_nB m))
              (repeat (Fin 0%Qc) (mdl_n m + 2 + mdl_nB m)) ∅
              eq_refl Hm eq_refl) as [Hqp _].
  destruct (Hqp Hs Hr Hobj Hlen) as (_ & _ & _ & _ & _ & Hdec & _).
  exact Hdec.
Defined.

(** C5 as stated fails on the cone path.  For the four-sample signal the
    cone program has nine variables; of the vector [0, 1, ..., 8] the
    spline coefficients are the last entry, [8], and the table is computed
    from it, while [x[n+2:]] is [6, 7, 8], three entries that the one
    column of [B] cannot be multiplied with. *)
Lemma cone_path_splines_are_the_last_entries :
  exists m,
    cvxeda_model sample_signal 1 default_tau0 default_tau1 default_delta_knot = Ok m
    /\ mdl_n m = 4%nat /\ mdl_nB m = 1%nat
    /\ let x := map (fun k => Fin (Qc_of_nat k)) (seq 0 9) in
       conelp_counts (solver_settings default_reltol)
         (cone_encoding m sample_signal default_alpha default_gamma) =
         Returns {| sol_status := Optimal; sol_x := Some x;
                    sol_primal_objective := Some (Fin 0%Qc) |}
       /\ slice_last (mdl_nB m) x = [Fin (Qc_of_nat 8)]
       /\ drop (mdl_n m + 2) x = [Fin (Qc_of_nat 6); Fin (Qc_of_nat 7); Fin (Qc_of_nat 8)]
       /\ sp_mul_vec (mdl_B m) (drop (mdl_n m + 2) x) = Raise TypeError
       /\ _eda_decompose_cvxeda true qp_stalls conelp_counts sample_signal 1
            default_tau0 default_tau1 default_delta_knot default_alpha default_gamma
            (Some "conelp"%string) default_reltol ∅ =
          (Ok [("EDA_Tonic"%string,
                dec_tonic (decoded_with m sample_signal x [Fin (Qc_of_nat 8)]));
               ("EDA_Phasic"%string,
                dec_phasic (decoded_with m sample_signal x [Fin (Qc_of_nat 8)]))], ∅).
Proof.
  eexists. split; [vm_compute; reflexivity|].
  split; [reflexivity|]. split; [reflexivity|]. cbv zeta.
  split; [same_values|]. split; [same_values|]. split; [same_values|].
  split; [reflexivity|]. same_values.
Qed.

(** [bateman_model] at the default time constants, one sample per second
    and four samples. *)
Lemma bateman_model_witness :
  (0 < Q2Qc 2)%Qc /\ (0 < Q2Qc (7 # 10))%Qc /\ Q2Qc 2 <> Q2Qc (7 # 10)
  /\ (0 < 1)%Qc /\ (2 <= 4)%nat
  /\ exists ar0 ar1 ar2 A M,
       bateman_ar (Q2Qc 2) (Q2Qc (7 # 10)) 1%Qc = Ok [ar0; ar1; ar2]
       /\ arma_matrix [ar0; ar1; ar2] 4 = Ok A
       /\ arma_matrix ma 4 = Ok M
       /\ banded 4 ar0 ar1 ar2 A
       /\ banded 4 (Fin 1%Qc) (Fin 2%Qc) (Fin 1%Qc) M.
Proof.
  assert (H0 : (0 < Q2Qc 2)%Qc) by reflexivity.
  assert (H1 : (0 < Q2Qc (7 # 10))%Qc) by reflexivity.
  assert (Hne : Q2Qc 2 <> Q2Qc (7 # 10)).
  { intros E. apply (f_equal this) in E. discriminate E. }
  assert (Hf : (0 < 1)%Qc) by reflexivity.
  assert (Hn : (2 <= 4)%nat) by lia.
  split; [exact H0|]. split; [exact H1|]. split; [exact Hne|].
  split; [exact Hf|]. split; [exact Hn|].
  destruct (bateman_model (Q2Qc 2) (Q2Qc (7 # 10)) 1%Qc 4 H0 H1 Hne Hf Hn)
    as (lo & hi & a1 & a0 & A & M & _ & _ & _ & _ & _ & _ & _ & Hrest).
  cbv zeta in Hrest.
  destruct Hrest as (Har & _ & HA & HM & HbA & HbM).
  eexists _, _, _, A, M.
  split; [exact Har|]. split; [exact HA|]. split; [exact HM|].
  split; [exact HbA | exact HbM].
Defined.

(** The default coefficients at one sample per second. *)
Example default_ar_coefficients :
  bateman_ar default_tau0 default_tau1 1%Qc =
    Ok [Fin (Q2Qc (120 # 13)); Fin (Q2Qc (-92 # 13)); Fin (Q2Qc (12 # 13))].
Proof. same_values. Qed.

(** * Further properties *)

(** * Further properties of [eda_decompose.py] *)

(** ** Method names *)

Lemma lower_ascii_idempotent (c : ascii) : lower_ascii (lower_ascii c) = lower_ascii c.
Proof.
  destruct c as [[] [] [] [] [] [] [] []]; reflexivity.
Qed.

Lemma lower_idempotent (s : string) : lower (lower s) = lower s.
Proof.
  induction s as [|c s IH]; simpl; [reflexivity|].
  now rewrite lower_ascii_idempotent, IH.
Qed.

Lemma same_letter_lower (c d : ascii) :
  same_letter c d = true -> lower_ascii c = lower_ascii d.
Proof.
  assert (Hup : forall a b : ascii,
            is_upper a = true -> nat_of_ascii b = (nat_of_ascii a + 32)%nat ->
            lower_ascii a = lower_ascii b).
  { intros a b Ha Hb. unfold lower_ascii. unfold is_upper in Ha. rewrite Ha.
    rewrite <- Hb, ascii_nat_embedding.
    apply andb_prop in Ha as [H1 H2].
    apply Nat.leb_le in H1, H2.
    destruct (Nat.leb_spec 65 (nat_of_ascii b)); [|reflexivity].
    destruct (Nat.leb_spec (nat_of_ascii b) 90); [lia | reflexivity]. }
  unfold same_letter. intros H.
  apply orb_prop in H as [H|H]; [apply orb_prop in H as [H|H]|].
  - apply Ascii.eqb_eq in H. now subst.
  - apply andb_prop in H as [Hu He]. apply Nat.eqb_eq in He. now apply Hup.
  - apply andb_prop in H as [Hu He]. apply Nat.eqb_eq in He. symmetry. now apply Hup.
Qed.

Lemma same_up_to_case_lower (s t : string) :
  same_up_to_case s t = true -> lower s = lower t.
Proof.
  revert t. induction s as [|c s IH]; intros [|d t]; simpl; try discriminate.
  - reflexivity.
  - intros H. apply andb_prop in H as [Hc Hs].
    now rewrite (same_letter_lower c d Hc), (IH t Hs).
Qed.

Section FurtherDispatcherProperties.

Variable cvxopt_installed : bool.
Variable solvers_qp : options -> qp_problem -> solver_outcome.
Variable solvers_conelp : options -> cone_problem -> solver_outcome.
Variable signal_smooth : vec -> string -> Z -> result vec.
Variable signal_filter : vec -> Z -> option Qc -> option Qc -> string -> result vec.

Local Abbreviation decompose :=
  (eda_decompose cvxopt_installed solvers_qp solvers_conelp signal_smooth signal_filter).

(** X1.  The method name is read without regard to case: two names made
    of ASCII characters that differ in the case of their letters at most
    give the same outcome and leave the same options, and a name can be
    replaced by its lower-case form. *)
Theorem method_case_insensitive (eda_signal : vec) (sampling_rate : Z)
    (method method' : string) (opts : options) :
  ascii_only method = true -> ascii_only method' = true ->
  same_up_to_case method method' = true ->
  decompose eda_signal sampling_rate method opts =
    decompose eda_signal sampling_rate method' opts
  /\ decompose eda_signal sampling_rate (lower method) opts =
       decompose eda_signal sampling_rate method opts.
Proof.
  intros _ _ H. apply same_up_to_case_lower in H.
  unfold eda_decompose. rewrite lower_idempotent, H. split; reflexivity.
Qed.

(** X2.  The optimisation backend is looked for on the cvxEDA path only.
    Without it a cvxEDA call stops with [ImportError] (the
    DependencyMissing kind) whatever the signal and the sampling rate, with
    the options untouched; every other method name gives the same outcome
    with or without the backend and whatever the solvers do. *)
Theorem backend_needed_by_cvxeda_only (eda_signal : vec) (sampling_rate : Z)
    (method : string) (opts : options) :
  (lower method = "cvxeda"%string -> cvxopt_installed = false ->
     decompose eda_signal sampling_rate method opts = (Raise ImportError, opts)
     /\ kind_of ImportError = Some DependencyMissing)
  /\ (lower method <> "cvxeda"%string ->
      forall installed' qp' conelp',
        eda_decompose installed' qp' conelp' signal_smooth signal_filter
          eda_signal sampling_rate method opts =
        decompose eda_signal sampling_rate method opts).
Proof.
  split.
  - intros Hm Hi. split; [|reflexivity].
    unfold eda_decompose, _eda_decompose_cvxeda. rewrite Hm, Hi. reflexivity.
  - intros Hm installed' qp' conelp'. unfold eda_decompose.
    apply String.eqb_neq in Hm. now rewrite Hm.
Qed.

(** X3.  What a call does to the solver options, at a sampling rate up to
    [rate_bound] in either direction.  The call leaves options other than
    those it found in exactly one situation: the method is cvxEDA, the
    backend is there, the model is built, and the quadratic-program solve
    ends in an exception, be it one the solver raises or the [TypeError]
    of line 218 when the solver returned no objective value.  The call
    then raises that exception and leaves exactly [reltol] and
    [show_progress] set.  In every other situation (another method, no
    backend, an error before the solve, or a solve that returns) the
    options after the call are those before it. *)
Theorem options_after_call (eda_signal : vec) (sampling_rate : Z)
    (method : string) (opts : options) :
  - rate_bound <= sampling_rate <= rate_bound ->
  let outcome := decompose eda_signal sampling_rate method opts in
  let settings := solver_settings default_reltol in
  let solve_reached m :=
    lower method = "cvxeda"%string /\ cvxopt_installed = true
    /\ cvxeda_model eda_signal sampling_rate default_tau0 default_tau1
         default_delta_knot = Ok m in
  let solve_outcome m :=
    solvers_qp settings
      (qp_encoding m eda_signal default_alpha default_gamma default_solver) in
  (forall m e, solve_reached m -> qp_failure (solve_outcome m) = Some e ->
     outcome = (Raise e, settings))
  /\ (forall m, solve_reached m -> qp_failure (solve_outcome m) = None ->
      snd outcome = opts)
  /\ ((forall m, ~ solve_reached m) -> snd outcome = opts)
  /\ (snd outcome <> opts ->
      exists m e, solve_reached m /\ qp_failure (solve_outcome m) = Some e
                  /\ outcome = (Raise e, settings)).
Proof.
  intros _. cbv zeta.
  assert (Hreached : forall m,
            lower method = "cvxeda"%string -> cvxopt_installed = true ->
            cvxeda_model eda_signal sampling_rate default_tau0 default_tau1
              default_delta_knot = Ok m ->
            decompose eda_signal sampling_rate method opts =
              match qp_failure (solvers_qp (solver_settings default_reltol)
                                  (qp_encoding m eda_signal default_alpha default_gamma
                                     default_solver)) with
              | Some e => (Raise e, solver_settings default_reltol)
              | None =>
                  (fst (decompose eda_signal sampling_rate method opts), opts)
              end).
  { intros m Hm Hi Hmod. unfold eda_decompose. rewrite Hm. simpl String.eqb. cbv iota.
    unfold _eda_decompose_cvxeda. rewrite Hi, Hmod. cbn [negb].
    rewrite !dict_restore. unfold cvxeda_solve, default_solver, qp_failure.
    rewrite bool_decide_eq_false_2 by discriminate.
    destruct (solvers_qp _ _) as [res|e]; [|reflexivity].
    destruct (sol_primal_objective res); [|reflexivity].
    now destruct (sol_x res). }
  assert (Hother : (forall m, ~ (lower method = "cvxeda"%string
                                 /\ cvxopt_installed = true
                                 /\ cvxeda_model eda_signal sampling_rate default_tau0
                                      default_tau1 default_delta_knot = Ok m)) ->
                   snd (decompose eda_signal sampling_rate method opts) = opts).
  { intros Hnot. unfold eda_decompose.
    destruct (String.eqb (lower method) "cvxeda") eqn:Hm.
    - apply String.eqb_eq in Hm. unfold _eda_decompose_cvxeda.
      destruct cvxopt_installed eqn:Hi; cbn [negb]; [|reflexivity].
      destruct (cvxeda_model _ _ _ _ _) as [m|e] eqn:Hmod; [|reflexivity].
      exfalso. now apply (Hnot m).
    - destruct (method_in _ _); [reflexivity|].
      now destruct (method_in _ _). }
  split; [|split; [|split]].
  - intros m e (Hm & Hi & Hmod) He. rewrite (Hreached m Hm Hi Hmod). now rewrite He.
  - intros m (Hm & Hi & Hmod) He. rewrite (Hreached m Hm Hi Hmod). now rewrite He.
  - exact Hother.
  - intros Hne.
    destruct (String.eqb (lower method) "cvxeda") eqn:Hm.
    2:{ exfalso. apply Hne, Hother. intros m (E & _). apply String.eqb_neq in Hm.
        contradiction. }
    apply String.eqb_eq in Hm.
    destruct cvxopt_installed eqn:Hi.
    2:{ exfalso. apply Hne, Hother. intros m (_ & E & _). discriminate E. }
    destruct (cvxeda_model eda_signal sampling_rate default_tau0 default_tau1
                default_delta_knot) as [m|e] eqn:Hmod.
    2:{ exfalso. apply Hne, Hother. intros m (_ & _ & E). discriminate E. }
    pose proof (Hreached m Hm eq_refl eq_refl) as Hcall.
    destruct (qp_failure _) as [e|] eqn:He.
    + exists m, e. auto.
    + exfalso. apply Hne. now rewrite Hcall.
Qed.

(** X4.  The options found on entry play no part in the solve: the solver
    is run under [reltol] and [show_progress = False] alone, so two calls
    that differ only in the options set beforehand have the same outcome. *)
Theorem entry_options_ignored (eda_signal : vec) (sampling_rate : Z)
    (tau0 tau1 delta_knot alpha gamma reltol : Qc) (solver : option string)
    (opts opts' : options) :
  fst (_eda_decompose_cvxeda cvxopt_installed solvers_qp solvers_conelp
         eda_signal sampling_rate tau0 tau1 delta_knot alpha gamma solver reltol opts) =
  fst (_eda_decompose_cvxeda cvxopt_installed solvers_qp solvers_conelp
         eda_signal sampling_rate tau0 tau1 delta_knot alpha gamma solver reltol opts')
  /\ (forall m,
        cvxopt_installed = true ->
        cvxeda_model eda_signal sampling_rate tau0 tau1 delta_knot = Ok m ->
        fst (_eda_decompose_cvxeda cvxopt_installed solvers_qp solvers_conelp
               eda_signal sampling_rate tau0 tau1 delta_knot alpha gamma solver
               reltol opts) =
        match cvxeda_solve solvers_qp solvers_conelp m eda_signal alpha gamma solver
                (<["reltol"%string := OptFloat reltol]>
                   (<["show_progress"%string := OptBool false]> ∅)) with
        | Raise e => Raise e
        | Ok res =>
            match sol_x res with
            | None => Raise TypeError
            | Some x =>
                rbind (cvxeda_decode m eda_signal x)
                      (fun d => pd_DataFrame (dec_tonic d) (dec_phasic d))
            end
        end).
Proof.
  split.
  - unfold _eda_decompose_cvxeda.
    destruct cvxopt_installed; cbn [negb]; [|reflexivity].
    destruct (cvxeda_model _ _ _ _ _) as [m|e]; [|reflexivity].
    rewrite !dict_restore.
    destruct (cvxeda_solve _ _ _ _ _ _ _ _) as [res|e]; [|reflexivity].
    now destruct (sol_x res).
  - intros m Hi Hm. unfold _eda_decompose_cvxeda. rewrite Hi, Hm. cbn [negb].
    rewrite !dict_restore. fold (solver_settings reltol).
    destruct (cvxeda_solve _ _ _ _ _ _ _ _) as [res|e]; [|reflexivity].
    now destruct (sol_x res).
Qed.

End FurtherDispatcherProperties.

(** ** The table returned *)

Lemma mat_vec_inv (k : nat) (m : mat) (x y : vec) :
  mat_vec k m x = Ok y -> y = times m x.
Proof.
  unfold mat_vec. destruct (Nat.eqb k (length x)); [|discriminate].
  now intros [= <-].
Qed.

Lemma vec_add_inv (a b c : vec) :
  vec_add a b = Ok c -> length c = length a.
Proof.
  unfold vec_add. destruct (Nat.eqb_spec (length a) (length b)); [|discriminate].
  intros [= <-]. now apply length_zip_with_eq.
Qed.

Lemma pd_DataFrame_inv (tonic phasic : vec) (df : DataFrame) :
  pd_DataFrame tonic phasic = Ok df ->
  df = [("EDA_Tonic"%string, tonic); ("EDA_Phasic"%string, phasic)]
  /\ length tonic = length phasic.
Proof.
  unfold pd_DataFrame. destruct (Nat.eqb_spec (length tonic) (length phasic)); [|discriminate].
  intros [= <-]. now split.
Qed.

(** Whatever vector is decoded, the signals that come out have one sample
    per sample of the input. *)
Lemma cvxeda_decode_lengths (m : cvx_model) (eda x : vec) (d : decoded) :
  well_shaped m ->
  cvxeda_decode m eda x = Ok d ->
  length (dec_tonic d) = mdl_n m /\ length (dec_phasic d) = mdl_n m.
Proof.
  intros Hws. unfold cvxeda_decode, sp_mul_vec.
  destruct (mat_vec (sp_cols (mdl_B m)) _ _) as [Bl|] eqn:HBl; [|discriminate].
  cbn [rbind].
  destruct (mat_vec (mdl_nC m) _ _) as [Cd|] eqn:HCd; [|discriminate].
  cbn [rbind].
  destruct (vec_add Bl Cd) as [tonic|] eqn:Ht; [|discriminate].
  cbn [rbind].
  destruct (mat_vec (sp_cols (mdl_A m)) _ _) as [driver|] eqn:HA; [|discriminate].
  cbn [rbind].
  destruct (mat_vec (sp_cols (mdl_M m)) _ _) as [phasic|] eqn:HM; [|discriminate].
  cbn [rbind].
  destruct (vec_sub eda phasic) as [r|]; [|discriminate]. cbn [rbind].
  destruct (vec_sub r tonic) as [residuals|]; [|discriminate]. cbn [rbind].
  intros [= <-]. cbn [dec_tonic dec_phasic].
  apply mat_vec_inv in HBl, HM. apply vec_add_inv in Ht. subst Bl phasic.
  rewrite Ht, !length_times, !length_sp_mat.
  split; [apply (ws_B m Hws) | apply (ws_M m Hws)].
Qed.

Section TableProperties.

Variable cvxopt_installed : bool.
Variable solvers_qp : options -> qp_problem -> solver_outcome.
Variable solvers_conelp : options -> cone_problem -> solver_outcome.
Variable signal_smooth : vec -> string -> Z -> result vec.
Variable signal_filter : vec -> Z -> option Qc -> option Qc -> string -> result vec.

Local Abbreviation decompose :=
  (eda_decompose cvxopt_installed solvers_qp solvers_conelp signal_smooth signal_filter).

(** X5.  Every table [eda_decompose] returns has exactly two columns,
    [EDA_Tonic] then [EDA_Phasic], of one length.  On the cvxEDA path that
    length is the number of samples of the signal, whatever vector the
    solver returned; on the median path it is so for every signal that
    does not consist of a single sample. *)
Theorem table_shape (eda_signal : vec) (sampling_rate : Z) (method : string)
    (opts opts' : options) (table : DataFrame) :
  decompose eda_signal sampling_rate method opts = (Ok table, opts') ->
  exists tonic phasic,
    table = [("EDA_Tonic"%string, tonic); ("EDA_Phasic"%string, phasic)]
    /\ length tonic = length phasic
    /\ (lower method = "cvxeda"%string -> length tonic = length eda_signal)
    /\ (In (lower method) ["median"; "smoothmedian"]%string ->
        length eda_signal <> 1%nat -> length tonic = length eda_signal).
Proof.
  unfold eda_decompose.
  destruct (String.eqb (lower method) "cvxeda") eqn:Hc.
  - (* cvxEDA *)
    unfold _eda_decompose_cvxeda.
    destruct cvxopt_installed; cbn [negb]; [|discriminate].
    destruct (cvxeda_model _ _ _ _ _) as [m|] eqn:Hm; [|discriminate].
    destruct (cvxeda_model_well_shaped _ _ _ _ _ _ Hm) as [Hws Hn].
    destruct (cvxeda_solve _ _ _ _ _ _ _ _) as [res|]; [|discriminate].
    destruct (sol_x res) as [x|]; [|discriminate].
    destruct (cvxeda_decode m eda_signal x) as [d|] eqn:Hd; [|discriminate].
    cbn [rbind]. intros [= Hdf _].
    apply pd_DataFrame_inv in Hdf as [-> Hlen].
    destruct (cvxeda_decode_lengths m eda_signal x d Hws Hd) as [Ht _].
    exists (dec_tonic d), (dec_phasic d).
    split; [reflexivity|]. split; [exact Hlen|]. split; [congruence|].
    intros Hin. apply String.eqb_eq in Hc. rewrite Hc in Hin.
    destruct Hin as [E|[E|[]]]; discriminate E.
  - assert (Hne : lower method <> "cvxeda"%string) by now apply String.eqb_neq.
    destruct (method_in (lower method) ["median"; "smoothmedian"]%string) eqn:Hmed.
    + (* median *)
      unfold _eda_decompose_mediansmooth.
      destruct (signal_smooth _ _ _) as [tonic|]; [|discriminate]. cbn [rbind].
      destruct (np_subtract eda_signal tonic) as [phasic|] eqn:Hsub; [|discriminate].
      cbn [rbind]. intros [= Hdf _].
      apply pd_DataFrame_inv in Hdf as [-> Hlen].
      exists tonic, phasic.
      split; [reflexivity|]. split; [exact Hlen|]. split; [contradiction|].
      intros _ Hn1. unfold np_subtract in Hsub.
      destruct (Nat.eqb_spec (length eda_signal) (length tonic)) as [E|E]; [lia|].
      destruct eda_signal as [|x [|x' rest]].
      * destruct tonic as [|y [|y' t]]; try discriminate Hsub.
        injection Hsub as <-. simpl in Hlen. discriminate Hlen.
      * simpl in Hn1. lia.
      * destruct tonic as [|y [|y' t]]; try discriminate Hsub.
        injection Hsub as <-. simpl in Hlen. discriminate Hlen.
    + destruct (method_in (lower method) ["highpass"; "biopac"; "acqknowledge"]%string)
        eqn:Hhp; [|discriminate].
      unfold _eda_decompose_highpass.
      destruct (signal_filter _ _ (Some cutoff) _ _) as [phasic|]; [|discriminate].
      cbn [rbind].
      destruct (signal_filter _ _ None _ _) as [tonic|]; [|discriminate].
      cbn [rbind]. intros [= Hdf _].
      apply pd_DataFrame_inv in Hdf as [-> Hlen].
      exists tonic, phasic.
      split; [reflexivity|]. split; [exact Hlen|]. split; [contradiction|].
      intros Hin. apply method_in_In in Hin. congruence.
Qed.

End TableProperties.

(** [table_shape] on the median path. *)
Lemma table_shape_witness :
  eda_decompose true qp_converges conelp_stalls smooth_flat filter_crude
    sample_signal 2 "median" ∅ =
    (Ok [("EDA_Tonic"%string, map (fun _ => fin 1) sample_signal);
         ("EDA_Phasic"%string,
          zip_with fsub sample_signal (map (fun _ => fin 1) sample_signal))], ∅)
  /\ exists tonic phasic : vec,
       length tonic = length phasic /\ length tonic = length sample_signal.
Proof.
  assert (H : eda_decompose true qp_converges conelp_stalls smooth_flat filter_crude
                sample_signal 2 "median" ∅ =
              (Ok [("EDA_Tonic"%string, map (fun _ => fin 1) sample_signal);
                   ("EDA_Phasic"%string,
                    zip_with fsub sample_signal (map (fun _ => fin 1) sample_signal))], ∅))
    by reflexivity.
  split; [exact H|].
  destruct (table_shape true qp_converges conelp_stalls smooth_flat filter_crude
              sample_signal 2 "median" ∅ ∅ _ H)
    as (tonic & phasic & _ & Hlen & _ & Hmed).
  exists tonic, phasic. split; [exact Hlen|].
  apply Hmed; [simpl; auto | discriminate].
Defined.

(** [method_case_insensitive] at two spellings of one name. *)
Lemma method_case_insensitive_witness :
  ascii_only "CVXEDA" = true /\ ascii_only "cvxEda" = true
  /\ same_up_to_case "CVXEDA" "cvxEda" = true
  /\ eda_decompose true qp_converges conelp_stalls smooth_flat filter_crude
       sample_signal 1 "CVXEDA" ∅ =
     eda_decompose true qp_converges conelp_stalls smooth_flat filter_crude
       sample_signal 1 "cvxEda" ∅.
Proof.
  assert (H1 : ascii_only "CVXEDA" = true) by reflexivity.
  assert (H2 : ascii_only "cvxEda" = true) by reflexivity.
  assert (H : same_up_to_case "CVXEDA" "cvxEda" = true) by reflexivity.
  split; [exact H1|]. split; [exact H2|]. split; [exact H|].
  exact (proj1 (method_case_insensitive true qp_converges conelp_stalls smooth_flat
                  filter_crude sample_signal 1 "CVXEDA" "cvxEda" ∅ H1 H2 H)).
Defined.

(** ** The sampling rate on the cvxEDA path *)

Section SamplingRateProperties.

Variable cvxopt_installed : bool.
Variable solvers_qp : options -> qp_problem -> solver_outcome.
Variable solvers_conelp : options -> cone_problem -> solver_outcome.
Variable signal_smooth : vec -> string -> Z -> result vec.
Variable signal_filter : vec -> Z -> option Qc -> option Qc -> string -> result vec.

Local Abbreviation decompose :=
  (eda_decompose cvxopt_installed solvers_qp solvers_conelp signal_smooth signal_filter).

(** X6.  The sampling rate on the cvxEDA path of [eda_decompose], for a
    signal of two samples or more.  A rate of zero stops the call with
    [ZeroDivisionError].  Up to [rate_bound] samples per second in either
    direction the knot spacing that binary64 arithmetic gives is exactly
    [10 * sampling_rate]: a negative rate then stops the call with
    [ValueError], before the solver is reached and with the options
    untouched, and a positive rate yields a model whose kernel has
    [40 * sampling_rate - 3] samples and whose spline matrix has one column
    per started stretch of [10 * sampling_rate] samples.  (Beyond the
    bound nothing is stated: a rate so large that its reciprocal is the
    float zero makes line 176 raise [ZeroDivisionError].) *)
Theorem cvxeda_sampling_rate (eda_signal : vec) (sampling_rate : Z)
    (method : string) (opts : options) :
  cvxopt_installed = true ->
  lower method = "cvxeda"%string ->
  (2 <= length eda_signal)%nat ->
  (sampling_rate = 0 ->
     decompose eda_signal sampling_rate method opts = (Raise ZeroDivisionError, opts))
  /\ (- rate_bound <= sampling_rate < 0 ->
      float_knot_samples sampling_rate = Ok (10 * sampling_rate)
      /\ decompose eda_signal sampling_rate method opts = (Raise ValueError, opts))
  /\ (0 < sampling_rate <= rate_bound ->
      float_knot_samples sampling_rate = Ok (10 * sampling_rate)
      /\ exists m kernel,
        cvxeda_model eda_signal sampling_rate default_tau0 default_tau1
          default_delta_knot = Ok m
        /\ spline_kernel (10 * sampling_rate) = Ok kernel
        /\ length kernel = Z.to_nat (40 * sampling_rate - 3)
        /\ mdl_B m = spline_matrix kernel (length eda_signal) (10 * sampling_rate)
        /\ sp_rows (mdl_B m) = length eda_signal
        /\ sp_cols (mdl_B m) = mdl_nB m
        /\ (Z.of_nat (mdl_nB m) - 1) * (10 * sampling_rate) < Z.of_nat (length eda_signal)
             <= Z.of_nat (mdl_nB m) * (10 * sampling_rate)).
Proof.
  intros Hi Hm Hn.
  destruct default_time_constants_nonzero as [H0 H1].
  split; [|split].
  - intros ->. unfold eda_decompose, _eda_decompose_cvxeda.
    rewrite Hm, Hi. reflexivity.
  - intros Hsr. split.
    { rewrite knot_samples_in_binary64 by lia. now rewrite default_knot_samples by lia. }
    unfold eda_decompose, _eda_decompose_cvxeda.
    rewrite Hm, Hi. cbn [String.eqb negb].
    replace (String.eqb "cvxeda" "cvxeda") with true by reflexivity.
    unfold cvxeda_model.
    rewrite py_div_ok by (apply Qc_of_int_nonzero; lia). cbn [rbind].
    rewrite bateman_ar_ok by assumption. cbn [rbind].
    destruct (arma_matrix_ok
                (map (fun num => np_divide num
                        (ar_denominator (1 / py_min default_tau1 default_tau0)
                           (1 / py_max default_tau1 default_tau0)
                           (1 / Qc_of_int sampling_rate)))
                     (ar_numerators (1 / py_min default_tau1 default_tau0)
                        (1 / py_max default_tau1 default_tau0)
                        (1 / Qc_of_int sampling_rate)))
                (length eda_signal) Hn) as [A ->].
    cbn [rbind]. destruct (arma_matrix_ok ma (length eda_signal) Hn) as [Mm ->].
    cbn [rbind].
    rewrite py_div_ok by (apply Qcinv_nonzero, Qc_of_int_nonzero; lia).
    cbn [rbind]. rewrite default_knot_samples by lia.
    unfold spline_kernel. rewrite order1_spline_empty by lia. reflexivity.
  - intros Hsr. split.
    { rewrite knot_samples_in_binary64 by lia. now rewrite default_knot_samples by lia. }
    assert (Hs : 1 <= py_round (default_delta_knot / (1 / Qc_of_int sampling_rate))%Qc)
      by (rewrite default_knot_samples; lia).
    destruct (cvxeda_model_ok eda_signal sampling_rate default_tau0 default_tau1
                default_delta_knot ltac:(lia) H0 H1 Hn Hs) as [m Hmod].
    set (s := 10 * sampling_rate) in *.
    set (kernel := normalise (convolution (order1_spline s) (order1_spline s))).
    assert (Hlen : length kernel = Z.to_nat (4 * s - 3)).
    { unfold kernel. rewrite length_normalise, length_convolution.
      rewrite length_order1_spline by lia. lia. }
    destruct (spline_matrix_shape kernel (length eda_signal) s ltac:(lia) ltac:(lia) Hlen)
      as (Hr & Hc & Hq & _).
    destruct (knots_ceiling (Z.of_nat (length eda_signal)) s ltac:(lia) ltac:(lia))
      as (Hq1 & Hq2 & Hq3).
    destruct (cvxeda_model_inv _ _ _ _ _ _ Hmod)
      as (frequency & ar & spl & _ & Hf & _ & _ & _ & Hspl & _ & HB & HnB & _).
    subst frequency. cbv zeta in Hspl, HB, HnB.
    pose proof (default_knot_samples sampling_rate ltac:(lia)) as Hround.
    fold s in Hround.
    rewrite Hround in Hspl. rewrite Hround in HB. rewrite Hround in HnB.
    rewrite spline_kernel_ok in Hspl by lia. injection Hspl as <-. fold kernel in HB.
    exists m, kernel.
    split; [exact Hmod|]. split; [now apply spline_kernel_ok; lia|].
    split; [rewrite Hlen; f_equal; lia|].
    split; [exact HB|]. rewrite HB, HnB.
    split; [exact Hr|]. split; [exact Hc|]. rewrite Hq. lia.
Qed.

End SamplingRateProperties.

Section ShortSignal.

Variable cvxopt_installed : bool.
Variable solvers_qp : options -> qp_problem -> solver_outcome.
Variable solvers_conelp : options -> cone_problem -> solver_outcome.

(** X7.  A signal of a single sample cannot be decomposed by cvxEDA: the
    ARMA taps would have to be repeated [-1] times and the call stops with
    [ValueError], for every non-zero sampling rate and non-zero time
    constants and whatever the other parameters, before the solver is
    reached and with the options untouched. *)
Theorem single_sample_rejected (eda_signal : vec) (sampling_rate : Z)
    (tau0 tau1 delta_knot alpha gamma reltol : Qc) (solver : option string)
    (opts : options) :
  cvxopt_installed = true ->
  length eda_signal = 1%nat ->
  sampling_rate <> 0 -> tau0 <> 0%Qc -> tau1 <> 0%Qc ->
  _eda_decompose_cvxeda cvxopt_installed solvers_qp solvers_conelp eda_signal
    sampling_rate tau0 tau1 delta_knot alpha gamma solver reltol opts =
    (Raise ValueError, opts).
Proof.
  intros Hi Hn Hsr H0 H1. unfold _eda_decompose_cvxeda. rewrite Hi. cbn [negb].
  unfold cvxeda_model.
  rewrite py_div_ok by now apply Qc_of_int_nonzero. cbn [rbind].
  rewrite bateman_ar_ok by assumption. cbn [rbind].
  rewrite Hn. reflexivity.
Qed.

End ShortSignal.

(** ** The trend *)

Lemma nth_trend_matrix (n k : nat) :
  (k < n)%nat ->
  nth k (trend_matrix n) [] =
    [Some (Fin 1%Qc); Some (Fin (Qc_of_int (Z.of_nat k + 1) / Qc_of_nat n)%Qc)].
Proof.
  intros Hk. unfold trend_matrix.
  set (row := fun j : Z => [Some (Fin 1%Qc); Some (np_divide (Qc_of_int j) (Qc_of_nat n))]).
  rewrite (nth_indep _ [] (row 0)) by (rewrite length_map, length_arange; lia).
  rewrite (map_nth row), nth_arange by lia.
  unfold row. rewrite np_divide_fin.
  - now rewrite (Z.add_comm 1 (Z.of_nat k)).
  - unfold Qc_of_nat. fold (Qc_of_int (Z.of_nat n)). apply Qc_of_int_nonzero. lia.
Qed.

(** X8.  The trend term [C d] is a straight line over the samples: for
    finite coefficients [d0], [d1] its value at sample [k] (counted from 0)
    is [d0 + d1 * (k+1)/n], which is [d0 + d1] at the last sample. *)
Theorem trend_is_a_line (n k : nat) (d0 d1 : Qc) :
  (k < n)%nat ->
  length (times (trend_matrix n) [Fin d0; Fin d1]) = n
  /\ nth k (times (trend_matrix n) [Fin d0; Fin d1]) NaN =
       Fin (d0 + d1 * (Qc_of_int (Z.of_nat k + 1) / Qc_of_nat n))%Qc
  /\ nth (n - 1) (times (trend_matrix n) [Fin d0; Fin d1]) NaN = Fin (d0 + d1)%Qc.
Proof.
  intros Hk.
  assert (Hnth : forall j, (j < n)%nat ->
            nth j (times (trend_matrix n) [Fin d0; Fin d1]) NaN =
              Fin (d0 + d1 * (Qc_of_int (Z.of_nat j + 1) / Qc_of_nat n))%Qc).
  { intros j Hj. unfold times.
    set (f := fun r : list (option fp) => stored (dot r (map Some [Fin d0; Fin d1]))).
    rewrite (nth_indep _ NaN (f [])) by (rewrite length_map, length_trend_matrix; lia).
    rewrite (map_nth f), nth_trend_matrix by exact Hj.
    unfold f, dot. cbn. f_equal. ring. }
  split; [now rewrite length_times, length_trend_matrix|].
  split; [now apply Hnth|].
  rewrite Hnth by lia. f_equal.
  replace (Z.of_nat (n - 1) + 1) with (Z.of_nat n) by lia.
  unfold Qc_of_nat. fold (Qc_of_int (Z.of_nat n)).
  field. apply Qc_of_int_nonzero. lia.
Qed.

(** ** The shape of the two encodings *)

Lemma has_shape_mcols (r c : nat) (m : mat) :
  has_shape r c m -> (1 <= r)%nat -> mcols m = c.
Proof.
  intros [Hr Hc] H1. destruct m as [|row m]; simpl in *; [lia|].
  now inversion Hc.
Qed.

Lemma has_shape_mmul (a b : mat) : has_shape (length a) (mcols b) (mmul a b).
Proof.
  unfold mmul. split; [apply length_map|].
  apply List.Forall_map, List.Forall_forall. intros r _. now rewrite length_map, length_seq.
Qed.

Lemma has_shape_densify (r c : nat) (m : mat) :
  has_shape r c m -> has_shape r c (densify m).
Proof.
  intros [Hr Hc]. unfold densify. split; [now rewrite length_map|].
  apply Forall_map. eapply Forall_impl; [exact Hc|].
  intros row Hrow. simpl. now rewrite length_map.
Qed.

Lemma has_shape_mmul_dense (a b : mat) :
  has_shape (length a) (mcols b) (mmul_dense a b).
Proof. apply has_shape_densify, has_shape_mmul. Qed.

Lemma has_shape_mneg (r c : nat) (m : mat) :
  has_shape r c m -> has_shape r c (mneg m).
Proof.
  intros [Hr Hc]. unfold mneg. split; [now rewrite length_map|].
  apply Forall_map. eapply Forall_impl; [exact Hc|].
  intros row Hrow. simpl. now rewrite length_map.
Qed.

Lemma has_shape_mscale (k : fp) (r c : nat) (m : mat) :
  has_shape r c m -> has_shape r c (mscale k m).
Proof.
  intros [Hr Hc]. unfold mscale. split; [now rewrite length_map|].
  apply Forall_map. eapply Forall_impl; [exact Hc|].
  intros row Hrow. simpl. now rewrite length_map.
Qed.

Lemma Forall_zip_with_rows {A : Type} (f : list A -> list A -> list A)
    (P Q R : list A -> Prop) (a b : list (list A)) :
  (forall x y, P x -> Q y -> R (f x y)) ->
  Forall P a -> Forall Q b -> Forall R (zip_with f a b).
Proof.
  intros Hf Ha. revert b. induction Ha as [|x a Hx Ha IH]; intros b Hb; simpl.
  - constructor.
  - destruct Hb as [|y b Hy Hb]; constructor; auto.
Qed.

Lemma has_shape_madd (r c : nat) (a b : mat) :
  has_shape r c a -> has_shape r c b -> has_shape r c (madd a b).
Proof.
  intros [Hra Hca] [Hrb Hcb]. unfold madd. split.
  - rewrite length_zip_with_eq; congruence.
  - eapply Forall_zip_with_rows; [|exact Hca|exact Hcb].
    intros x y Hx Hy. simpl in *. rewrite length_zip_with_eq; congruence.
Qed.

Lemma has_shape_hstack2 (r c1 c2 : nat) (a b : mat) :
  has_shape r c1 a -> has_shape r c2 b ->
  has_shape r (c1 + c2) (zip_with (@app (option fp)) a b).
Proof.
  intros [Hra Hca] [Hrb Hcb]. split.
  - rewrite length_zip_with_eq; congruence.
  - eapply Forall_zip_with_rows; [|exact Hca|exact Hcb].
    intros x y Hx Hy. simpl in *. rewrite length_app. congruence.
Qed.

Lemma has_shape_app (r1 r2 c : nat) (a b : mat) :
  has_shape r1 c a -> has_shape r2 c b -> has_shape (r1 + r2) c (a ++ b).
Proof.
  intros [Hra Hca] [Hrb Hcb]. split.
  - rewrite length_app. congruence.
  - apply Forall_app. now split.
Qed.

Lemma has_shape_mtrans (r c : nat) (m : mat) :
  has_shape r c m -> (1 <= r)%nat -> has_shape c r (mtrans m).
Proof.
  intros Hs H1. pose proof (has_shape_mcols r c m Hs H1) as Hc.
  destruct Hs as [Hr _]. unfold mtrans. rewrite Hc. split.
  - now rewrite length_map, length_seq.
  - apply List.Forall_map, List.Forall_forall. intros j _. unfold column.
    now rewrite length_map.
Qed.

Lemma has_shape_sp_mat (A : spmatrix) : has_shape (sp_rows A) (sp_cols A) (sp_mat A).
Proof.
  unfold sp_mat. split; [now rewrite length_map, length_seq|].
  apply List.Forall_map, List.Forall_forall. intros i _. now rewrite length_map, length_seq.
Qed.

Lemma has_shape_cvx (m n : nat) : has_shape m n (_cvx m n).
Proof.
  unfold _cvx. split; [apply repeat_length|].
  apply List.Forall_forall. intros row Hrow. apply repeat_spec in Hrow. subst row.
  apply repeat_length.
Qed.

Lemma has_shape_const_mat (v : fp) (m n : nat) : has_shape m n (const_mat v m n).
Proof.
  unfold const_mat. split; [apply repeat_length|].
  apply List.Forall_forall. intros row Hrow. apply repeat_spec in Hrow. subst row.
  apply repeat_length.
Qed.

Lemma has_shape_sp_eye (k : nat) : has_shape k k (sp_eye k).
Proof.
  unfold sp_eye. split; [now rewrite length_map, length_seq|].
  apply List.Forall_map, List.Forall_forall. intros i _. now rewrite length_map, length_seq.
Qed.

Lemma has_shape_scalar (q : Qc) : has_shape 1 1 (scalar q).
Proof. split; [reflexivity|]. repeat constructor. Qed.

Lemma has_shape_col_of_vec (v : vec) : has_shape (length v) 1 (col_of_vec v).
Proof.
  unfold col_of_vec. split; [apply length_map|].
  apply List.Forall_map, List.Forall_forall. now intros x _.
Qed.

Lemma has_shape_trend_matrix (n : nat) : has_shape n 2 (trend_matrix n).
Proof.
  split; [apply length_trend_matrix|].
  unfold trend_matrix. apply List.Forall_map, List.Forall_forall. now intros k _.
Qed.

Lemma has_shape_row_times_sp (k : fp) (n c : nat) (A : mat) :
  mcols A = c -> has_shape c 1 (row_times_sp k n A).
Proof.
  intros Hc. unfold row_times_sp. apply has_shape_mtrans; [|lia].
  pose proof (has_shape_mmul_dense (const_mat k 1 n) A) as H.
  now rewrite Hc in H.
Qed.

Lemma entry_sp_mat (A : spmatrix) (i j : nat) :
  (i < sp_rows A)%nat -> (j < sp_cols A)%nat ->
  entry (sp_mat A) i j = sp_lookup A (Z.of_nat i) (Z.of_nat j).
Proof.
  intros Hi Hj. unfold entry, sp_mat.
  set (row := fun i : nat =>
                map (fun j : nat => sp_lookup A (Z.of_nat i) (Z.of_nat j))
                    (seq 0 (sp_cols A))).
  rewrite (nth_indep _ [] (row O)) by (rewrite length_map, length_seq; lia).
  rewrite (map_nth row), seq_nth by lia. unfold row.
  set (cell := fun j : nat => sp_lookup A (Z.of_nat (0 + i)) (Z.of_nat j)).
  rewrite (nth_indep _ None (cell O)) by (rewrite length_map, length_seq; lia).
  rewrite (map_nth cell), seq_nth by lia. reflexivity.
Qed.

Lemma fneg_fadd (x y : fp) : fneg (fadd x y) = fadd (fneg x) (fneg y).
Proof.
  destruct x, y; simpl; try reflexivity. f_equal. ring.
Qed.

(** Negating the stored values negates what a lookup finds. *)
Lemma sp_lookup_negated (l : list (Z * Z * fp)) (i j : Z) (acc : option fp) :
  fold_left (lookup_step i j) (map (fun e => (fst e, fneg (snd e))) l) (fneg <$> acc) =
  fneg <$> fold_left (lookup_step i j) l acc.
Proof.
  revert acc. induction l as [|[[r c] v] l IH]; intros acc; [reflexivity|].
  simpl. destruct ((r =? i) && (c =? j)).
  - rewrite <- IH. f_equal. destruct acc as [a|]; simpl; [|reflexivity].
    now rewrite fneg_fadd.
  - apply IH.
Qed.

Lemma model_matrix_shapes (eda_signal : vec) (sampling_rate : Z)
    (tau0 tau1 delta_knot : Qc) (m : cvx_model) :
  cvxeda_model eda_signal sampling_rate tau0 tau1 delta_knot = Ok m ->
  let n := length eda_signal in
  mdl_n m = n /\ (2 <= n)%nat /\ (1 <= mdl_nB m)%nat /\ mdl_nC m = 2%nat
  /\ has_shape n n (sp_mat (mdl_A m))
  /\ has_shape n n (sp_mat (mdl_M m))
  /\ has_shape n (mdl_nB m) (sp_mat (mdl_B m))
  /\ has_shape n 2 (mdl_C m).
Proof.
  intros Hm. cbv zeta.
  destruct (cvxeda_model_well_shaped _ _ _ _ _ _ Hm) as [Hws Hn].
  destruct (cvxeda_model_inv _ _ _ _ _ _ Hm)
    as (_ & _ & _ & _ & _ & _ & _ & _ & _ & _ & _ & _ & HC & _).
  destruct Hws as [Hn2 [HA1 HA2] [HM1 HM2] [HB1 HB2] HnB _ HnC _].
  rewrite <- Hn.
  split; [reflexivity|]. split; [exact Hn2|]. split; [exact HnB|]. split; [exact HnC|].
  split; [rewrite <- HA1 at 1; rewrite <- HA2; apply has_shape_sp_mat|].
  split; [rewrite <- HM1 at 1; rewrite <- HM2; apply has_shape_sp_mat|].
  split; [rewrite <- HB1, <- HB2; apply has_shape_sp_mat|].
  rewrite HC, Hn. apply has_shape_trend_matrix.
Qed.

(** X9.  The quadratic program handed to the solver for a signal of [n]
    samples and [nB] knots has [N = n + 2 + nB] variables: [H] is [N] by
    [N], [f] has [N] entries, [G] is [n] by [N] and [h] is [n] zeros.  [G]
    holds the taps of [A] with the opposite sign in its first [n] columns
    and nothing in the columns of the trend and spline coefficients, so the
    constraint [G x <= h] reads [A q >= 0]. *)
Theorem qp_encoding_shape (eda_signal : vec) (sampling_rate : Z)
    (tau0 tau1 delta_knot alpha gamma : Qc) (solver : option string) (m : cvx_model) :
  cvxeda_model eda_signal sampling_rate tau0 tau1 delta_knot = Ok m ->
  let n := length eda_signal in
  let N := (n + 2 + mdl_nB m)%nat in
  let p := qp_encoding m eda_signal alpha gamma solver in
  has_shape N N (qp_H p)
  /\ has_shape N 1 (qp_f p)
  /\ has_shape n N (qp_G p)
  /\ qp_h p = repeat [Some (Fin 0%Qc)] n
  /\ (forall i j, (i < n)%nat -> (j < N)%nat ->
        entry (qp_G p) i j = fneg <$> sp_lookup (mdl_A m) (Z.of_nat i) (Z.of_nat j))
  /\ (forall i j, (n <= j)%nat ->
        sp_lookup (mdl_A m) (Z.of_nat i) (Z.of_nat j) = None).
Proof.
  intros Hm. cbv zeta.
  destruct (model_matrix_shapes _ _ _ _ _ _ Hm)
    as (Hn & Hn2 & HnB & HnC & HA & HM & HB & HC).
  set (n := length eda_signal) in *. set (nB := mdl_nB m) in *.
  assert (HMt : has_shape n n (mtrans (sp_mat (mdl_M m))))
    by (apply has_shape_mtrans; [exact HM | lia]).
  assert (HCt : has_shape 2 n (mtrans (mdl_C m)))
    by (apply has_shape_mtrans; [exact HC | lia]).
  assert (HBt : has_shape nB n (mtrans (sp_mat (mdl_B m))))
    by (apply has_shape_mtrans; [exact HB | lia]).
  assert (HcA : mcols (sp_mat (mdl_A m)) = n) by (eapply has_shape_mcols; [exact HA | lia]).
  assert (HcM : mcols (sp_mat (mdl_M m)) = n) by (eapply has_shape_mcols; [exact HM | lia]).
  assert (HcB : mcols (sp_mat (mdl_B m)) = nB) by (eapply has_shape_mcols; [exact HB | lia]).
  assert (HcC : mcols (mdl_C m) = 2%nat) by (eapply has_shape_mcols; [exact HC | lia]).
  assert (Hy : has_shape n 1 (col_of_vec eda_signal)) by apply has_shape_col_of_vec.
  assert (Hcy : mcols (col_of_vec eda_signal) = 1%nat)
    by (eapply has_shape_mcols; [exact Hy | lia]).
  assert (Hprod : forall a b r c, has_shape r (length b) a -> mcols b = c ->
                    has_shape r c (mmul a b) /\ has_shape r c (mmul_dense a b)).
  { intros a b r c [Hr _] Hc. rewrite <- Hr, <- Hc.
    split; [apply has_shape_mmul | apply has_shape_mmul_dense]. }
  assert (HlM : length (sp_mat (mdl_M m)) = n) by apply HM.
  assert (HlB : length (sp_mat (mdl_B m)) = n) by apply HB.
  assert (HlC : length (mdl_C m) = n) by apply HC.
  assert (Hly : length (col_of_vec eda_signal) = n) by apply Hy.
  assert (Hf : has_shape (n + 2 + nB) 1 (qp_f (qp_encoding m eda_signal alpha gamma solver))).
  { unfold qp_encoding. cbn [qp_f]. rewrite Hn. unfold vstack. simpl concat.
    rewrite app_nil_r, <- Nat.add_assoc.
    apply has_shape_app; [|apply has_shape_app].
    - apply has_shape_madd; [now apply has_shape_row_times_sp|].
      apply has_shape_mneg. apply Hprod; [now rewrite Hly | exact Hcy].
    - apply has_shape_mneg. apply Hprod; [now rewrite Hly | exact Hcy].
    - apply has_shape_mneg. apply Hprod; [now rewrite Hly | exact Hcy]. }
  split.
  { unfold qp_encoding. cbn [qp_H]. unfold block_matrix. cbn [map hstack].
    unfold vstack. simpl concat. rewrite !app_nil_r.
    replace (n + 2 + nB)%nat with (n + (2 + nB))%nat at 2 by lia.
    apply has_shape_hstack2; [|apply has_shape_hstack2].
    - rewrite <- Nat.add_assoc. apply has_shape_app; [|apply has_shape_app];
        apply Hprod; rewrite ?HlM; assumption.
    - rewrite <- Nat.add_assoc. apply has_shape_app; [|apply has_shape_app];
        apply Hprod; rewrite ?HlC; assumption.
    - rewrite <- Nat.add_assoc. apply has_shape_app; [|apply has_shape_app].
      + apply Hprod; rewrite ?HlB; assumption.
      + apply Hprod; rewrite ?HlB; assumption.
      + apply has_shape_madd.
        * apply Hprod; rewrite ?HlB; assumption.
        * apply has_shape_mscale, has_shape_sp_eye. }
  split; [exact Hf|].
  assert (HG : qp_G (qp_encoding m eda_signal alpha gamma solver) =
               sp_mat {| sp_entries := map (fun e => (fst e, fneg (snd e)))
                                           (sp_entries (mdl_A m));
                         sp_rows := n; sp_cols := (n + 2 + nB)%nat |}).
  { pose proof (proj1 Hf) as Hlf. unfold qp_encoding in Hlf. cbn [qp_f] in Hlf.
    rewrite Hn in Hlf.
    unfold qp_encoding. cbn [qp_G]. rewrite Hn. f_equal. f_equal. exact Hlf. }
  split; [rewrite HG; apply has_shape_sp_mat|].
  split; [unfold qp_encoding; cbn [qp_h]; now rewrite Hn|].
  split.
  - intros i j Hi Hj. rewrite HG, entry_sp_mat by (simpl; lia).
    unfold sp_lookup. cbn [sp_entries].
    apply (sp_lookup_negated (sp_entries (mdl_A m)) _ _ None).
  - intros i j Hj.
    destruct (cvxeda_model_inv _ _ _ _ _ _ Hm)
      as (frequency & ar & spl & _ & _ & Har & HAm & _).
    assert (Har3 : exists t0 t1 t2, ar = [t0; t1; t2]).
    { unfold bateman_ar in Har.
      destruct (bateman_a1 tau0 tau1); [|discriminate].
      destruct (bateman_a0 tau0 tau1); [|discriminate].
      injection Har as <-. unfold ar_numerators. simpl. eauto. }
    destruct Har3 as (t0 & t1 & t2 & ->).
    destruct (arma_matrix_banded _ _ _ _ _ HAm) as (_ & _ & Hband).
    rewrite Hband. fold n.
    destruct ((2 <=? Z.of_nat i) && (Z.of_nat i <? Z.of_nat n)) eqn:E; [|reflexivity].
    apply andb_true_iff in E as [_ E]. apply Z.ltb_lt in E.
    unfold band_value.
    destruct (Z.eqb_spec (Z.of_nat j) (Z.of_nat i)); [lia|].
    destruct (Z.eqb_spec (Z.of_nat j) (Z.of_nat i - 1)); [lia|].
    destruct (Z.eqb_spec (Z.of_nat j) (Z.of_nat i - 2)); [lia|]. reflexivity.
Qed.

Lemma has_shape_eq (r r' c c' : nat) (m : mat) :
  has_shape r c m -> r = r' -> c = c' -> has_shape r' c' m.
Proof. now intros H <- <-. Qed.

Lemma has_shape_hstack2_eq (r1 r2 c1 c2 : nat) (a b : mat) :
  has_shape r1 c1 a -> has_shape r2 c2 b -> r1 = r2 ->
  has_shape r1 (c1 + c2) (zip_with (@app (option fp)) a b).
Proof. intros Ha Hb <-. now apply has_shape_hstack2. Qed.

Ltac stack_shapes :=
  repeat first
    [ eassumption
    | apply has_shape_cvx
    | apply has_shape_scalar
    | apply has_shape_sp_eye
    | apply has_shape_col_of_vec
    | apply has_shape_mneg
    | apply has_shape_densify
    | eapply has_shape_app
    | eapply has_shape_hstack2_eq ].

(** X10.  The cone program built for [solver = 'conelp'] has two
    variables more than the quadratic one, [n + 2 + 2 + nB], and
    [2n + nB + 4] constraint rows: [G] has that many rows and one column
    per variable, and [h] and [c] have one entry per row and per variable.
    The cone dimensions handed to the solver, [n] linear rows and two
    second-order cones of [n + 2] and [nB + 2] rows, add up to the rows of
    [G]. *)
Theorem cone_encoding_shape (eda_signal : vec) (sampling_rate : Z)
    (tau0 tau1 delta_knot alpha gamma : Qc) (m : cvx_model) :
  cvxeda_model eda_signal sampling_rate tau0 tau1 delta_knot = Ok m ->
  let n := length eda_signal in
  let nB := mdl_nB m in
  let rows := (2 * n + nB + 4)%nat in
  let vars := (n + 2 + 2 + nB)%nat in
  let p := cone_encoding m eda_signal alpha gamma in
  has_shape rows vars (cp_G p)
  /\ has_shape rows 1 (cp_h p)
  /\ has_shape vars 1 (cp_c p)
  /\ (cp_dims_l p + list_sum (cp_dims_q p) + list_sum (cp_dims_s p))%nat = rows.
Proof.
  intros Hm. cbv zeta.
  destruct (model_matrix_shapes _ _ _ _ _ _ Hm)
    as (Hn & Hn2 & HnB & HnC & HA & HM & HB & HC).
  set (n := length eda_signal) in *. set (nB := mdl_nB m) in *.
  assert (HcA : mcols (sp_mat (mdl_A m)) = n) by (eapply has_shape_mcols; [exact HA | lia]).
  assert (Hrow : has_shape n 1 (row_times_sp (Fin alpha) n (sp_mat (mdl_A m))))
    by now apply has_shape_row_times_sp.
  assert (Hy : has_shape n 1 (col_of_vec eda_signal)) by apply has_shape_col_of_vec.
  unfold cone_encoding. cbn [cp_G cp_h cp_c cp_dims_l cp_dims_q cp_dims_s].
  fold nB. rewrite Hn, HnC.
  unfold block_matrix, vstack. cbn [map hstack concat]. rewrite !app_nil_r.
  split; [|split; [|split]].
  - eapply has_shape_eq; [stack_shapes | |]; lia.
  - eapply has_shape_eq; [stack_shapes | |]; lia.
  - eapply has_shape_eq; [stack_shapes | |]; lia.
  - simpl. lia.
Qed.

(** ** The entries of the spline matrix *)

Lemma combine_of_maps {A B C : Type} (f : A -> B) (g : A -> C) (l : list A) :
  combine (map f l) (map g l) = map (fun x => (f x, g x)) l.
Proof. induction l as [|x l IH]; simpl; [reflexivity | now rewrite IH]. Qed.

Lemma list_as_map_nth {A : Type} (d : A) (l : list A) :
  l = map (fun r => nth r l d) (seq 0 (length l)).
Proof.
  apply (nth_ext _ _ d d).
  - now rewrite length_map, length_seq.
  - intros k Hk.
    rewrite (nth_indep (map _ _) d (nth 0 l d)) by (rewrite length_map, length_seq; lia).
    rewrite (map_nth (fun r => nth r l d)), seq_nth by lia. reflexivity.
Qed.

(** The triplets of the spline matrix are the cells whose row exists. *)
Lemma spline_matrix_triplets (spl : list fp) (n : nat) (s : Z) :
  sp_entries (spline_matrix spl n s) =
    List.filter (valid_cell n) (spline_cells spl n s).
Proof.
  unfold spline_matrix, spmatrix_inferred. cbn [sp_entries].
  rewrite !combine_of_maps.
  rewrite <- (map_id (List.filter _ _)) at 2.
  apply map_ext. now intros [[i j] v].
Qed.

(** The cells, tap by tap and knot by knot. *)
Lemma spline_cells_by_tap (spl : list fp) (n : nat) (s : Z) :
  spline_cells spl n s =
    flat_map (fun r : nat =>
                map (tap_row (- (Z.of_nat (length spl) / 2) + Z.of_nat r) (nth r spl NaN) s)
                    (seq 0 (spline_nB n s)))
             (seq 0 (length spl)).
Proof.
  unfold spline_cells, spline_nB.
  set (len := Z.of_nat (length spl)).
  assert (Hoff : arange (- (len / 2)) ((len + 1) / 2) =
                 map (fun r : nat => - (len / 2) + Z.of_nat r) (seq 0 (length spl))).
  { unfold arange. do 2 f_equal. unfold len. Z.div_mod_to_equations. lia. }
  rewrite Hoff.
  rewrite (list_as_map_nth NaN spl) at 2.
  rewrite combine_of_maps.
  assert (Hk : combine (seq 0 (length (arange_step (Z.of_nat n) s))) (arange_step (Z.of_nat n) s)
               = map (fun c : nat => (c, Z.of_nat c * s))
                     (seq 0 (length (arange_step (Z.of_nat n) s)))).
  { rewrite length_arange_step. unfold arange_step.
    rewrite <- (map_id (seq 0 _)) at 1. apply combine_of_maps. }
  rewrite Hk, flat_map_concat_map, !map_map. f_equal.
  apply map_ext. intros r. rewrite map_map. reflexivity.
Qed.

(** Looking a position up in the cells of one kernel tap: the knot of the
    column is the only one that can hold it. *)
Lemma lookup_in_tap (n : nat) (o s i j : Z) (v : fp) (k a : nat) (acc : option fp) :
  fold_left (lookup_step i j)
    (List.filter (valid_cell n) (map (tap_row o v s) (seq a k))) acc =
  if (Z.of_nat a <=? j) && (j <? Z.of_nat (a + k)) && (o + j * s =? i)
     && (0 <=? i) && (i <? Z.of_nat n)
  then oadd acc (Some v) else acc.
Proof.
  revert a acc. induction k as [|k IH]; intros a acc.
  - simpl. destruct (Z.leb_spec (Z.of_nat a) j); destruct (Z.ltb_spec j (Z.of_nat (a + 0)));
      try reflexivity; lia.
  - cbn [seq map List.filter].
    assert (Hstep : fold_left (lookup_step i j)
                      (if valid_cell n (tap_row o v s a)
                       then tap_row o v s a :: List.filter (valid_cell n)
                                                 (map (tap_row o v s) (seq (S a) k))
                       else List.filter (valid_cell n) (map (tap_row o v s) (seq (S a) k)))
                      acc =
                    fold_left (lookup_step i j)
                      (List.filter (valid_cell n) (map (tap_row o v s) (seq (S a) k)))
                      (if (Z.of_nat a =? j) && (o + j * s =? i) && (0 <=? i)
                          && (i <? Z.of_nat n)
                       then oadd acc (Some v) else acc)).
    { unfold valid_cell, tap_row. cbn [fst snd].
      destruct (Z.eqb_spec (Z.of_nat a) j) as [<-|Hne].
      - destruct (Z.eqb_spec (o + Z.of_nat a * s) i) as [<-|Hne'].
        + destruct ((0 <=? o + Z.of_nat a * s) && (o + Z.of_nat a * s <? Z.of_nat n)) eqn:E.
          * cbn [fold_left lookup_step]. rewrite !Z.eqb_refl. cbn [andb].
            apply andb_true_iff in E as [-> ->]. reflexivity.
          * apply andb_false_iff in E as [-> | ->]; cbn [andb]; [reflexivity|].
            now rewrite andb_false_r.
        + cbn [andb].
          destruct ((0 <=? o + Z.of_nat a * s) && (o + Z.of_nat a * s <? Z.of_nat n));
            [|reflexivity].
          cbn [fold_left lookup_step].
          apply Z.eqb_neq in Hne'. now rewrite Hne'.
      - cbn [andb].
        destruct ((0 <=? o + Z.of_nat a * s) && (o + Z.of_nat a * s <? Z.of_nat n));
          [|reflexivity].
        cbn [fold_left lookup_step].
        apply Z.eqb_neq in Hne. now rewrite Hne, andb_false_r. }
    rewrite Hstep, IH.
    destruct (Z.eqb_spec (Z.of_nat a) j) as [E|E]; cbn [andb].
    + replace (Z.of_nat (S a) <=? j) with false by (symmetry; apply Z.leb_gt; lia).
      replace (Z.of_nat a <=? j) with true by (symmetry; apply Z.leb_le; lia).
      replace (j <? Z.of_nat (a + S k)) with true by (symmetry; apply Z.ltb_lt; lia).
      reflexivity.
    + destruct (Z.leb_spec (Z.of_nat (S a)) j); destruct (Z.leb_spec (Z.of_nat a) j);
        try lia; cbn [andb]; [|reflexivity].
      replace (S a + k)%nat with (a + S k)%nat by lia. reflexivity.
Qed.

(** Looking a position up in the cells of a run of kernel taps: at most one
    tap falls on the row. *)
Lemma lookup_in_taps (spl : list fp) (n nB : nat) (h s i j : Z) (k b : nat)
    (acc : option fp) :
  fold_left (lookup_step i j)
    (concat (map (fun r : nat =>
                    List.filter (valid_cell n)
                      (map (tap_row (h + Z.of_nat r) (nth r spl NaN) s) (seq 0 nB)))
                 (seq b k))) acc =
  if (Z.of_nat b <=? i - j * s - h) && (i - j * s - h <? Z.of_nat (b + k))
     && (0 <=? j) && (j <? Z.of_nat nB) && (0 <=? i) && (i <? Z.of_nat n)
  then oadd acc (Some (nth (Z.to_nat (i - j * s - h)) spl NaN)) else acc.
Proof.
  revert b acc. induction k as [|k IH]; intros b acc.
  - simpl. destruct (Z.leb_spec (Z.of_nat b) (i - j * s - h));
      destruct (Z.ltb_spec (i - j * s - h) (Z.of_nat (b + 0))); try reflexivity; lia.
  - cbn [seq map concat]. rewrite fold_left_app, lookup_in_tap, IH.
    cbn [Z.of_nat Nat.add]. replace (Z.of_nat 0) with 0 by reflexivity.
    destruct (Z.eqb_spec (h + Z.of_nat b + j * s) i) as [E|E].
    + (* this tap is on the row; the later ones are not *)
      replace (Z.of_nat (S b) <=? i - j * s - h) with false
        by (symmetry; apply Z.leb_gt; lia).
      replace (Z.of_nat b <=? i - j * s - h) with true
        by (symmetry; apply Z.leb_le; lia).
      replace (i - j * s - h <? Z.of_nat (b + S k)) with true
        by (symmetry; apply Z.ltb_lt; lia).
      replace (Z.to_nat (i - j * s - h)) with b by lia.
      cbn [andb]. rewrite andb_true_r.
      destruct ((0 <=? j) && (j <? Z.of_nat nB) && (0 <=? i) && (i <? Z.of_nat n));
        reflexivity.
    + rewrite !andb_false_r. cbn [andb].
      replace (Z.of_nat (S (b + k))) with (Z.of_nat (b + S k)) by (f_equal; lia).
      destruct (Z.leb_spec (Z.of_nat (S b)) (i - j * s - h));
        destruct (Z.leb_spec (Z.of_nat b) (i - j * s - h)); try lia; reflexivity.
Qed.

Lemma spline_matrix_lookup (spl : list fp) (n : nat) (s i j : Z) :
  let tap := i - j * s + Z.of_nat (length spl) / 2 in
  sp_lookup (spline_matrix spl n s) i j =
    if (0 <=? i) && (i <? Z.of_nat n)
       && (0 <=? j) && (j <? Z.of_nat (spline_nB n s))
       && (0 <=? tap) && (tap <? Z.of_nat (length spl))
    then Some (nth (Z.to_nat tap) spl NaN) else None.
Proof.
  cbv zeta. unfold sp_lookup.
  rewrite spline_matrix_triplets, spline_cells_by_tap.
  rewrite flat_map_concat_map, <- concat_filter_map, map_map.
  rewrite (lookup_in_taps spl n (spline_nB n s) (- (Z.of_nat (length spl) / 2)) s i j
             (length spl) 0 None).
  replace (i - j * s - - (Z.of_nat (length spl) / 2))
    with (i - j * s + Z.of_nat (length spl) / 2) by lia.
  cbn [oadd Nat.add]. replace (Z.of_nat 0) with 0 by reflexivity.
  set (tap := i - j * s + Z.of_nat (length spl) / 2).
  destruct (0 <=? tap), (tap <? Z.of_nat (length spl)), (0 <=? j),
    (j <? Z.of_nat (spline_nB n s)), (0 <=? i), (i <? Z.of_nat n); reflexivity.
Qed.

(** X11.  The entries of the spline matrix.  Column [j] holds the kernel
    with its middle tap on row [j * s]: on a row [i] of the signal the
    entry is tap [i - j*s + L/2] of the kernel when that tap exists, and no
    entry is stored otherwise.  Taps that would fall on rows before the
    first or after the last sample are dropped. *)
Theorem spline_matrix_entries (spl : list fp) (n : nat) (s i j : Z) :
  let tap := i - j * s + Z.of_nat (length spl) / 2 in
  sp_lookup (spline_matrix spl n s) i j =
    if (0 <=? i) && (i <? Z.of_nat n)
       && (0 <=? j) && (j <? Z.of_nat (spline_nB n s))
       && (0 <=? tap) && (tap <? Z.of_nat (length spl))
    then Some (nth (Z.to_nat tap) spl NaN) else None.
Proof.
  exact (spline_matrix_lookup spl n s i j).
Qed.

(** ** The peak of the spline kernel *)

Lemma Q_square_nonneg (q : Q) : (0 <= q * q)%Q.
Proof. destruct q as [n d]. unfold Qle, Qmult. simpl. nia. Qed.

Lemma Qc_square_nonneg (a : Qc) : (0 <= a * a)%Qc.
Proof.
  unfold Qcle, Qcmult. cbn [this Q2Qc]. rewrite !Qred_correct. apply Q_square_nonneg.
Qed.

Lemma Qc_twice_product (a b : Qc) : (a * b + a * b <= a * a + b * b)%Qc.
Proof.
  unfold Qcle, Qcplus, Qcmult. cbn [this Q2Qc]. rewrite !Qred_correct.
  pose proof (Q_square_nonneg (this a - this b)) as H.
  assert (E : ((this a - this b) * (this a - this b) ==
               this a * this a + this b * this b - (this a * this b + this a * this b))%Q)
    by ring.
  rewrite E in H. clear E. lra.
Qed.

Lemma Qc_halve (x y : Qc) : (x + x <= y + y)%Qc -> (x <= y)%Qc.
Proof.
  unfold Qcle, Qcplus. cbn [this Q2Qc]. rewrite !Qred_correct. intros H. lra.
Qed.

Lemma Qc_part_le_sum (x y z : Qc) : (x + y)%Qc = z -> (0 <= x)%Qc -> (y <= z)%Qc.
Proof.
  intros <-. unfold Qcle, Qcplus. cbn [this Q2Qc]. rewrite !Qred_correct. intros H. lra.
Qed.

Lemma qsum_nonneg (l : list Qc) : (forall x, In x l -> (0 <= x)%Qc) -> (0 <= qsum l)%Qc.
Proof.
  induction l as [|x l IH]; intros H; simpl; [apply Qcle_refl|].
  assert (Hx : (0 <= x)%Qc) by (apply H; now left).
  assert (Hl : (0 <= qsum l)%Qc) by (apply IH; intros; apply H; now right).
  revert Hx Hl. unfold Qcle, Qcplus. cbn [this Q2Qc]. rewrite !Qred_correct. intros. lra.
Qed.

Lemma qsum_le (f g : nat -> Qc) (l : list nat) :
  (forall m, In m l -> (f m <= g m)%Qc) -> (qsum (map f l) <= qsum (map g l))%Qc.
Proof.
  induction l as [|m l IH]; intros H; simpl; [apply Qcle_refl|].
  apply Qcplus_le_compat; [apply H; now left | apply IH; intros; apply H; now right].
Qed.

Lemma qsum_map_plus (f g : nat -> Qc) (l : list nat) :
  qsum (map (fun m => f m + g m)%Qc l) = (qsum (map f l) + qsum (map g l))%Qc.
Proof.
  induction l as [|m l IH]; simpl; [ring|]. rewrite IH. ring.
Qed.

Lemma seq_from (a b : nat) : seq a b = map (fun t => (a + t)%nat) (seq 0 b).
Proof.
  revert a. induction b as [|b IH]; intros a; [reflexivity|].
  simpl. rewrite Nat.add_0_r. f_equal.
  rewrite (IH (S a)), (IH 1%nat), map_map. apply map_ext. intros t. simpl. lia.
Qed.

Lemma window_sum_split (g : Z -> Qc) (lo : Z) (a b : nat) :
  window_sum g lo (a + b) =
    (window_sum g lo a + window_sum g (lo + Z.of_nat a) b)%Qc.
Proof.
  unfold window_sum. rewrite seq_app, map_app, qsum_app. f_equal.
  rewrite (seq_from (0 + a) b), map_map. f_equal. apply map_ext.
  intros t. f_equal. lia.
Qed.

Lemma window_sum_nonneg (g : Z -> Qc) (lo : Z) (len : nat) :
  (forall z, (0 <= g z)%Qc) -> (0 <= window_sum g lo len)%Qc.
Proof.
  intros Hg. apply qsum_nonneg. intros x Hx.
  apply in_map_iff in Hx as (t & <- & _). apply Hg.
Qed.

Lemma window_sum_zero (g : Z -> Qc) (lo : Z) (len : nat) :
  (forall z, lo <= z < lo + Z.of_nat len -> g z = 0%Qc) -> window_sum g lo len = 0%Qc.
Proof.
  intros Hg. apply qsum_zero. intros x Hx.
  apply in_map_iff in Hx as (t & <- & Ht). apply in_seq in Ht. apply Hg. lia.
Qed.

(** A window as long as the support of a non-negative sequence holds at
    most its total. *)
Lemma window_sum_bound (g : Z -> Qc) (L : nat) (lo : Z) :
  (forall z, (0 <= g z)%Qc) ->
  (forall z, z < 0 \/ Z.of_nat L <= z -> g z = 0%Qc) ->
  (window_sum g lo L <= window_sum g 0 L)%Qc.
Proof.
  intros Hpos Hout.
  destruct (Z.le_gt_cases 0 lo) as [Hlo|Hlo].
  - set (d := Z.to_nat lo).
    pose proof (window_sum_split g 0 d L) as H1.
    pose proof (window_sum_split g 0 L d) as H2.
    replace (0 + Z.of_nat d) with lo in H1 by (unfold d; lia).
    rewrite (window_sum_zero g (0 + Z.of_nat L) d) in H2 by (intros; apply Hout; lia).
    rewrite Qcplus_0_r in H2. rewrite (Nat.add_comm d L), H2 in H1.
    apply (Qc_part_le_sum (window_sum g 0 d)); [now symmetry|].
    now apply window_sum_nonneg.
  - set (d := Z.to_nat (- lo)).
    pose proof (window_sum_split g lo d L) as H1.
    pose proof (window_sum_split g lo L d) as H2.
    replace (lo + Z.of_nat d) with 0 in H1 by (unfold d; lia).
    rewrite (window_sum_zero g lo d) in H1 by (intros; apply Hout; unfold d in *; lia).
    rewrite Qcplus_0_l in H1. rewrite (Nat.add_comm d L), H2 in H1.
    apply (Qc_part_le_sum (window_sum g (lo + Z.of_nat L) d)).
    + rewrite <- H1. apply Qcplus_comm.
    + now apply window_sum_nonneg.
Qed.

Lemma at_or_zero_in (a : list Qc) (m : nat) :
  (m < length a)%nat -> at_or_zero a (Z.of_nat m) = nth m a 0%Qc.
Proof.
  intros Hm. unfold at_or_zero.
  replace ((0 <=? Z.of_nat m) && (Z.of_nat m <? Z.of_nat (length a))) with true.
  - now rewrite Nat2Z.id.
  - symmetry. apply andb_true_iff. split; [apply Z.leb_le | apply Z.ltb_lt]; lia.
Qed.

Lemma at_or_zero_out (a : list Qc) (z : Z) :
  z < 0 \/ Z.of_nat (length a) <= z -> at_or_zero a z = 0%Qc.
Proof.
  intros H. unfold at_or_zero.
  destruct (Z.leb_spec 0 z); destruct (Z.ltb_spec z (Z.of_nat (length a)));
    try reflexivity; lia.
Qed.

(** The sum of the squares of a sequence. *)
Lemma energy_as_window (a : list Qc) :
  qsum (map (fun m => (nth m a 0 * nth m a 0)%Qc) (seq 0 (length a))) =
  window_sum (fun z => (at_or_zero a z * at_or_zero a z)%Qc) 0 (length a).
Proof.
  unfold window_sum. f_equal. apply map_ext_in. intros m Hm. apply in_seq in Hm.
  rewrite Z.add_0_l, at_or_zero_in by lia. reflexivity.
Qed.

(** No sample of a self-convolution exceeds the sum of the squares. *)
Lemma convolution_le_energy (a : list Qc) (k : nat) :
  (k < length a + length a - 1)%nat ->
  (nth k (convolution a a) 0 <=
   qsum (map (fun m => (nth m a 0 * nth m a 0)%Qc) (seq 0 (length a))))%Qc.
Proof.
  intros Hk. rewrite nth_convolution by exact Hk.
  set (g := fun z => (at_or_zero a z * at_or_zero a z)%Qc).
  set (T := qsum (map (fun m => (nth m a 0 * nth m a 0)%Qc) (seq 0 (length a)))).
  set (f := fun m : nat => (nth m a 0 * at_or_zero a (Z.of_nat k - Z.of_nat m))%Qc).
  apply Qc_halve. rewrite <- qsum_map_plus.
  eapply Qcle_trans.
  - apply (qsum_le (fun m => (f m + f m)%Qc)
             (fun m => (nth m a 0 * nth m a 0 + g (Z.of_nat k - Z.of_nat m)%Z)%Qc)).
    intros m _. unfold f, g. apply Qc_twice_product.
  - rewrite qsum_map_plus. fold T. apply Qcplus_le_compat; [apply Qcle_refl|].
    assert (Hrev : qsum (map (fun m : nat => g (Z.of_nat k - Z.of_nat m)) (seq 0 (length a)))
                   = window_sum g (Z.of_nat k - Z.of_nat (length a) + 1) (length a)).
    { rewrite <- qsum_rev, <- map_rev.
      rewrite <- (map_id (seq 0 (length a))) at 1.
      rewrite rev_map_seq, map_map. unfold window_sum. f_equal.
      apply map_ext_in. intros m Hm. apply in_seq in Hm. f_equal. lia. }
    rewrite Hrev. unfold T. rewrite energy_as_window. fold g.
    apply window_sum_bound; intros z.
    + apply Qc_square_nonneg.
    + intros Hz. unfold g. rewrite at_or_zero_out by exact Hz. ring.
Qed.

(** The middle sample of the self-convolution of a palindrome is the sum
    of the squares. *)
Lemma convolution_centre (a : list Qc) :
  rev a = a -> a <> [] ->
  nth (length a - 1) (convolution a a) 0%Qc =
    qsum (map (fun m => (nth m a 0 * nth m a 0)%Qc) (seq 0 (length a))).
Proof.
  intros Hrev Hne.
  assert (Hlen : (1 <= length a)%nat) by (destruct a; [congruence | simpl; lia]).
  rewrite nth_convolution by lia. f_equal.
  apply map_ext_in. intros m Hm. apply in_seq in Hm. f_equal.
  replace (Z.of_nat (length a - 1) - Z.of_nat m)
    with (Z.of_nat (length a) - 1 - Z.of_nat m) by lia.
  rewrite at_or_zero_palindrome by exact Hrev. apply at_or_zero_in. lia.
Qed.

Lemma py_max_list_eq (hd : Qc) (tl : list Qc) (x : Qc) :
  In x (hd :: tl) -> (forall y, In y (hd :: tl) -> (y <= x)%Qc) ->
  py_max_list hd tl = x.
Proof.
  intros Hin Hall. apply Qcle_antisym.
  - apply Hall, py_max_list_in.
  - now apply py_max_list_upper.
Qed.

(** X12.  The spline kernel peaks in the middle: for a knot spacing of
    [s >= 1] samples its middle tap, of index [2s - 2], is exactly 1 (and
    no tap is larger).  In the spline matrix every column therefore holds
    the value 1 on the row of its knot, row [j * s] for column [j]. *)
Theorem kernel_peak_at_centre (s : Z) :
  1 <= s ->
  exists kernel,
    spline_kernel s = Ok kernel
    /\ length kernel = Z.to_nat (4 * s - 3)
    /\ nth (Z.to_nat (2 * s - 2)) kernel NaN = Fin 1%Qc
    /\ Forall is_fin_le_1 kernel
    /\ forall (n j : nat),
         (1 <= n)%nat -> (j < spline_nB n s)%nat ->
         0 <= Z.of_nat j * s < Z.of_nat n
         /\ sp_lookup (spline_matrix kernel n s) (Z.of_nat j * s) (Z.of_nat j) =
              Some (Fin 1%Qc).
Proof.
  intros Hs.
  set (a := order1_spline s).
  assert (HL : length a = Z.to_nat (2 * s - 1)) by now apply length_order1_spline.
  assert (Hrev : rev a = a) by now apply order1_spline_palindrome.
  assert (Hne : a <> []) by (intros E; rewrite E in HL; simpl in HL; lia).
  set (c := convolution a a).
  assert (Hc : length c = Z.to_nat (4 * s - 3))
    by (unfold c; rewrite length_convolution, HL; lia).
  set (T := nth (length a - 1) c 0%Qc).
  assert (Hall : forall y, In y c -> (y <= T)%Qc).
  { intros y Hy. apply (In_nth _ _ 0%Qc) in Hy as (k & Hk & <-).
    unfold T, c. rewrite convolution_centre by assumption.
    apply convolution_le_energy. unfold c in Hk. rewrite length_convolution in Hk. lia. }
  assert (HT : In T c) by (apply nth_In; lia).
  assert (Hhd : nth 0 c 0%Qc = 1%Qc).
  { unfold c. rewrite hd_convolution by exact Hne.
    unfold a. rewrite hd_order1_spline by exact Hs. apply Qcmult_1_l. }
  exists (normalise c).
  split; [now apply spline_kernel_ok|].
  split; [now rewrite length_normalise|].
  destruct c as [|hd tl] eqn:Ec; [simpl in Hc; lia|].
  simpl in Hhd. subst hd.
  assert (Hpos : (0 < 1)%Qc) by reflexivity.
  destruct (normalise_peak 1%Qc tl Hpos) as (Hnorm & HF & _).
  assert (HM : py_max_list 1%Qc tl = T) by now apply py_max_list_eq.
  assert (HTpos : T <> 0%Qc).
  { apply Qclt_nonzero. rewrite <- HM.
    eapply Qclt_le_trans; [exact Hpos | apply py_max_list_ge_acc]. }
  assert (Hcentre : nth (Z.to_nat (2 * s - 2)) (normalise (1%Qc :: tl)) NaN = Fin 1%Qc).
  { rewrite Hnorm. cbv zeta. rewrite HM.
    set (f := fun v : Qc => Fin (v / T)%Qc).
    rewrite (nth_indep _ NaN (f 0%Qc)) by (rewrite length_map, Hc; lia).
    rewrite (map_nth f). unfold f.
    replace (Z.to_nat (2 * s - 2)) with (length a - 1)%nat by lia.
    fold T. now rewrite Qcdiv_same. }
  split; [exact Hcentre|]. split; [exact HF|].
  intros n j Hn Hj.
  destruct (knots_ceiling (Z.of_nat n) s Hs ltac:(lia)) as (Hq1 & Hq2 & Hq3).
  assert (HnB : spline_nB n s = Z.to_nat ((Z.of_nat n + s - 1) / s))
    by apply length_arange_step.
  assert (Hrow : 0 <= Z.of_nat j * s < Z.of_nat n) by nia.
  split; [exact Hrow|].
  rewrite spline_matrix_lookup. cbv zeta. rewrite length_normalise, Hc.
  replace (Z.of_nat j * s - Z.of_nat j * s + Z.of_nat (Z.to_nat (4 * s - 3)) / 2)
    with (2 * s - 2).
  2:{ rewrite Z2Nat.id by lia. Z.div_mod_to_equations. lia. }
  rewrite Hcentre.
  replace (0 <=? Z.of_nat j * s) with true by (symmetry; apply Z.leb_le; lia).
  replace (Z.of_nat j * s <? Z.of_nat n) with true by (symmetry; apply Z.ltb_lt; lia).
  replace (0 <=? Z.of_nat j) with true by (symmetry; apply Z.leb_le; lia).
  replace (Z.of_nat j <? Z.of_nat (spline_nB n s)) with true
    by (symmetry; apply Z.ltb_lt; lia).
  replace (0 <=? 2 * s - 2) with true by (symmetry; apply Z.leb_le; lia).
  replace (2 * s - 2 <? Z.of_nat (Z.to_nat (4 * s - 3))) with true
    by (symmetry; apply Z.ltb_lt; lia).
  reflexivity.
Qed.

(** ** The multi-modal wrapper *)

Lemma rbind_ok_inv {A B : Type} (r : result A) (k : A -> result B) (b : B) :
  rbind r k = Ok b -> exists a, r = Ok a /\ k a = Ok b.
Proof.
  destruct r as [a|e]; simpl; [|discriminate]. intros H. now exists a.
Qed.

Section BioProcessProperties.

Variables series frame value : Type.
Variable pd : pandas series frame.
Variable nk : processors series frame value.

Lemma bio_step_ok (process : series -> Z -> result (frame * gmap string value))
    (channel : option series) (sampling_rate : Z) (state : frame * gmap string value)
    (r : option frame * (frame * gmap string value)) :
  bio_step pd nk process channel sampling_rate state = Ok r ->
  let out := channel_output nk process channel sampling_rate in
  (is_Some channel -> is_Some out) /\ r = (fst <$> out, bio_after pd out state).
Proof.
  unfold bio_step, channel_output. destruct channel as [x|]; simpl.
  - destruct (as_vector nk x) as [v|e]; simpl; [|discriminate].
    destruct (process v sampling_rate) as [o|e]; simpl; [|discriminate].
    intros [= <-]. split; [intros _; now exists o | reflexivity].
  - intros [= <-]. split; [intros [x Hx]; discriminate | reflexivity].
Qed.

Lemma bio_step_run (process : series -> Z -> result (frame * gmap string value))
    (channel : option series) (sampling_rate : Z) (state : frame * gmap string value) :
  let out := channel_output nk process channel sampling_rate in
  (is_Some channel -> is_Some out) ->
  bio_step pd nk process channel sampling_rate state
    = Ok (fst <$> out, bio_after pd out state).
Proof.
  unfold bio_step, channel_output. destruct channel as [x|]; simpl; [|reflexivity].
  destruct (as_vector nk x) as [v|e]; simpl.
  - destruct (process v sampling_rate) as [o|e]; simpl; [reflexivity|].
    intros H. destruct H as [y Hy]; [now exists x | discriminate].
  - intros H. destruct H as [y Hy]; [now exists x | discriminate].
Qed.

Lemma snd_bio_after (out : option (frame * gmap string value))
    (state : frame * gmap string value) :
  snd (bio_after pd out state) = output_info out ∪ snd state.
Proof.
  destruct out as [o|]; simpl; [reflexivity|]. now rewrite (left_id_L ∅ (∪)).
Qed.

Lemma lookup_union_first (m1 m2 : gmap string value) (key : string) :
  (m1 ∪ m2) !! key = match m1 !! key with Some v => Some v | None => m2 !! key end.
Proof.
  rewrite lookup_union. now destruct (m1 !! key), (m2 !! key).
Qed.

Lemma keys_bio_after (out : option (frame * gmap string value))
    (state : frame * gmap string value) :
  (forall a b, frame_keys pd (pd_concat pd a b) = frame_keys pd a ++ frame_keys pd b) ->
  frame_keys pd (fst (bio_after pd out state))
    = frame_keys pd (fst state) ++ output_keys pd out.
Proof.
  intros Hc. destruct out as [o|]; simpl; [apply Hc | now rewrite app_nil_r].
Qed.

Lemma bio_process_ok_inv (ecg : option (first_argument series frame))
    (rsp eda emg ppg eog : option series) (keep : option frame) (sampling_rate : Z)
    (r : frame * gmap string value) :
  bio_process pd nk ecg rsp eda emg ppg eog keep sampling_rate = Ok r ->
  let ch := bio_unpack pd ecg rsp eda emg ppg eog keep in
  let o1 := channel_output nk (ecg_process nk) (ch_ecg ch) sampling_rate in
  let o2 := channel_output nk (rsp_process nk) (ch_rsp ch) sampling_rate in
  let o3 := channel_output nk (eda_process nk) (ch_eda ch) sampling_rate in
  let o4 := channel_output nk (emg_process nk) (ch_emg ch) sampling_rate in
  let o5 := channel_output nk (ppg_process nk) (ch_ppg ch) sampling_rate in
  let o6 := channel_output nk (eog_process nk) (ch_eog ch) sampling_rate in
  let st := bio_after pd o6 (bio_after pd o5 (bio_after pd o4 (bio_after pd o3
              (bio_after pd o2 (bio_after pd o1 (empty_frame pd, ∅)))))) in
  let df := match ch_keep ch with
            | Some k => pd_concat pd (fst st) (reset_index pd k)
            | None => fst st
            end in
  ((is_Some (ch_ecg ch) -> is_Some o1) /\ (is_Some (ch_rsp ch) -> is_Some o2) /\
   (is_Some (ch_eda ch) -> is_Some o3) /\ (is_Some (ch_emg ch) -> is_Some o4) /\
   (is_Some (ch_ppg ch) -> is_Some o5) /\ (is_Some (ch_eog ch) -> is_Some o6)) /\
  match rsa_output nk o1 o2 sampling_rate with
  | Some (Ok rsa) =>
      r = (pd_concat pd df rsa, <["sampling_rate"%string := int_value nk sampling_rate]> (snd st))
  | Some (Raise _) => False
  | None => r = (df, <["sampling_rate"%string := int_value nk sampling_rate]> (snd st))
  end.
Proof.
  unfold bio_process. intros H.
  apply rbind_ok_inv in H as (r1 & H1 & H). apply bio_step_ok in H1 as [F1 ->].
  apply rbind_ok_inv in H as (r2 & H2 & H). apply bio_step_ok in H2 as [F2 ->].
  apply rbind_ok_inv in H as (r3 & H3 & H). apply bio_step_ok in H3 as [F3 ->].
  apply rbind_ok_inv in H as (r4 & H4 & H). apply bio_step_ok in H4 as [F4 ->].
  apply rbind_ok_inv in H as (r5 & H5 & H). apply bio_step_ok in H5 as [F5 ->].
  apply rbind_ok_inv in H as (r6 & H6 & H). apply bio_step_ok in H6 as [F6 ->].
  cbn [fst snd] in *. cbv zeta. split; [tauto|].
  apply rbind_ok_inv in H as (df' & Hrsa & [= <-]).
  unfold rsa_output.
  destruct (channel_output nk (ecg_process nk) _ sampling_rate) as [e|];
    [destruct (channel_output nk (rsp_process nk) _ sampling_rate) as [s|]|];
    cbn [fmap option_fmap option_map] in Hrsa.
  - destruct (hrv_rsa nk (fst e) (fst s) sampling_rate) as [rsa|x]; simpl in Hrsa;
      [|discriminate].
    now injection Hrsa as <-.
  - now injection Hrsa as <-.
  - now injection Hrsa as <-.
Qed.

Lemma bio_process_run (ecg : option (first_argument series frame))
    (rsp eda emg ppg eog : option series) (keep : option frame) (sampling_rate : Z) :
  let ch := bio_unpack pd ecg rsp eda emg ppg eog keep in
  let o1 := channel_output nk (ecg_process nk) (ch_ecg ch) sampling_rate in
  let o2 := channel_output nk (rsp_process nk) (ch_rsp ch) sampling_rate in
  let o3 := channel_output nk (eda_process nk) (ch_eda ch) sampling_rate in
  let o4 := channel_output nk (emg_process nk) (ch_emg ch) sampling_rate in
  let o5 := channel_output nk (ppg_process nk) (ch_ppg ch) sampling_rate in
  let o6 := channel_output nk (eog_process nk) (ch_eog ch) sampling_rate in
  (is_Some (ch_ecg ch) -> is_Some o1) -> (is_Some (ch_rsp ch) -> is_Some o2) ->
  (is_Some (ch_eda ch) -> is_Some o3) -> (is_Some (ch_emg ch) -> is_Some o4) ->
  (is_Some (ch_ppg ch) -> is_Some o5) -> (is_Some (ch_eog ch) -> is_Some o6) ->
  (forall rsa_result, rsa_output nk o1 o2 sampling_rate = Some rsa_result ->
     exists rsa, rsa_result = Ok rsa) ->
  exists r, bio_process pd nk ecg rsp eda emg ppg eog keep sampling_rate = Ok r.
Proof.
  cbv zeta. intros F1 F2 F3 F4 F5 F6 Hrsa. unfold bio_process.
  rewrite (bio_step_run _ _ _ _ F1). cbn [rbind fst snd].
  rewrite (bio_step_run _ _ _ _ F2). cbn [rbind fst snd].
  rewrite (bio_step_run _ _ _ _ F3). cbn [rbind fst snd].
  rewrite (bio_step_run _ _ _ _ F4). cbn [rbind fst snd].
  rewrite (bio_step_run _ _ _ _ F5). cbn [rbind fst snd].
  rewrite (bio_step_run _ _ _ _ F6). cbn [rbind fst snd].
  unfold rsa_output in Hrsa.
  destruct (channel_output nk (ecg_process nk) _ sampling_rate) as [e|];
    [destruct (channel_output nk (rsp_process nk) _ sampling_rate) as [s|]|];
    cbn [fmap option_fmap option_map].
  - destruct (Hrsa _ eq_refl) as [rsa ->]. cbn [rbind]. eauto.
  - cbn [rbind]. eauto.
  - cbn [rbind]. eauto.
Qed.

(** X13.  When the first argument is a table, the channels are taken from
    its columns and every other channel argument and [keep] is ignored; the
    call is the call on the columns spelled out, where the ECG channel is
    the column "ECG" when there is one, whether or not there is a column
    "EKG", the column "EKG" otherwise, and the columns that name no channel
    are kept (none kept when there is no such column). *)
Theorem table_input_overrides_arguments (data : frame)
    (rsp eda emg ppg eog : option series) (keep : option frame) (sampling_rate : Z) :
  let keys := frame_keys pd data in
  let column := column_if_present pd data in
  let others := List.filter (fun key => negb (method_in key channel_columns)) keys in
  let kept := match others with
              | [] => None
              | _ :: _ => Some (frame_select pd data others)
              end in
  let explicit ecg :=
    bio_process pd nk ecg (column "RSP"%string) (column "EDA"%string) (column "EMG"%string)
      (column "PPG"%string) (column "EOG"%string) kept sampling_rate in
  bio_process pd nk (Some (Table data)) rsp eda emg ppg eog keep sampling_rate
    = bio_process pd nk (Some (Table data)) None None None None None None sampling_rate /\
  (In "ECG"%string keys ->
   bio_process pd nk (Some (Table data)) rsp eda emg ppg eog keep sampling_rate
     = explicit (Some (Channel (frame_column pd data "ECG")))) /\
  (~ In "ECG"%string keys -> In "EKG"%string keys ->
   bio_process pd nk (Some (Table data)) rsp eda emg ppg eog keep sampling_rate
     = explicit (Some (Channel (frame_column pd data "EKG")))) /\
  (~ In "ECG"%string keys -> ~ In "EKG"%string keys ->
   bio_process pd nk (Some (Table data)) rsp eda emg ppg eog keep sampling_rate
     = explicit None).
Proof.
  cbv zeta. split; [reflexivity|].
  assert (Hkeep : (if negb (Nat.eqb (length (List.filter
                       (fun key => negb (method_in key channel_columns))
                       (frame_keys pd data))) 0)
                   then Some (frame_select pd data (List.filter
                       (fun key => negb (method_in key channel_columns))
                       (frame_keys pd data)))
                   else None)
                  = match List.filter (fun key => negb (method_in key channel_columns))
                            (frame_keys pd data) with
                    | [] => None
                    | _ :: _ => Some (frame_select pd data (List.filter
                       (fun key => negb (method_in key channel_columns))
                       (frame_keys pd data)))
                    end).
  { now destruct (List.filter _ (frame_keys pd data)). }
  unfold bio_process, bio_unpack. cbn [ch_ecg ch_rsp ch_eda ch_emg ch_ppg ch_eog ch_keep].
  rewrite Hkeep. split; [|split].
  - intros H. apply method_in_In in H. now rewrite H.
  - intros H1 H2. apply method_not_in in H1. apply method_in_In in H2.
    now rewrite H1, H2.
  - intros H1 H2. apply method_not_in in H1. apply method_not_in in H2.
    now rewrite H1, H2.
Qed.

(** X14.  [bio_process] returns a result exactly when the processing of
    every channel in hand succeeds (conversion to a vector, then the
    channel's processing function) and,
    when both the ECG and the RSP channel are there, [hrv_rsa] succeeds on
    their two tables; [hrv_rsa] is not consulted otherwise. *)
Theorem bio_process_succeeds_iff (ecg : option (first_argument series frame))
    (rsp eda emg ppg eog : option series) (keep : option frame) (sampling_rate : Z) :
  let ch := bio_unpack pd ecg rsp eda emg ppg eog keep in
  let o1 := channel_output nk (ecg_process nk) (ch_ecg ch) sampling_rate in
  let o2 := channel_output nk (rsp_process nk) (ch_rsp ch) sampling_rate in
  let o3 := channel_output nk (eda_process nk) (ch_eda ch) sampling_rate in
  let o4 := channel_output nk (emg_process nk) (ch_emg ch) sampling_rate in
  let o5 := channel_output nk (ppg_process nk) (ch_ppg ch) sampling_rate in
  let o6 := channel_output nk (eog_process nk) (ch_eog ch) sampling_rate in
  (exists r, bio_process pd nk ecg rsp eda emg ppg eog keep sampling_rate = Ok r) <->
  (is_Some (ch_ecg ch) -> is_Some o1) /\ (is_Some (ch_rsp ch) -> is_Some o2) /\
  (is_Some (ch_eda ch) -> is_Some o3) /\ (is_Some (ch_emg ch) -> is_Some o4) /\
  (is_Some (ch_ppg ch) -> is_Some o5) /\ (is_Some (ch_eog ch) -> is_Some o6) /\
  (forall e s, o1 = Some e -> o2 = Some s ->
     exists rsa, hrv_rsa nk (fst e) (fst s) sampling_rate = Ok rsa).
Proof.
  cbv zeta. split.
  - intros [r H]. apply bio_process_ok_inv in H. cbv zeta in H.
    destruct H as [(F1 & F2 & F3 & F4 & F5 & F6) H].
    repeat (split; [assumption|]).
    intros e s H1 H2. rewrite H1, H2 in H. simpl in H.
    destruct (hrv_rsa nk (fst e) (fst s) sampling_rate) as [rsa|x]; [eauto | contradiction].
  - intros (F1 & F2 & F3 & F4 & F5 & F6 & Hrsa).
    apply bio_process_run; try assumption.
    intros rr Hrr. unfold rsa_output in Hrr.
    destruct (channel_output nk (ecg_process nk) _ sampling_rate) as [e|]; [|discriminate].
    destruct (channel_output nk (rsp_process nk) _ sampling_rate) as [s|]; [|discriminate].
    injection Hrr as <-. now apply Hrsa.
Qed.

(** X15.  The information dict returned is the union of the dicts of the
    channels processed, a later channel (in the order ECG, RSP, EDA, EMG,
    PPG, EOG) overriding an earlier one on a key they share, with the key
    "sampling_rate" set last: it always holds the sampling rate of the
    call, whatever the processing functions stored under it, and no key is
    added otherwise. *)
Theorem info_merged_in_order (ecg : option (first_argument series frame))
    (rsp eda emg ppg eog : option series) (keep : option frame) (sampling_rate : Z)
    (bio_df : frame) (bio_info : gmap string value) :
  bio_process pd nk ecg rsp eda emg ppg eog keep sampling_rate = Ok (bio_df, bio_info) ->
  let ch := bio_unpack pd ecg rsp eda emg ppg eog keep in
  let i1 := output_info (channel_output nk (ecg_process nk) (ch_ecg ch) sampling_rate) in
  let i2 := output_info (channel_output nk (rsp_process nk) (ch_rsp ch) sampling_rate) in
  let i3 := output_info (channel_output nk (eda_process nk) (ch_eda ch) sampling_rate) in
  let i4 := output_info (channel_output nk (emg_process nk) (ch_emg ch) sampling_rate) in
  let i5 := output_info (channel_output nk (ppg_process nk) (ch_ppg ch) sampling_rate) in
  let i6 := output_info (channel_output nk (eog_process nk) (ch_eog ch) sampling_rate) in
  bio_info = <["sampling_rate"%string := int_value nk sampling_rate]>
               (i6 ∪ (i5 ∪ (i4 ∪ (i3 ∪ (i2 ∪ i1))))) /\
  bio_info !! "sampling_rate"%string = Some (int_value nk sampling_rate) /\
  (forall key, key <> "sampling_rate"%string ->
     bio_info !! key
       = match i6 !! key, i5 !! key, i4 !! key, i3 !! key, i2 !! key with
         | Some v, _, _, _, _ => Some v
         | None, Some v, _, _, _ => Some v
         | None, None, Some v, _, _ => Some v
         | None, None, None, Some v, _ => Some v
         | None, None, None, None, Some v => Some v
         | None, None, None, None, None => i1 !! key
         end).
Proof.
  intros H. apply bio_process_ok_inv in H. cbv zeta in H. destruct H as [_ H].
  cbv zeta.
  assert (Hinfo : bio_info = <["sampling_rate"%string := int_value nk sampling_rate]>
      (snd (bio_after pd (channel_output nk (eog_process nk)
              (ch_eog (bio_unpack pd ecg rsp eda emg ppg eog keep)) sampling_rate)
           (bio_after pd (channel_output nk (ppg_process nk)
              (ch_ppg (bio_unpack pd ecg rsp eda emg ppg eog keep)) sampling_rate)
           (bio_after pd (channel_output nk (emg_process nk)
              (ch_emg (bio_unpack pd ecg rsp eda emg ppg eog keep)) sampling_rate)
           (bio_after pd (channel_output nk (eda_process nk)
              (ch_eda (bio_unpack pd ecg rsp eda emg ppg eog keep)) sampling_rate)
           (bio_after pd (channel_output nk (rsp_process nk)
              (ch_rsp (bio_unpack pd ecg rsp eda emg ppg eog keep)) sampling_rate)
           (bio_after pd (channel_output nk (ecg_process nk)
              (ch_ecg (bio_unpack pd ecg rsp eda emg ppg eog keep)) sampling_rate)
              (empty_frame pd, ∅))))))))).
  { destruct (rsa_output nk _ _ sampling_rate) as [[rsa|x]|];
      [now injection H | contradiction | now injection H]. }
  rewrite !snd_bio_after in Hinfo. cbn [snd] in Hinfo.
  rewrite (right_id_L ∅ (∪)) in Hinfo.
  split; [exact Hinfo|]. split.
  - rewrite Hinfo. apply lookup_insert_eq.
  - intros key Hkey. rewrite Hinfo. rewrite lookup_insert_ne by congruence.
    rewrite !lookup_union_first.
    repeat match goal with
           | |- context [output_info ?o !! key] => destruct (output_info o !! key)
           end; reflexivity.
Qed.

(** X16.  For a pandas whose column-wise concatenation lists the columns
    of its first table and then those of its second, and whose index reset
    keeps the columns, the columns of the table returned are those of the
    channel tables in the order ECG, RSP, EDA, EMG, PPG, EOG, then the kept
    columns, then the RSA columns (present exactly when both the ECG and
    the RSP channel were given). *)
Theorem columns_in_order (ecg : option (first_argument series frame))
    (rsp eda emg ppg eog : option series) (keep : option frame) (sampling_rate : Z)
    (bio_df : frame) (bio_info : gmap string value) :
  (forall a b, frame_keys pd (pd_concat pd a b) = frame_keys pd a ++ frame_keys pd b) ->
  frame_keys pd (empty_frame pd) = [] ->
  (forall k, frame_keys pd (reset_index pd k) = frame_keys pd k) ->
  bio_process pd nk ecg rsp eda emg ppg eog keep sampling_rate = Ok (bio_df, bio_info) ->
  let ch := bio_unpack pd ecg rsp eda emg ppg eog keep in
  let o1 := channel_output nk (ecg_process nk) (ch_ecg ch) sampling_rate in
  let o2 := channel_output nk (rsp_process nk) (ch_rsp ch) sampling_rate in
  let o3 := channel_output nk (eda_process nk) (ch_eda ch) sampling_rate in
  let o4 := channel_output nk (emg_process nk) (ch_emg ch) sampling_rate in
  let o5 := channel_output nk (ppg_process nk) (ch_ppg ch) sampling_rate in
  let o6 := channel_output nk (eog_process nk) (ch_eog ch) sampling_rate in
  exists rsa_keys,
    frame_keys pd bio_df
      = output_keys pd o1 ++ output_keys pd o2 ++ output_keys pd o3 ++ output_keys pd o4
        ++ output_keys pd o5 ++ output_keys pd o6
        ++ match ch_keep ch with Some k => frame_keys pd k | None => [] end
        ++ rsa_keys /\
    match ch_ecg ch, ch_rsp ch with
    | Some _, Some _ =>
        exists e s rsa, o1 = Some e /\ o2 = Some s /\
          hrv_rsa nk (fst e) (fst s) sampling_rate = Ok rsa /\ rsa_keys = frame_keys pd rsa
    | _, _ => rsa_keys = []
    end.
Proof.
  intros Hc He Hr H. apply bio_process_ok_inv in H. cbv zeta in H.
  destruct H as [(F1 & F2 & _) H]. cbv zeta.
  set (ch := bio_unpack pd ecg rsp eda emg ppg eog keep) in *.
  set (o1 := channel_output nk (ecg_process nk) (ch_ecg ch) sampling_rate) in *.
  set (o2 := channel_output nk (rsp_process nk) (ch_rsp ch) sampling_rate) in *.
  set (st := bio_after pd _ _) in H.
  assert (Hst : frame_keys pd (fst st)
                = output_keys pd o1 ++ output_keys pd o2
                  ++ output_keys pd (channel_output nk (eda_process nk) (ch_eda ch) sampling_rate)
                  ++ output_keys pd (channel_output nk (emg_process nk) (ch_emg ch) sampling_rate)
                  ++ output_keys pd (channel_output nk (ppg_process nk) (ch_ppg ch) sampling_rate)
                  ++ output_keys pd (channel_output nk (eog_process nk) (ch_eog ch) sampling_rate)).
  { unfold st. rewrite !keys_bio_after by exact Hc. cbn [fst]. rewrite He. simpl.
    now rewrite <- !app_assoc. }
  assert (Hdf : frame_keys pd (match ch_keep ch with
                               | Some k => pd_concat pd (fst st) (reset_index pd k)
                               | None => fst st
                               end)
                = frame_keys pd (fst st)
                  ++ match ch_keep ch with Some k => frame_keys pd k | None => [] end).
  { destruct (ch_keep ch) as [k|]; [now rewrite Hc, Hr | now rewrite app_nil_r]. }
  unfold rsa_output in H.
  destruct o1 as [e|] eqn:E1; [destruct o2 as [s|] eqn:E2|].
  - destruct (hrv_rsa nk (fst e) (fst s) sampling_rate) as [rsa|x] eqn:Ersa;
      [|contradiction].
    injection H as -> _. exists (frame_keys pd rsa). split.
    + rewrite Hc, Hdf, Hst. now rewrite <- !app_assoc.
    + assert (G1 : is_Some (ch_ecg ch)).
      { destruct (ch_ecg ch); [eauto | discriminate E1]. }
      assert (G2 : is_Some (ch_rsp ch)).
      { destruct (ch_rsp ch); [eauto | discriminate E2]. }
      destruct G1 as [x1 ->], G2 as [x2 ->]. exists e, s, rsa. auto.
  - injection H as -> _. exists []. split.
    + rewrite Hdf, Hst. now rewrite <- !app_assoc, app_nil_r.
    + destruct (ch_rsp ch) as [x2|] eqn:E; [|now destruct (ch_ecg ch)].
      destruct F2 as [y Hy]; [eauto | discriminate Hy].
  - injection H as -> _. exists []. split.
    + rewrite Hdf, Hst. now rewrite <- !app_assoc, app_nil_r.
    + destruct (ch_ecg ch) as [x1|] eqn:E; [|reflexivity].
      destruct F1 as [y Hy]; [eauto | discriminate Hy].
Qed.

Lemma bio_step_cases (process : series -> Z -> result (frame * gmap string value))
    (channel : option series) (sampling_rate : Z) (state : frame * gmap string value) :
  let out := channel_output nk process channel sampling_rate in
  bio_step pd nk process channel sampling_rate state
    = Ok (fst <$> out, bio_after pd out state)
  \/ exists x e,
       channel = Some x
       /\ rbind (as_vector nk x) (fun v => process v sampling_rate) = Raise e
       /\ bio_step pd nk process channel sampling_rate state = Raise e.
Proof.
  unfold bio_step, channel_output. destruct channel as [x|]; cbv zeta; [|now left].
  destruct (as_vector nk x) as [v|e] eqn:Ev; cbn [rbind].
  - destruct (process v sampling_rate) as [o|e] eqn:Ep; cbn [rbind]; [now left|].
    right. exists x, e. rewrite Ev. cbn [rbind]. auto.
  - right. exists x, e. rewrite Ev. auto.
Qed.

(** X17.  [bio_process] raises no error of its own: an error it raises was
    raised by the processing of one of the channels in hand (conversion to
    a vector, then the channel's processing function) or by [hrv_rsa] on
    the ECG and RSP tables. *)
Theorem bio_process_error_origin (ecg : option (first_argument series frame))
    (rsp eda emg ppg eog : option series) (keep : option frame) (sampling_rate : Z)
    (e : exn) :
  bio_process pd nk ecg rsp eda emg ppg eog keep sampling_rate = Raise e ->
  let ch := bio_unpack pd ecg rsp eda emg ppg eog keep in
  let raised process channel :=
    exists x, channel = Some x
              /\ rbind (as_vector nk x) (fun v => process v sampling_rate) = Raise e in
  raised (ecg_process nk) (ch_ecg ch) \/ raised (rsp_process nk) (ch_rsp ch)
  \/ raised (eda_process nk) (ch_eda ch) \/ raised (emg_process nk) (ch_emg ch)
  \/ raised (ppg_process nk) (ch_ppg ch) \/ raised (eog_process nk) (ch_eog ch)
  \/ exists ecg_out rsp_out,
       channel_output nk (ecg_process nk) (ch_ecg ch) sampling_rate = Some ecg_out
       /\ channel_output nk (rsp_process nk) (ch_rsp ch) sampling_rate = Some rsp_out
       /\ hrv_rsa nk (fst ecg_out) (fst rsp_out) sampling_rate = Raise e.
Proof.
  unfold bio_process. cbv zeta. intros H.
  destruct (bio_step_cases (ecg_process nk)
              (ch_ecg (bio_unpack pd ecg rsp eda emg ppg eog keep)) sampling_rate
              (empty_frame pd, ∅)) as [E|(x & e' & Hx & He & E)];
    rewrite E in H; cbn [rbind fst snd] in H;
    [|injection H as <-; left; eauto].
  clear E. right.
  match type of H with context [bio_step pd nk (rsp_process nk) ?c ?r ?st] =>
    destruct (bio_step_cases (rsp_process nk) c r st) as [E|(x & e' & Hx & He & E)] end;
    rewrite E in H; cbn [rbind fst snd] in H;
    [|injection H as <-; left; eauto].
  clear E. right.
  match type of H with context [bio_step pd nk (eda_process nk) ?c ?r ?st] =>
    destruct (bio_step_cases (eda_process nk) c r st) as [E|(x & e' & Hx & He & E)] end;
    rewrite E in H; cbn [rbind fst snd] in H;
    [|injection H as <-; left; eauto].
  clear E. right.
  match type of H with context [bio_step pd nk (emg_process nk) ?c ?r ?st] =>
    destruct (bio_step_cases (emg_process nk) c r st) as [E|(x & e' & Hx & He & E)] end;
    rewrite E in H; cbn [rbind fst snd] in H;
    [|injection H as <-; left; eauto].
  clear E. right.
  match type of H with context [bio_step pd nk (ppg_process nk) ?c ?r ?st] =>
    destruct (bio_step_cases (ppg_process nk) c r st) as [E|(x & e' & Hx & He & E)] end;
    rewrite E in H; cbn [rbind fst snd] in H;
    [|injection H as <-; left; eauto].
  clear E. right.
  match type of H with context [bio_step pd nk (eog_process nk) ?c ?r ?st] =>
    destruct (bio_step_cases (eog_process nk) c r st) as [E|(x & e' & Hx & He & E)] end;
    rewrite E in H; cbn [rbind fst snd] in H;
    [|injection H as <-; left; eauto].
  clear E. right.
  destruct (channel_output nk (ecg_process nk) _ sampling_rate) as [eo|];
    [destruct (channel_output nk (rsp_process nk) _ sampling_rate) as [so|]|];
    cbn [fmap option_fmap option_map rbind] in H; try discriminate H.
  destruct (hrv_rsa nk (fst eo) (fst so) sampling_rate) as [rsa|x] eqn:Ersa;
    cbn [rbind] in H; [discriminate H|].
  injection H as <-. exists eo, so. auto.
Qed.

End BioProcessProperties.

(** ** The further properties at sample inputs *)

Lemma sample_model_knots (m : cvx_model) :
  cvxeda_model sample_signal 1 default_tau0 default_tau1 default_delta_knot = Ok m ->
  mdl_nB m = 1%nat.
Proof.
  intros Hm.
  destruct (cvxeda_model_inv _ _ _ _ _ _ Hm)
    as (frequency & ar & spl & _ & Hf & _ & _ & _ & _ & _ & _ & HnB & _).
  cbv zeta in HnB. rewrite HnB, Hf. vm_compute. reflexivity.
Qed.

(** [backend_needed_by_cvxeda_only]: without the backend "cvxEDA" fails and
    "median" runs as with it. *)
Lemma backend_needed_by_cvxeda_only_witness :
  lower "cvxEDA" = "cvxeda"%string
  /\ eda_decompose false qp_converges conelp_stalls smooth_flat filter_crude
       sample_signal 1 "cvxEDA" ∅ = (Raise ImportError, ∅)
  /\ lower "median" <> "cvxeda"%string
  /\ eda_decompose true qp_stalls conelp_stalls smooth_flat filter_crude
       sample_signal 2 "median" ∅ =
     eda_decompose false qp_converges conelp_stalls smooth_flat filter_crude
       sample_signal 2 "median" ∅.
Proof.
  assert (H1 : lower "cvxEDA" = "cvxeda"%string) by reflexivity.
  assert (H2 : lower "median" <> "cvxeda"%string) by discriminate.
  pose proof (backend_needed_by_cvxeda_only false qp_converges conelp_stalls smooth_flat
                filter_crude sample_signal 1 "cvxEDA" ∅) as [Ha _].
  pose proof (backend_needed_by_cvxeda_only false qp_converges conelp_stalls smooth_flat
                filter_crude sample_signal 2 "median" ∅) as [_ Hb].
  split; [exact H1|]. split; [exact (proj1 (Ha H1 eq_refl))|].
  split; [exact H2|]. exact (Hb H2 true qp_stalls conelp_stalls).
Defined.

(** [cvxeda_sampling_rate] on the four-sample signal. *)
Lemma cvxeda_sampling_rate_witness :
  lower "cvxeda" = "cvxeda"%string
  /\ (2 <= length sample_signal)%nat
  /\ eda_decompose true qp_converges conelp_stalls smooth_flat filter_crude
       sample_signal 0 "cvxeda" ∅ = (Raise ZeroDivisionError, ∅)
  /\ eda_decompose true qp_converges conelp_stalls smooth_flat filter_crude
       sample_signal (-1) "cvxeda" ∅ = (Raise ValueError, ∅)
  /\ float_knot_samples 1 = Ok 10
  /\ exists m kernel,
       cvxeda_model sample_signal 1 default_tau0 default_tau1 default_delta_knot = Ok m
       /\ spline_kernel 10 = Ok kernel
       /\ length kernel = 37%nat
       /\ mdl_nB m = 1%nat.
Proof.
  assert (H1 : lower "cvxeda" = "cvxeda"%string) by reflexivity.
  assert (H2 : (2 <= length sample_signal)%nat) by (simpl; lia).
  split; [exact H1|]. split; [exact H2|].
  split; [|split].
  - apply (cvxeda_sampling_rate true qp_converges conelp_stalls smooth_flat filter_crude
             sample_signal 0 "cvxeda" ∅ eq_refl H1 H2). reflexivity.
  - apply (cvxeda_sampling_rate true qp_converges conelp_stalls smooth_flat filter_crude
             sample_signal (-1) "cvxeda" ∅ eq_refl H1 H2). unfold rate_bound. lia.
  - destruct (cvxeda_sampling_rate true qp_converges conelp_stalls smooth_flat filter_crude
                sample_signal 1 "cvxeda" ∅ eq_refl H1 H2) as (_ & _ & H).
    destruct H as (Hfloat & m & kernel & Hm & Hk & Hlen & _ & _ & _ & Hceil);
      [unfold rate_bound; lia|].
    split; [exact Hfloat|].
    exists m, kernel. split; [exact Hm|]. split; [exact Hk|]. split; [exact Hlen|].
    simpl in Hceil. lia.
Defined.

(** [single_sample_rejected] on a signal of one sample, at the default
    parameters. *)
Lemma single_sample_rejected_witness :
  length [fin 1] = 1%nat
  /\ _eda_decompose_cvxeda true qp_converges conelp_stalls [fin 1] 1
       default_tau0 default_tau1 default_delta_knot default_alpha default_gamma
       default_solver default_reltol ∅ = (Raise ValueError, ∅).
Proof.
  split; [reflexivity|].
  apply (single_sample_rejected true qp_converges conelp_stalls [fin 1] 1
           default_tau0 default_tau1 default_delta_knot default_alpha default_gamma
           default_reltol default_solver ∅ eq_refl eq_refl).
  - discriminate.
  - intros E. apply (f_equal this) in E. discriminate E.
  - intros E. apply (f_equal this) in E. discriminate E.
Defined.

(** [trend_is_a_line] on four samples, with offset 1 and slope 2. *)
Lemma trend_is_a_line_witness :
  (1 < 4)%nat
  /\ nth 1 (times (trend_matrix 4) [Fin 1%Qc; Fin (Q2Qc 2)]) NaN =
       Fin (1 + Q2Qc 2 * (Qc_of_int 2 / Qc_of_nat 4))%Qc
  /\ nth 3 (times (trend_matrix 4) [Fin 1%Qc; Fin (Q2Qc 2)]) NaN = Fin (1 + Q2Qc 2)%Qc.
Proof.
  assert (H : (1 < 4)%nat) by lia.
  split; [exact H|].
  destruct (trend_is_a_line 4 1 1%Qc (Q2Qc 2) H) as (_ & Hk & Hlast).
  split; [exact Hk | exact Hlast].
Defined.

(** [qp_encoding_shape] on the model of the four-sample signal: seven
    variables, four constraints. *)
Lemma qp_encoding_shape_witness :
  exists m,
    cvxeda_model sample_signal 1 default_tau0 default_tau1 default_delta_knot = Ok m
    /\ has_shape 7 7 (qp_H (qp_encoding m sample_signal default_alpha default_gamma
                              default_solver))
    /\ has_shape 4 7 (qp_G (qp_encoding m sample_signal default_alpha default_gamma
                              default_solver)).
Proof.
  destruct sample_model_built as [m Hm].
  exists m. split; [exact Hm|].
  pose proof (sample_model_knots m Hm) as HnB.
  destruct (qp_encoding_shape sample_signal 1 default_tau0 default_tau1 default_delta_knot
              default_alpha default_gamma default_solver m Hm) as (HH & _ & HG & _).
  rewrite HnB in HH, HG. split; [exact HH | exact HG].
Defined.

(** [cone_encoding_shape] on the model of the four-sample signal: thirteen
    rows, nine variables. *)
Lemma cone_encoding_shape_witness :
  exists m,
    cvxeda_model sample_signal 1 default_tau0 default_tau1 default_delta_knot = Ok m
    /\ has_shape 13 9 (cp_G (cone_encoding m sample_signal default_alpha default_gamma))
    /\ has_shape 13 1 (cp_h (cone_encoding m sample_signal default_alpha default_gamma)).
Proof.
  destruct sample_model_built as [m Hm].
  exists m. split; [exact Hm|].
  destruct (cone_encoding_shape sample_signal 1 default_tau0 default_tau1 default_delta_knot
              default_alpha default_gamma m Hm) as (HG & Hh & _).
  rewrite (sample_model_knots m Hm) in HG, Hh. split; [exact HG | exact Hh].
Defined.

(** [kernel_peak_at_centre] at a spacing of 2 samples: the third of the
    five taps is 1, and the second column of B on five samples has it on
    row 2. *)
Lemma kernel_peak_at_centre_witness :
  1 <= 2
  /\ exists kernel,
       spline_kernel 2 = Ok kernel
       /\ nth 2 kernel NaN = Fin 1%Qc
       /\ sp_lookup (spline_matrix kernel 5 2) 2 1 = Some (Fin 1%Qc).
Proof.
  assert (H : 1 <= 2) by lia.
  split; [exact H|].
  destruct (kernel_peak_at_centre 2 H) as (kernel & Hk & _ & Hmid & _ & Hcol).
  exists kernel. split; [exact Hk|]. split; [exact Hmid|].
  apply (Hcol 5%nat 1%nat); [lia | vm_compute; lia].
Defined.

(** [table_input_overrides_arguments] on a table with an "ECG", an "EKG",
    an "RSP" and one more column: the "ECG" column is the one processed. *)
Lemma table_input_overrides_arguments_witness :
  In "ECG"%string (frame_keys sample_pandas sample_table)
  /\ bio_process sample_pandas sample_processors (Some (Table sample_table))
       (Some [9]) None None None None None 100 =
     bio_process sample_pandas sample_processors (Some (Channel [7; 8]))
       (Some [3; 4]) None None None None (Some [("Photosensor"%string, [5; 6])]) 100.
Proof.
  assert (H : In "ECG"%string (frame_keys sample_pandas sample_table))
    by (simpl; auto).
  split; [exact H|].
  exact (proj1 (proj2 (table_input_overrides_arguments _ _ _ sample_pandas
                         sample_processors sample_table (Some [9]) None None None None
                         None 100)) H).
Defined.

(** [info_merged_in_order] on the sample table: the 0 that the sample
    processors store under "sampling_rate" is replaced by the rate of the
    call. *)
Lemma info_merged_in_order_witness :
  exists bio_df bio_info,
    bio_process sample_pandas sample_processors (Some (Table sample_table))
      None None None None None None 100 = Ok (bio_df, bio_info)
    /\ bio_info !! "sampling_rate"%string = Some 100
    /\ bio_info !! "RSP_Clean"%string = Some 2.
Proof.
  pose (bio_df := [("ECG_Clean"%string, [7; 8]); ("RSP_Clean"%string, [3; 4]);
                   ("Photosensor"%string, [5; 6]); ("RSA_P2T"%string, [0])]
                  : list (string * list Z)).
  pose (bio_info := <["sampling_rate"%string := 100]>
                      (<["RSP_Clean"%string := 2]>
                         (<["ECG_Clean"%string := 2]> (∅ : gmap string Z)))).
  assert (H : bio_process sample_pandas sample_processors (Some (Table sample_table))
                None None None None None None 100 = Ok (bio_df, bio_info))
    by (vm_compute; reflexivity).
  exists bio_df, bio_info. split; [exact H|].
  pose proof (info_merged_in_order (list Z) (list (string * list Z)) Z sample_pandas
                sample_processors (Some (Table sample_table)) None None None None None
                None 100 bio_df bio_info H) as Hinfo.
  cbv zeta in Hinfo. destruct Hinfo as (_ & Hrate & _).
  split; [exact Hrate|].
  vm_compute. reflexivity.
Defined.

(** [columns_in_order] on the sample table, whose concatenation appends the
    columns. *)
Lemma columns_in_order_witness :
  (forall a b, frame_keys sample_pandas (pd_concat sample_pandas a b)
               = frame_keys sample_pandas a ++ frame_keys sample_pandas b)
  /\ exists bio_df bio_info rsa_keys,
       bio_process sample_pandas sample_processors (Some (Table sample_table))
         None None None None None None 100 = Ok (bio_df, bio_info)
       /\ frame_keys sample_pandas bio_df
          = ["ECG_Clean"; "RSP_Clean"; "Photosensor"]%string ++ rsa_keys.
Proof.
  assert (Hc : forall a b, frame_keys sample_pandas (pd_concat sample_pandas a b)
                           = frame_keys sample_pandas a ++ frame_keys sample_pandas b)
    by (intros a b; apply map_app).
  split; [exact Hc|].
  pose (bio_df := [("ECG_Clean"%string, [7; 8]); ("RSP_Clean"%string, [3; 4]);
                   ("Photosensor"%string, [5; 6]); ("RSA_P2T"%string, [0])]
                  : list (string * list Z)).
  pose (bio_info := <["sampling_rate"%string := 100]>
                      (<["RSP_Clean"%string := 2]>
                         (<["ECG_Clean"%string := 2]> (∅ : gmap string Z)))).
  assert (H : bio_process sample_pandas sample_processors (Some (Table sample_table))
                None None None None None None 100 = Ok (bio_df, bio_info))
    by (vm_compute; reflexivity).
  pose proof (columns_in_order (list Z) (list (string * list Z)) Z sample_pandas
                sample_processors (Some (Table sample_table)) None None None None None
                None 100 bio_df bio_info Hc eq_refl (fun k => eq_refl) H) as Hcols.
  cbv zeta in Hcols. destruct Hcols as (rsa_keys & Hkeys & _).
  exists bio_df, bio_info, rsa_keys. split; [exact H|].
  rewrite Hkeys. vm_compute. reflexivity.
Defined.

(** [bio_process_error_origin] with an empty RSP channel, which the sample
    processor rejects. *)
Lemma bio_process_error_origin_witness :
  bio_process sample_pandas sample_processors (Some (Channel [1; 2])) (Some [])
    None None None None None 100 = Raise ValueError
  /\ exists x : list Z,
       x = [] /\ rsp_process sample_processors x 100 = Raise ValueError.
Proof.
  assert (H : bio_process sample_pandas sample_processors (Some (Channel [1; 2]))
                (Some []) None None None None None 100 = Raise ValueError)
    by reflexivity.
  split; [exact H|].
  destruct (bio_process_error_origin _ _ _ sample_pandas sample_processors
              _ _ _ _ _ _ _ _ _ H)
    as [(x & Hx & He)|[(x & Hx & He)|[(x & Hx & He)|[(x & Hx & He)|[(x & Hx & He)
       |[(x & Hx & He)|(eo & so & _ & Hs & _)]]]]]];
    try discriminate Hx.
  - injection Hx as <-. discriminate He.
  - injection Hx as <-. exists []. split; [reflexivity | exact He].
  - discriminate Hs.
Defined.

(** [options_after_call] on the signal of two samples, whose program the
    solver rejects: the call ends with [reltol] and [show_progress] set. *)
Lemma options_after_call_witness :
  - rate_bound <= 1 <= rate_bound
  /\ eda_decompose true qp_cautious conelp_stalls smooth_flat filter_crude
       two_samples 1 "cvxeda" ∅ = (Raise ValueError, solver_settings default_reltol)
  /\ snd (eda_decompose true qp_converges conelp_stalls smooth_flat filter_crude
            two_samples 1 "median" ∅) = ∅.
Proof.
  assert (Hb : - rate_bound <= 1 <= rate_bound) by (unfold rate_bound; lia).
  split; [exact Hb|]. split.
  - eassert (Hm : cvxeda_model two_samples 1 default_tau0 default_tau1
                    default_delta_knot = Ok _) by (vm_compute; reflexivity).
    destruct (options_after_call true qp_cautious conelp_stalls smooth_flat filter_crude
                two_samples 1 "cvxeda" ∅ Hb) as (Hfail & _).
    apply (Hfail _ ValueError (conj eq_refl (conj eq_refl Hm))).
    vm_compute. reflexivity.
  - destruct (options_after_call true qp_converges conelp_stalls smooth_flat filter_crude
                two_samples 1 "median" ∅ Hb) as (_ & _ & Hother & _).
    apply Hother. intros m (E & _). discriminate E.
Defined.
